(** * sslh, probe.c: the protocol probes and the probe arbiter

    A shallow embedding of probe.c.  The bytes a probe looks at live in a
    memory indexed by addresses; a probe receives the address [p] of the
    first byte and the number [len] of bytes it may look at, exactly as
    the C functions do.  Every read of the memory is an explicit [Load]
    node of a small read monad, so that running a probe yields both its
    return value and the list of addresses it has read. *)

From Stdlib Require Import String ZArith List Lia Bool.
From Stdlib Require Import Strings.Byte.
From Stdlib Require Import Sorting.Sorted.
Import ListNotations.
Local Open Scope Z_scope.

(** ** Machine integers *)

Definition INT_MAX : Z := 2 ^ 31 - 1.

(** Conversion of an [int] to [unsigned int] (32 bits). *)
Definition to_unsigned_int (z : Z) : Z := z mod 2 ^ 32.

(** Conversion of an [int] to [size_t] (64 bits, LP64). *)
Definition to_size_t (z : Z) : Z := z mod 2 ^ 64.

(** The value of a byte seen as an [unsigned char]. *)
Definition uchar (c : byte) : Z := Z.of_N (Byte.to_N c).

(** Conversion of an [unsigned char] value to [char]: the identity where
    [char] is unsigned, wrap-around to -128..127 where it is signed. *)
Definition to_char (char_is_signed : bool) (z : Z) : Z :=
  if char_is_signed then (if z <? 128 then z else z - 256) else z.

(** C's logical negation [!x]. *)
Definition lnot (x : Z) : Z := if x =? 0 then 1 else 0.

(** ** Memory and the read monad *)

Definition ptr := Z.
Definition memory := ptr -> byte.

Inductive Rd (A : Type) : Type :=
| Ret (a : A)
| Load (i : ptr) (k : byte -> Rd A).

Arguments Ret {A} a.
Arguments Load {A} i k.

Fixpoint bind {A B : Type} (t : Rd A) (f : A -> Rd B) : Rd B :=
  match t with
  | Ret a => f a
  | Load i k => Load i (fun c => bind (k c) f)
  end.

Notation "x <- t ;; u" := (bind t (fun x => u))
  (at level 61, t at next level, right associativity).

(** Reading the byte at address [p]. *)
Definition load (p : ptr) : Rd byte := Load p Ret.

(** [run m t] executes [t] on memory [m]: the value returned and the
    addresses read, in order. *)
Fixpoint run {A : Type} (m : memory) (t : Rd A) : A * list ptr :=
  match t with
  | Ret a => (a, [])
  | Load i k => let (a, tr) := run m (k (m i)) in (a, i :: tr)
  end.

Definition result {A : Type} (m : memory) (t : Rd A) : A := fst (run m t).
Definition reads {A : Type} (m : memory) (t : Rd A) : list ptr := snd (run m t).

(** The [len] bytes found at address [p]: the byte slice a probe is
    given when it is called with [p] and [len]. *)
Fixpoint bytes_n (m : memory) (p : ptr) (n : nat) : list byte :=
  match n with
  | O => []
  | S k => m p :: bytes_n m (p + 1) k
  end.

Definition bytes (m : memory) (p : ptr) (len : Z) : list byte :=
  bytes_n m p (Z.to_nat len).

(** The addresses of the [len] bytes at [p]. *)
Definition in_slice (p : ptr) (len : Z) (a : ptr) : Prop := p <= a < p + len.

(** A memory that holds the byte slice [b] at address [p] and [beyond]
    everywhere else. *)
Definition place (b : list byte) (p : ptr) (beyond : memory) : memory :=
  fun a =>
    if (p <=? a) && (a <? p + Z.of_nat (length b))
    then nth (Z.to_nat (a - p)) b x00
    else beyond a.

(** The memory that holds zero everywhere. *)
Definition zeroes : memory := fun _ => x00.

(** String literals of the source, as bytes (without the final NUL). *)
Definition lit (s : string) : list byte := list_byte_of_string s.

(** ** Byte slices *)

Definition slice_len (b : list byte) : Z := Z.of_nat (length b).

(** The byte at position [i], as a number. *)
Definition byte_at (b : list byte) (i : nat) : Z := uchar (nth i b x00).

(** [b] begins with [s]. *)
Fixpoint starts_with (s b : list byte) : bool :=
  match s, b with
  | [], _ => true
  | _ :: _, [] => false
  | c :: s', d :: b' => Byte.eqb d c && starts_with s' b'
  end.

(** [s] occurs somewhere in [b]. *)
Fixpoint contains (s b : list byte) : bool :=
  starts_with s b ||
  match b with
  | [] => false
  | _ :: b' => contains s b'
  end.

Definition byte_of (z : Z) : byte :=
  match Byte.of_N (Z.to_N z) with
  | Some c => c
  | None => x00
  end.

Definition to_upper (c : byte) : byte :=
  if (97 <=? uchar c) && (uchar c <=? 122) then byte_of (uchar c - 32) else c.

Definition to_lower (c : byte) : byte :=
  if (65 <=? uchar c) && (uchar c <=? 90) then byte_of (uchar c + 32) else c.

Fixpoint bytes_eqb (a b : list byte) : bool :=
  match a, b with
  | [], [] => true
  | c :: a', d :: b' => Byte.eqb c d && bytes_eqb a' b'
  | _, _ => false
  end.

(** [b] is [s] up to the case of its letters, and is not [s]. *)
Definition differs_only_in_case (s b : list byte) : Prop :=
  map to_upper b = map to_upper s /\ b <> s.

(** All the ways of writing [s] with letters of either case. *)
Fixpoint case_variants (s : list byte) : list (list byte) :=
  match s with
  | [] => [[]]
  | c :: s' =>
      let vs := case_variants s' in
      map (cons (to_upper c)) vs ++ map (cons (to_lower (to_upper c))) vs
  end.

(** The literal [s] has no NUL inside. *)
Definition no_nul (s : list byte) : bool :=
  forallb (fun c => negb (Byte.eqb c x00)) s.

(** A pointer that is not NULL. *)
Definition found (r : option ptr) : bool :=
  match r with Some _ => true | None => false end.

(** ** The C library functions the probes call *)

Definition strlen (s : list byte) : Z := Z.of_nat (length s).

(** [strncmp(p, s, n)]: compares at most [n] characters, stops at the
    first difference or after a NUL.  [s] is a literal: past its last
    character comes its terminating NUL. *)
Fixpoint strncmp (p : ptr) (s : list byte) (n : nat) : Rd Z :=
  match n with
  | O => Ret 0
  | S n' =>
      c <- load p ;;
      let d := hd x00 s in
      if negb (Byte.eqb c d) then Ret (uchar c - uchar d)
      else if Byte.eqb c x00 then Ret 0
      else strncmp (p + 1) (tl s) n'
  end.

(** [memcmp(p, s, n)]: the [n] bytes at [p] against the [n] bytes of [s];
    all [n] bytes at [p] are counted as read. *)
Fixpoint memcmp (p : ptr) (s : list byte) (n : nat) : Rd Z :=
  match n with
  | O => Ret 0
  | S n' =>
      c <- load p ;;
      r <- memcmp (p + 1) (tl s) n' ;;
      let d := hd x00 s in
      Ret (if Byte.eqb c d then r else uchar c - uchar d)
  end.

Fixpoint memmem_from (p : ptr) (positions : nat) (needle : list byte)
  : Rd (option ptr) :=
  match positions with
  | O => Ret None
  | S k =>
      r <- memcmp p needle (length needle) ;;
      if r =? 0 then Ret (Some p) else memmem_from (p + 1) k needle
  end.

(** [memmem(p, hlen, needle, strlen needle)]: address of the first
    occurrence of [needle] in the [hlen] bytes at [p], or NULL. *)
Definition memmem (p : ptr) (hlen : Z) (needle : list byte) : Rd (option ptr) :=
  if hlen <? strlen needle then Ret None
  else memmem_from p (Z.to_nat (hlen - strlen needle + 1)) needle.

(** ** Instances of what probe.c takes from elsewhere *)

(** Modelled from the spec: the first two steps of the TLS header parser
    of tls.c, which is not among the sources: fewer than five bytes are
    too few (-1), a record whose type byte is not 0x16 is no TLS (0);
    what passes counts as a match (1).  An instance of
    [parse_tls_header], with no use for [proto->data]. *)
Definition tls_record_check (d : list byte) (p : ptr) (len : Z) : Rd Z :=
  if len <? 5 then Ret (-1)
  else c <- load p ;; Ret (if uchar c =? 22 then 1 else 0).

(** Modelled from the spec: a stand-in for [regexec] of the C library
    under REG_STARTEND, where a pattern is one byte and matches (0) the
    regions that begin with it. *)
Definition regexec_first_byte (re : byte) (p : ptr) (so eo : Z) : Rd Z :=
  if eo - so <? 1 then Ret 1
  else c <- load (p + so) ;; Ret (if Byte.eqb c re then 0 else 1).

(** ** The TLS header parser *)

(** Modelled from the spec: the three answers of [parse_tls_header] of
    tls.c, which is not among the sources: the handshake parses and the
    policy accepts it, the bytes are no acceptable ClientHello, the
    bytes are cut short. *)
Inductive tls_verdict : Type :=
| Tls_match
| Tls_nomatch
| Tls_elength.

(** Modelled from the spec: the answers as the integers [TLS_MATCH],
    [TLS_NOMATCH] and [TLS_ELENGTH] of tls.h that [is_tls_protocol]
    switches on. *)
Definition tls_code (TLS_MATCH TLS_NOMATCH TLS_ELENGTH : Z) (v : tls_verdict)
  : Z :=
  match v with
  | Tls_match => TLS_MATCH
  | Tls_nomatch => TLS_NOMATCH
  | Tls_elength => TLS_ELENGTH
  end.

(** Modelled from the spec: what [proto->data] holds for a TLS entry,
    the SNI allow-list and the ALPN allow-list, each of them configured
    ([Some]) or not ([None]). *)
Record tls_policy : Type := {
  sni_allow : option (list (list byte));
  alpn_allow : option (list (list byte))
}.

(** Modelled from the spec: the number in the byte at offset [pos] of
    the slice at [p]. *)
Definition get_u8 (p : ptr) (pos : Z) : Rd Z :=
  c <- load (p + pos) ;; Ret (uchar c).

(** Modelled from the spec: the number in the two bytes at offset [pos],
    big-endian. *)
Definition get_u16 (p : ptr) (pos : Z) : Rd Z :=
  hi <- get_u8 p pos ;;
  lo <- get_u8 p (pos + 1) ;;
  Ret (hi * 256 + lo).

(** Modelled from the spec: the number in the three bytes at offset
    [pos], big-endian. *)
Definition get_u24 (p : ptr) (pos : Z) : Rd Z :=
  hi <- get_u8 p pos ;;
  lo <- get_u16 p (pos + 1) ;;
  Ret (hi * 65536 + lo).

(** Modelled from the spec: the [n] bytes at offset [pos], collected. *)
Fixpoint get_bytes (p : ptr) (pos : Z) (n : nat) : Rd (list byte) :=
  match n with
  | O => Ret []
  | S k =>
      c <- load (p + pos) ;;
      r <- get_bytes p (pos + 1) k ;;
      Ret (c :: r)
  end.

(** Modelled from the spec: the entries of a server-name list that
    occupies the offsets [pos, lend), each of them one byte of name type,
    two bytes of name length and the name.  The first entry of name type
    0 is the server name; an entry that does not fit in what remains of
    the list cuts the parse short.  [fuel] bounds the number of entries:
    each takes at least three bytes. *)
Fixpoint sni_entries (fuel : nat) (p : ptr) (pos lend : Z)
  : Rd (tls_verdict + option (list byte)) :=
  match fuel with
  | O => Ret (inr None)
  | S k =>
      if lend <=? pos then Ret (inr None)
      else if lend <? pos + 3 then Ret (inl Tls_elength)
      else
        name_type <- get_u8 p pos ;;
        name_len <- get_u16 p (pos + 1) ;;
        if lend <? pos + 3 + name_len then Ret (inl Tls_elength)
        else if name_type =? 0 then
          server_name <- get_bytes p (pos + 3) (Z.to_nat name_len) ;;
          Ret (inr (Some server_name))
        else sni_entries k p (pos + 3 + name_len) lend
  end.

(** Modelled from the spec: the payload of an SNI extension at offsets
    [pos, eend): a two-byte list length, then the list. *)
Definition sni_extension (p : ptr) (pos eend : Z)
  : Rd (tls_verdict + option (list byte)) :=
  if eend <? pos + 2 then Ret (inl Tls_elength)
  else
    list_len <- get_u16 p pos ;;
    if eend <? pos + 2 + list_len then Ret (inl Tls_elength)
    else sni_entries (Z.to_nat list_len) p (pos + 2) (pos + 2 + list_len).

(** Modelled from the spec: the entries of a protocol-name list that
    occupies the offsets [pos, lend), each of them one byte of length and
    the name.  All names are collected, after those of [acc]. *)
Fixpoint alpn_entries (fuel : nat) (p : ptr) (pos lend : Z)
    (acc : list (list byte)) : Rd (tls_verdict + list (list byte)) :=
  match fuel with
  | O => Ret (inr acc)
  | S k =>
      if lend <=? pos then Ret (inr acc)
      else
        proto_len <- get_u8 p pos ;;
        if lend <? pos + 1 + proto_len then Ret (inl Tls_elength)
        else
          proto_name <- get_bytes p (pos + 1) (Z.to_nat proto_len) ;;
          alpn_entries k p (pos + 1 + proto_len) lend (acc ++ [proto_name])
  end.

(** Modelled from the spec: the payload of an ALPN extension at offsets
    [pos, eend): a two-byte list length, then the list. *)
Definition alpn_extension (p : ptr) (pos eend : Z) (acc : list (list byte))
  : Rd (tls_verdict + list (list byte)) :=
  if eend <? pos + 2 then Ret (inl Tls_elength)
  else
    list_len <- get_u16 p pos ;;
    if eend <? pos + 2 + list_len then Ret (inl Tls_elength)
    else alpn_entries (Z.to_nat list_len) p (pos + 2) (pos + 2 + list_len) acc.

(** Modelled from the spec: the extension block at offsets [pos, xend),
    each extension two bytes of type, two bytes of length and the
    payload.  Type 0x0000 is SNI, type 0x0010 is ALPN, the others are
    passed over.  It yields the server name, if one was found, and the
    protocol names.  [fuel] bounds the number of extensions: each takes
    at least four bytes. *)
Fixpoint extensions (fuel : nat) (p : ptr) (pos xend : Z)
    (sni : option (list byte)) (alpn : list (list byte))
  : Rd (tls_verdict + option (list byte) * list (list byte)) :=
  match fuel with
  | O => Ret (inr (sni, alpn))
  | S k =>
      if xend <=? pos then Ret (inr (sni, alpn))
      else if xend <? pos + 4 then Ret (inl Tls_elength)
      else
        ext_type <- get_u16 p pos ;;
        ext_len <- get_u16 p (pos + 2) ;;
        let eend := pos + 4 + ext_len in
        if xend <? eend then Ret (inl Tls_elength)
        else if ext_type =? 0 then
          r <- sni_extension p (pos + 4) eend ;;
          match r with
          | inl v => Ret (inl v)
          | inr found_name =>
              extensions k p eend xend
                (match sni with Some _ => sni | None => found_name end) alpn
          end
        else if ext_type =? 16 then
          r <- alpn_extension p (pos + 4) eend alpn ;;
          match r with
          | inl v => Ret (inl v)
          | inr names => extensions k p eend xend sni names
          end
        else extensions k p eend xend sni alpn
  end.

(** Modelled from the spec: the first label of a host name and, when a
    dot follows it, what comes after the dot. *)
Fixpoint cut_label (s : list byte) : list byte * option (list byte) :=
  match s with
  | [] => ([], None)
  | c :: s' =>
      if Byte.eqb c x2e then ([], Some s')
      else let (l, r) := cut_label s' in (c :: l, r)
  end.

(** Modelled from the spec: a server name matches an allow-list entry
    when both are the same up to letter case, or when the left-most label
    of the entry is [*] and the name is exactly one label, a dot and the
    rest of the entry, up to letter case. *)
Definition sni_matches (entry server_name : list byte) : bool :=
  let e := map to_lower entry in
  let n := map to_lower server_name in
  bytes_eqb e n
  || match e with
     | c0 :: c1 :: rest =>
         Byte.eqb c0 x2a && Byte.eqb c1 x2e
         && match cut_label n with
            | (label, Some after) =>
                negb (bytes_eqb label []) && bytes_eqb after rest
            | (_, None) => false
            end
     | _ => false
     end.

(** Modelled from the spec: the match policy of a TLS entry.  A
    configured SNI allow-list wants the server name to match one of its
    entries, a configured ALPN allow-list wants one of the protocol names
    to be one of its entries, letter for letter; what is not configured
    accepts. *)
Definition policy_accepts (policy : tls_policy) (sni : option (list byte))
    (alpn : list (list byte)) : bool :=
  match sni_allow policy with
  | None => true
  | Some allowed =>
      match sni with
      | None => false
      | Some server_name =>
          existsb (fun entry => sni_matches entry server_name) allowed
      end
  end
  && match alpn_allow policy with
     | None => true
     | Some allowed =>
         existsb (fun proto_name => existsb (bytes_eqb proto_name) allowed) alpn
     end.

(** Modelled from the spec: the handshake message of a record that
    occupies the offsets [pos, rend).  The handshake header is one byte
    of type, which must be 1 (ClientHello), and three bytes of length;
    the body is two bytes of client version, 32 bytes of random, the
    session id behind one byte of length, the cipher suites behind two
    bytes of length, the compression methods behind one byte of length,
    and the extension block behind two bytes of length.  Whatever does
    not fit in what remains of the record cuts the parse short. *)
Definition client_hello (policy : tls_policy) (p : ptr) (pos rend : Z)
  : Rd tls_verdict :=
  if rend <? pos + 4 then Ret Tls_elength
  else
    handshake_type <- get_u8 p pos ;;
    if negb (handshake_type =? 1) then Ret Tls_nomatch
    else
      handshake_len <- get_u24 p (pos + 1) ;;
      let pos := pos + 4 in
      if rend <? pos + handshake_len then Ret Tls_elength
      else if rend <? pos + (2 + 32) then Ret Tls_elength
      else
        let pos := pos + (2 + 32) in
        if rend <? pos + 1 then Ret Tls_elength
        else
          session_id_len <- get_u8 p pos ;;
          let pos := pos + 1 in
          if rend <? pos + session_id_len then Ret Tls_elength
          else
            let pos := pos + session_id_len in
            if rend <? pos + 2 then Ret Tls_elength
            else
              cipher_suites_len <- get_u16 p pos ;;
              let pos := pos + 2 in
              if rend <? pos + cipher_suites_len then Ret Tls_elength
              else
                let pos := pos + cipher_suites_len in
                if rend <? pos + 1 then Ret Tls_elength
                else
                  compression_len <- get_u8 p pos ;;
                  let pos := pos + 1 in
                  if rend <? pos + compression_len then Ret Tls_elength
                  else
                    let pos := pos + compression_len in
                    if rend <? pos + 2 then Ret Tls_elength
                    else
                      extensions_len <- get_u16 p pos ;;
                      let pos := pos + 2 in
                      if rend <? pos + extensions_len then Ret Tls_elength
                      else
                        r <- extensions (Z.to_nat extensions_len) p pos
                               (pos + extensions_len) None [] ;;
                        match r with
                        | inl v => Ret v
                        | inr (sni, alpn) =>
                            Ret (if policy_accepts policy sni alpn
                                 then Tls_match else Tls_nomatch)
                        end.

(** Modelled from the spec: the TLS header parser on the [len] bytes at
    [p].  Fewer than five bytes are too few; byte 0 must be 0x16; the
    minor version of the record layer, byte 2, must be one of 0..4;
    bytes 3 and 4 are the record length [R], big-endian; a record length
    beyond the sanity cap [record_cap] is no TLS, and a record that is
    not whole in the [len] bytes is cut short; the handshake is then
    parsed inside the record. *)
Definition parse_tls_header_spec (record_cap : Z) (policy : tls_policy)
    (p : ptr) (len : Z) : Rd tls_verdict :=
  if len <? 5 then Ret Tls_elength
  else
    content_type <- get_u8 p 0 ;;
    if negb (content_type =? 22) then Ret Tls_nomatch
    else
      minor <- get_u8 p 2 ;;
      if negb (minor <=? 4) then Ret Tls_nomatch
      else
        R <- get_u16 p 3 ;;
        if record_cap <? R then Ret Tls_nomatch
        else if len <? 5 + R then Ret Tls_elength
        else client_hello policy p 5 (5 + R).

(** Modelled from the spec: [parse_tls_header(proto->data, p, len)],
    [policy_of] being how [proto->data] is read as the policy of a TLS
    entry. *)
Definition parse_tls_header_of {data_t : Type}
    (TLS_MATCH TLS_NOMATCH TLS_ELENGTH : Z) (record_cap : Z)
    (policy_of : data_t -> tls_policy) (d : data_t) (p : ptr) (len : Z) : Rd Z :=
  v <- parse_tls_header_spec record_cap (policy_of d) p len ;;
  Ret (tls_code TLS_MATCH TLS_NOMATCH TLS_ELENGTH v).

(** ** The TLS header parser as the specification words it *)

(** Modelled from the spec: the number a sequence of bytes encodes,
    big-endian. *)
Definition big_endian (bs : list byte) : Z :=
  fold_left (fun acc c => acc * 256 + uchar c) bs 0.

(** Modelled from the spec: the first [n] of the remaining bytes and
    what remains after them; nothing when fewer than [n] bytes remain. *)
Definition take (n : Z) (remaining : list byte)
  : option (list byte * list byte) :=
  if slice_len remaining <? n then None
  else Some (firstn (Z.to_nat n) remaining, skipn (Z.to_nat n) remaining).

(** Modelled from the spec: the server name of a list of entries, each
    [1 byte name-type + 2 bytes name length + name]: the name of the
    first entry with name-type 0. *)
Fixpoint sni_names (fuel : nat) (entries : list byte)
  : tls_verdict + option (list byte) :=
  match fuel with
  | O => inr None
  | S k =>
      if slice_len entries <=? 0 then inr None
      else
        match take 3 entries with
        | None => inl Tls_elength
        | Some (h, after) =>
            match take (big_endian (skipn 1 h)) after with
            | None => inl Tls_elength
            | Some (server_name, after') =>
                if byte_at h 0 =? 0 then inr (Some server_name)
                else sni_names k after'
            end
        end
  end.

(** Modelled from the spec: the payload of an SNI extension, a 2-byte
    list length then the entries. *)
Definition sni_payload (payload : list byte)
  : tls_verdict + option (list byte) :=
  match take 2 payload with
  | None => inl Tls_elength
  | Some (h, after) =>
      match take (big_endian h) after with
      | None => inl Tls_elength
      | Some (entries, _) => sni_names (length entries) entries
      end
  end.

(** Modelled from the spec: the protocol names of a list of entries,
    each [1 byte proto length + proto bytes], after those of [acc]. *)
Fixpoint alpn_names (fuel : nat) (entries : list byte) (acc : list (list byte))
  : tls_verdict + list (list byte) :=
  match fuel with
  | O => inr acc
  | S k =>
      if slice_len entries <=? 0 then inr acc
      else
        match take 1 entries with
        | None => inl Tls_elength
        | Some (h, after) =>
            match take (big_endian h) after with
            | None => inl Tls_elength
            | Some (proto_name, after') =>
                alpn_names k after' (acc ++ [proto_name])
            end
        end
  end.

(** Modelled from the spec: the payload of an ALPN extension, a 2-byte
    list length then the entries. *)
Definition alpn_payload (payload : list byte) (acc : list (list byte))
  : tls_verdict + list (list byte) :=
  match take 2 payload with
  | None => inl Tls_elength
  | Some (h, after) =>
      match take (big_endian h) after with
      | None => inl Tls_elength
      | Some (entries, _) => alpn_names (length entries) entries acc
      end
  end.

(** Modelled from the spec: the extension block, each extension
    [2 bytes type + 2 bytes length + payload]; SNI is type 0x0000 and
    ALPN type 0x0010. *)
Fixpoint extension_block (fuel : nat) (block : list byte)
    (sni : option (list byte)) (alpn : list (list byte))
  : tls_verdict + option (list byte) * list (list byte) :=
  match fuel with
  | O => inr (sni, alpn)
  | S k =>
      if slice_len block <=? 0 then inr (sni, alpn)
      else
        match take 4 block with
        | None => inl Tls_elength
        | Some (h, after) =>
            match take (big_endian (skipn 2 h)) after with
            | None => inl Tls_elength
            | Some (payload, after') =>
                if big_endian (firstn 2 h) =? 0 then
                  match sni_payload payload with
                  | inl v => inl v
                  | inr found_name =>
                      extension_block k after'
                        (match sni with Some _ => sni | None => found_name end)
                        alpn
                  end
                else if big_endian (firstn 2 h) =? 16 then
                  match alpn_payload payload alpn with
                  | inl v => inl v
                  | inr names => extension_block k after' sni names
                  end
                else extension_block k after' sni alpn
            end
        end
  end.

(** Modelled from the spec: step 5 to 7 on the bytes of the record.
    Handshake header: 1 byte type (must be 0x01), 3 bytes handshake
    length.  ClientHello body: 2 bytes client version and 32 bytes
    random, 1 byte session-id length + session id, 2 bytes cipher-suites
    length + cipher suites, 1 byte compression-methods length +
    compression methods, 2 bytes extensions length + extension block.
    At every step, a declared length that exceeds the remaining bytes
    gives AGAIN. *)
Definition client_hello_spec (policy : tls_policy) (record : list byte)
  : tls_verdict :=
  match take 4 record with
  | None => Tls_elength
  | Some (h, body) =>
      if negb (byte_at h 0 =? 1) then Tls_nomatch
      else
        match take (big_endian (skipn 1 h)) body with
        | None => Tls_elength
        | Some _ =>
        match take (2 + 32) body with
        | None => Tls_elength
        | Some (_, after) =>
        match take 1 after with
        | None => Tls_elength
        | Some (h, after) =>
        match take (big_endian h) after with
        | None => Tls_elength
        | Some (_, after) =>
        match take 2 after with
        | None => Tls_elength
        | Some (h, after) =>
        match take (big_endian h) after with
        | None => Tls_elength
        | Some (_, after) =>
        match take 1 after with
        | None => Tls_elength
        | Some (h, after) =>
        match take (big_endian h) after with
        | None => Tls_elength
        | Some (_, after) =>
        match take 2 after with
        | None => Tls_elength
        | Some (h, after) =>
        match take (big_endian h) after with
        | None => Tls_elength
        | Some (block, _) =>
            match extension_block (length block) block None [] with
            | inl v => v
            | inr (sni, alpn) =>
                if policy_accepts policy sni alpn
                then Tls_match else Tls_nomatch
            end
        end end end end end end end end end end
  end.

(** Modelled from the spec: steps 1 to 4 on the byte slice, then the
    record.  1: fewer than five bytes, AGAIN.  2: byte 0 must be 0x16,
    else NEXT.  3: the minor version of the record layer, byte 2, must
    be in 0..4, else NEXT.  4: bytes 3 and 4 are the record length [R],
    big-endian; beyond the sanity cap it is no TLS (NEXT), and fewer than
    5 + [R] bytes give AGAIN. *)
Definition tls_spec (record_cap : Z) (policy : tls_policy) (b : list byte)
  : tls_verdict :=
  match take 5 b with
  | None => Tls_elength
  | Some (h, after) =>
      if negb (byte_at h 0 =? 22) then Tls_nomatch
      else if negb (byte_at h 2 <=? 4) then Tls_nomatch
      else
        let R := big_endian (skipn 3 h) in
        if record_cap <? R then Tls_nomatch
        else
          match take R after with
          | None => Tls_elength
          | Some (record, _) => client_hello_spec policy record
          end
  end.

(** ** probe.c *)

(** Modelled from the spec: the three probe outcomes of probe.h, which is
    not among the sources.  Their values are the positions of the names
    in [probe_str] of [probe_buffer]; [is_true] returns 1 and the probes
    return [!strncmp(...)], so MATCH is 1 and NEXT is 0. *)
Definition PROBE_NEXT : Z := 0.
Definition PROBE_MATCH : Z := 1.
Definition PROBE_AGAIN : Z := 2.

Section Probe.

(** Properties of the platform the code is compiled for. *)
Variable host_big_endian : bool.
Variable char_is_signed : bool.

(** What [proto->data] points to, and the functions of other
    compilation units and libraries that interpret it. *)
Variable data_t : Type.
Variable regex_t : Type.
Variables TLS_MATCH TLS_NOMATCH TLS_ELENGTH : Z.
(** [parse_tls_header(proto->data, p, len)] of tls.c. *)
Variable parse_tls_header : data_t -> ptr -> Z -> Rd Z.
(** The NULL-terminated array of compiled patterns [proto->data] is for
    a regex entry. *)
Variable regex_list : data_t -> list regex_t.
(** [regexec(re, p, 0, &pos, REG_STARTEND)] with [pos = { so, eo }]. *)
Variable regexec : regex_t -> ptr -> Z -> Z -> Rd Z.

Definition T_PROBE : Type := ptr -> Z -> data_t -> Rd Z.

Definition is_true : T_PROBE := fun p len proto => Ret 1.

Definition is_ssh_protocol : T_PROBE := fun p len proto =>
  if len <? 4 then Ret PROBE_AGAIN
  else r <- strncmp p (lit "SSH-") 4 ;; Ret (lnot r).

(** [*(uint16_t* )p]: two bytes in the byte order of the host. *)
Definition load_uint16 (p : ptr) : Rd Z :=
  c0 <- load p ;;
  c1 <- load (p + 1) ;;
  Ret (if host_big_endian then uchar c0 * 256 + uchar c1
       else uchar c0 + uchar c1 * 256).

Definition ntohs (x : Z) : Z :=
  if host_big_endian then x
  else Z.lor (Z.shiftl (Z.land x 255) 8) (Z.shiftr x 8).

Definition is_openvpn_protocol : T_PROBE := fun p len proto =>
  if len <? 2 then Ret PROBE_AGAIN
  else
    x <- load_uint16 p ;;
    let packet_len := ntohs x in
    Ret (if packet_len =? len - 2 then 1 else 0).

Definition is_tinc_protocol : T_PROBE := fun p len proto =>
  if len <? 2 then Ret PROBE_AGAIN
  else r <- strncmp p (lit "0 ") 2 ;; Ret (lnot r).

Definition is_xmpp_protocol : T_PROBE := fun p len proto =>
  f <- memmem p (to_size_t len) (lit "jabber") ;;
  match f with
  | Some _ => Ret PROBE_MATCH
  | None => if len <? 50 then Ret PROBE_AGAIN else Ret PROBE_NEXT
  end.

Definition probe_http_method (p : ptr) (len : Z) (opt : string) : Rd Z :=
  if to_size_t len <? strlen (lit opt) then Ret PROBE_AGAIN
  else r <- strncmp p (lit opt) (length (lit opt)) ;; Ret (lnot r).

(** The macro [PROBE_HTTP_METHOD(opt)], followed by the rest [k] of the
    function. *)
Definition PROBE_HTTP_METHOD (p : ptr) (len : Z) (opt : string) (k : Rd Z)
  : Rd Z :=
  res <- probe_http_method p len opt ;;
  if negb (res =? PROBE_NEXT) then Ret res else k.

Definition is_http_protocol : T_PROBE := fun p len proto =>
  f <- memmem p (to_size_t len) (lit "HTTP") ;;
  match f with
  | Some _ => Ret PROBE_MATCH
  | None =>
      PROBE_HTTP_METHOD p len "OPTIONS" (
      PROBE_HTTP_METHOD p len "GET" (
      PROBE_HTTP_METHOD p len "HEAD" (
      PROBE_HTTP_METHOD p len "POST" (
      PROBE_HTTP_METHOD p len "PUT" (
      PROBE_HTTP_METHOD p len "DELETE" (
      PROBE_HTTP_METHOD p len "TRACE" (
      PROBE_HTTP_METHOD p len "CONNECT" (
      Ret PROBE_NEXT))))))))
  end.

Definition is_tls_protocol : T_PROBE := fun p len proto =>
  r <- parse_tls_header proto p len ;;
  Ret (if r =? TLS_MATCH then PROBE_MATCH
       else if r =? TLS_NOMATCH then PROBE_NEXT
       else if r =? TLS_ELENGTH then PROBE_AGAIN
       else PROBE_NEXT).

Definition probe_adb_cnxn_message (p : ptr) : Rd Z :=
  a <- memcmp (p + 0) (lit "CNXN") 4 ;;
  if lnot a =? 0 then Ret 0
  else b <- memcmp (p + 24) (lit "host:") 5 ;;
       Ret (if lnot b =? 0 then 0 else 1).

Definition min_data_packet_size : Z := 30.

Definition empty_message : list byte :=
  [ x00; x00; x00; x00; x00; x00; x00; x00;
    x00; x00; x00; x00; x00; x00; x00; x00;
    x00; x00; x00; x00; xff; xff; xff; xff ].

Definition is_adb_protocol : T_PROBE := fun p len proto =>
  if to_unsigned_int len <? min_data_packet_size then Ret PROBE_AGAIN
  else
    r <- probe_adb_cnxn_message (p + 0) ;;
    if r =? PROBE_MATCH then Ret PROBE_MATCH
    else if to_size_t len
            <? to_size_t min_data_packet_size + strlen empty_message
    then Ret PROBE_AGAIN
    else
      c <- memcmp (p + 0) empty_message (length empty_message) ;;
      if negb (c =? 0) then Ret PROBE_NEXT
      else probe_adb_cnxn_message (p + strlen empty_message).

(** The loop [for (i = 0; i < m_count; i++)] with [todo] iterations left. *)
Fixpoint socks5_methods (p : ptr) (i : Z) (todo : nat) : Rd Z :=
  match todo with
  | O => Ret PROBE_MATCH
  | S k =>
      c <- load (p + (2 + i)) ;;
      if uchar c >? 9 then Ret PROBE_NEXT
      else socks5_methods p (i + 1) k
  end.

Definition is_socks5_protocol : T_PROBE := fun p_in len proto =>
  let p := p_in in
  if len <? 2 then Ret PROBE_AGAIN
  else
    c0 <- load (p + 0) ;;
    if negb (uchar c0 =? 5) then Ret PROBE_NEXT
    else
      c1 <- load (p + 1) ;;
      let m_count := to_char char_is_signed (uchar c1) in
      if (m_count <? 1) || (m_count >? 10) then Ret PROBE_NEXT
      else if len <? 2 + m_count then Ret PROBE_AGAIN
      else socks5_methods p 0 (Z.to_nat m_count).

(** The loop of [regex_probe] (built with ENABLE_REGEX): it leaves at
    the end of the array or at the first pattern [regexec] accepts. *)
Fixpoint regex_loop (p : ptr) (len : Z) (probe : list regex_t) : Rd Z :=
  match probe with
  | [] => Ret 0
  | re :: probe' =>
      r <- regexec re p 0 len ;;
      if negb (r =? 0) then regex_loop p len probe' else Ret 1
  end.

Definition regex_probe : T_PROBE := fun p len proto =>
  regex_loop p len (regex_list proto).

Definition builtins : list (string * T_PROBE) :=
  [ ("ssh"%string, is_ssh_protocol);
    ("openvpn"%string, is_openvpn_protocol);
    ("tinc"%string, is_tinc_protocol);
    ("xmpp"%string, is_xmpp_protocol);
    ("http"%string, is_http_protocol);
    ("tls"%string, is_tls_protocol);
    ("adb"%string, is_adb_protocol);
    ("socks5"%string, is_socks5_protocol);
    ("anyprot"%string, is_true) ].

(** [get_probe]: the probe of a description of [builtins], or of the
    two names resolved outside the table. *)
Fixpoint get_probe_from (table : list (string * T_PROBE)) (description : string)
  : option T_PROBE :=
  match table with
  | [] =>
      if String.eqb description "regex" then Some regex_probe
      else if String.eqb description "timeout" then Some is_true
      else None
  | (n, pr) :: table' =>
      if String.eqb n description then Some pr
      else get_probe_from table' description
  end.

Definition get_probe (description : string) : option T_PROBE :=
  get_probe_from builtins description.

(** *** Configuration *)

(** An entry of [cfg.protocols].  A probe is given [proto->data] where
    the C function is given [proto]: no probe looks at another field. *)
Record sslhcfg_protocols_item : Type := {
  name : string;
  probe : option T_PROBE;
  minlength_is_present : bool;
  minlength : Z;
  data : data_t
}.

Record sslhcfg_item : Type := {
  protocols : list sslhcfg_protocols_item;
  on_timeout : string;
  verbose : Z
}.

(** An entry without [minlength]. *)
Definition plain_entry (n : string) (pr : option T_PROBE) (d : data_t)
  : sslhcfg_protocols_item :=
  {| name := n; probe := pr; minlength_is_present := false; minlength := 0;
     data := d |}.

Definition protocols_len (cfg : sslhcfg_item) : Z :=
  Z.of_nat (length (protocols cfg)).

(** A pointer [&cfg.protocols[i]] is the index [i]; [item_at] is what it
    points to, when it points into the array. *)
Definition item_ptr := Z.

Definition item_at (cfg : sslhcfg_item) (i : item_ptr)
  : option sslhcfg_protocols_item :=
  if i <? 0 then None else nth_error (protocols cfg) (Z.to_nat i).

(** The loop of [timeout_protocol], at index [i] with the entries [rest]
    from [i] on still to visit. *)
Fixpoint timeout_loop (target : string) (i : Z)
    (rest : list sslhcfg_protocols_item) : option item_ptr :=
  match rest with
  | [] => None
  | e :: rest' =>
      if String.eqb (name e) target then Some i
      else timeout_loop target (i + 1) rest'
  end.

Definition timeout_protocol (cfg : sslhcfg_item) : item_ptr :=
  match timeout_loop (on_timeout cfg) 0 (protocols cfg) with
  | Some i => i
  | None => 0
  end.

(** *** The arbiter *)

(** What follows the loop of [probe_buffer]. *)
Definition after_loop (n : Z) (again : Z) : Z * option item_ptr :=
  if negb (again =? 0) then (PROBE_AGAIN, None)
  else (PROBE_MATCH, Some (n - 1)).

(** The loop of [probe_buffer] at index [i], the entries [rest] from [i]
    on still to visit, [n] being [cfg.protocols_len].  It yields the
    value returned with the final [*proto], and the indices of the
    entries whose probe has been called, in order (the diagnostics
    printed under [cfg.verbose] are left out). *)
Fixpoint probe_loop (m : memory) (buf : ptr) (len : Z) (n : Z) (i : Z)
    (rest : list sslhcfg_protocols_item) (again : Z)
  : (Z * option item_ptr) * list item_ptr :=
  match rest with
  | [] => (after_loop n again, [])
  | p :: rest' =>
      match probe p with
      | None => probe_loop m buf len n (i + 1) rest' again
      | Some pr =>
          if (i =? n - 1) && String.eqb (name p) "anyprot"
          then (after_loop n again, [])
          else if minlength_is_present p && (len <? minlength p)
          then probe_loop m buf len n (i + 1) rest' (again + 1)
          else
            let res := result m (pr buf len (data p)) in
            if res =? PROBE_MATCH then ((PROBE_MATCH, Some i), [i])
            else
              let again' := if res =? PROBE_AGAIN then again + 1 else again in
              let (out, called) := probe_loop m buf len n (i + 1) rest' again' in
              (out, i :: called)
      end
  end.

Definition probe_buffer (m : memory) (cfg : sslhcfg_item) (buf : ptr) (len : Z)
  : Z * option item_ptr :=
  fst (probe_loop m buf len (protocols_len cfg) 0 (protocols cfg) 0).

Definition probe_buffer_calls (m : memory) (cfg : sslhcfg_item) (buf : ptr)
    (len : Z) : list item_ptr :=
  snd (probe_loop m buf len (protocols_len cfg) 0 (protocols cfg) 0).

(** *** Reading from the client *)

(** The deferred data of [cnx->q[1]]. *)
Record queue : Type := {
  begin_deferred_data : ptr;
  deferred_data_size : Z
}.

Record connection : Type := {
  q1 : queue;
  proto : option item_ptr
}.

(** Modelled from the spec: [defer_write] of common.c, which is not among
    the sources.  It appends the [n] bytes of [buffer] to the deferred
    data of the queue, never overwriting what is already there. *)
Definition defer_write (m : memory) (q : queue) (buffer : list byte) (n : Z)
  : memory * queue :=
  let e := begin_deferred_data q + deferred_data_size q in
  (fun a => if (e <=? a) && (a <? e + n)
            then nth (Z.to_nat (a - e)) buffer x00 else m a,
   {| begin_deferred_data := begin_deferred_data q;
      deferred_data_size := deferred_data_size q + n |}).

(** [probe_client_protocol]: [n] is what [read] returned and [buffer]
    what it left in the local buffer. *)
Definition probe_client_protocol (m : memory) (cfg : sslhcfg_item)
    (cnx : connection) (n : Z) (buffer : list byte)
  : Z * (memory * connection) :=
  if n >? 0 then
    let (m', q') := defer_write m (q1 cnx) buffer n in
    let (r, pr) := probe_buffer m' cfg (begin_deferred_data q')
                     (deferred_data_size q') in
    (r, (m', {| q1 := q'; proto := pr |}))
  else
    (PROBE_MATCH,
     (m, {| q1 := q1 cnx; proto := Some (protocols_len cfg - 1) |})).

(** ** Probes on byte slices *)

(** The outcome of probe [P] on the byte slice [b], the slice being at
    address [p] of a memory that holds [beyond] around it. *)
Definition probe_on (P : T_PROBE) (b : list byte) (p : ptr) (beyond : memory)
    (d : data_t) : Z :=
  result (place b p beyond) (P p (slice_len b) d).

(** The addresses [P] reads on that occasion. *)
Definition reads_on (P : T_PROBE) (b : list byte) (p : ptr) (beyond : memory)
    (d : data_t) : list ptr :=
  reads (place b p beyond) (P p (slice_len b) d).

(** Acceptance by [P] is monotone under extension of the slice: a MATCH
    on a slice is a MATCH on every slice it is a prefix of. *)
Definition monotone (P : T_PROBE) : Prop :=
  forall (b' ext : list byte) (p p' : ptr) (beyond beyond' : memory)
         (d : data_t),
    slice_len (b' ++ ext) <= INT_MAX ->
    probe_on P b' p' beyond' d = PROBE_MATCH ->
    probe_on P (b' ++ ext) p beyond d = PROBE_MATCH.

(** [P] reads no byte outside the slice it is given. *)
Definition reads_inside (P : T_PROBE) : Prop :=
  forall (b : list byte) (p : ptr) (beyond : memory) (d : data_t),
    slice_len b <= INT_MAX ->
    Forall (in_slice p (slice_len b)) (reads_on P b p beyond d).

(** The outcome of [P] does not depend on what lies around the slice. *)
Definition outcome_local (P : T_PROBE) : Prop :=
  forall (b : list byte) (p : ptr) (beyond beyond' : memory) (d : data_t),
    slice_len b <= INT_MAX ->
    probe_on P b p beyond d = probe_on P b p beyond' d.

(** [P] asks for more bytes, without reading past the end, whenever its
    decision needs a byte the slice does not have: if [P], given the
    slice [b] followed by more bytes, reads a byte that comes after [b],
    then on [b] alone it answers AGAIN. *)
Definition waits_for_bytes (P : T_PROBE) : Prop :=
  forall (b ext : list byte) (p : ptr) (beyond beyond' : memory) (d : data_t)
         (a : ptr),
    slice_len (b ++ ext) <= INT_MAX ->
    In a (reads_on P (b ++ ext) p beyond d) ->
    p + slice_len b <= a ->
    probe_on P b p beyond' d = PROBE_AGAIN.

(** ** The recognisers as the specification words them *)

Definition ssh_spec (b : list byte) : Z :=
  if slice_len b <? 4 then PROBE_AGAIN
  else if starts_with (lit "SSH-") b then PROBE_MATCH else PROBE_NEXT.

Definition tinc_spec (b : list byte) : Z :=
  if slice_len b <? 2 then PROBE_AGAIN
  else if starts_with (lit "0 ") b then PROBE_MATCH else PROBE_NEXT.

Definition xmpp_spec (b : list byte) : Z :=
  if contains (lit "jabber") b then PROBE_MATCH
  else if slice_len b <? 50 then PROBE_AGAIN else PROBE_NEXT.

Definition openvpn_spec (b : list byte) : Z :=
  if slice_len b <? 2 then PROBE_AGAIN
  else
    let L := byte_at b 0 * 256 + byte_at b 1 in
    if L =? slice_len b - 2 then PROBE_MATCH else PROBE_NEXT.

Definition socks5_spec (b : list byte) : Z :=
  if slice_len b <? 2 then PROBE_AGAIN
  else if negb (byte_at b 0 =? 5) then PROBE_NEXT
  else
    let m := byte_at b 1 in
    if negb ((1 <=? m) && (m <=? 10)) then PROBE_NEXT
    else if slice_len b <? 2 + m then PROBE_AGAIN
    else if existsb (fun c => 9 <? uchar c) (firstn (Z.to_nat m) (skipn 2 b))
    then PROBE_NEXT
    else PROBE_MATCH.

(** The slice has [CNXN] at offset [off] and [host:] 24 bytes further. *)
Definition cnxn_host_at (off : nat) (b : list byte) : bool :=
  starts_with (lit "CNXN") (skipn off b)
  && starts_with (lit "host:") (skipn (off + 24) b).

(** Twenty zero bytes followed by four 0xFF bytes. *)
Definition empty_message_prefix : list byte := repeat x00 20 ++ repeat xff 4.

Definition adb_spec (b : list byte) : Z :=
  if slice_len b <? 30 then PROBE_AGAIN
  else if cnxn_host_at 0 b then PROBE_MATCH
  else if slice_len b <? 54 then PROBE_AGAIN
  else if negb (starts_with empty_message_prefix b) then PROBE_NEXT
  else if cnxn_host_at 24 b then PROBE_MATCH
  else PROBE_NEXT.

Definition http_methods : list string :=
  [ "OPTIONS"; "GET"; "HEAD"; "POST"; "PUT"; "DELETE"; "TRACE"; "CONNECT" ]%string.

(** AGAIN at the first method longer than the slice, MATCH at the first
    method the slice begins with, NEXT when the methods are exhausted. *)
Fixpoint first_method (b : list byte) (methods : list string) : Z :=
  match methods with
  | [] => PROBE_NEXT
  | M :: methods' =>
      if slice_len b <? strlen (lit M) then PROBE_AGAIN
      else if starts_with (lit M) b then PROBE_MATCH
      else first_method b methods'
  end.

Definition http_spec (b : list byte) : Z :=
  if contains (lit "HTTP") b then PROBE_MATCH
  else first_method b http_methods.

(** Among the [methods] in order, the first the slice does not begin
    with is longer than the slice: the guard of [probe_http_method]
    (probe.c:178) at the method the macro has come to. *)
Fixpoint method_awaited (b : list byte) (methods : list string) : bool :=
  match methods with
  | [] => false
  | M :: methods' =>
      (slice_len b <? strlen (lit M))
      || (negb (starts_with (lit M) b) && method_awaited b methods')
  end.

(** The slices on which a probe of probe.c returns PROBE_AGAIN: every
    length guard of the source, with what leads the code to it.
    [is_ssh_protocol] probe.c:119, [is_openvpn_protocol] :139,
    [is_tinc_protocol] :152, [is_xmpp_protocol] :170 (behind the search
    for [jabber]), [probe_http_method] :178 (behind the search for
    [HTTP]), [is_adb_protocol] :243 and :261 (behind the first look for
    a CNXN message), [is_socks5_protocol] :275 and :290 (behind the
    checks of the version and of the method count).  [is_true] and
    [regex_probe] have no such guard.  [is_tls_protocol] returns
    PROBE_AGAIN at :216, for TLS_ELENGTH of the parser: the guards are
    those of the parser. *)
Definition awaits (pname : string) (b : list byte) : bool :=
  if String.eqb pname "ssh" then slice_len b <? 4
  else if String.eqb pname "openvpn" then slice_len b <? 2
  else if String.eqb pname "tinc" then slice_len b <? 2
  else if String.eqb pname "xmpp" then
    negb (contains (lit "jabber") b) && (slice_len b <? 50)
  else if String.eqb pname "http" then
    negb (contains (lit "HTTP") b) && method_awaited b http_methods
  else if String.eqb pname "adb" then
    (slice_len b <? 30) || (negb (cnxn_host_at 0 b) && (slice_len b <? 54))
  else if String.eqb pname "socks5" then
    (slice_len b <? 2)
    || ((byte_at b 0 =? 5)
        && (1 <=? byte_at b 1) && (byte_at b 1 <=? 10)
        && (slice_len b <? 2 + byte_at b 1))
  else false.

(** What the HTTP probe answers on a slice that differs from the
    method [M] in letter case only: the seven-letter methods are told
    apart from it, the shorter ones wait behind OPTIONS. *)
Definition wrong_case_outcome (M : string) : Z :=
  if strlen (lit M) =? 7 then PROBE_NEXT else PROBE_AGAIN.

(** The check of [wrong_case_outcome] on every spelling of every method. *)
Definition wrong_case_checked : bool :=
  forallb
    (fun M =>
       forallb
         (fun b => bytes_eqb b (lit M) || (http_spec b =? wrong_case_outcome M))
         (case_variants (lit M)))
    http_methods.

(** ** The arbiter as the specification words it *)

Fixpoint numbered_from (i : Z) (l : list sslhcfg_protocols_item)
  : list (item_ptr * sslhcfg_protocols_item) :=
  match l with
  | [] => []
  | e :: l' => (i, e) :: numbered_from (i + 1) l'
  end.

Definition has_probe (ie : item_ptr * sslhcfg_protocols_item) : bool :=
  match probe (snd ie) with Some _ => true | None => false end.

Definition named_anyprot (ie : item_ptr * sslhcfg_protocols_item) : bool :=
  String.eqb (name (snd ie)) "anyprot".

(** The entries the arbiter considers: all of them in configured order,
    short of the last one when it is named [anyprot], and only those that
    have a probe. *)
Definition short_of_anyprot (all : list (item_ptr * sslhcfg_protocols_item))
  : list (item_ptr * sslhcfg_protocols_item) :=
  match rev all with
  | final :: _ => if named_anyprot final then removelast all else all
  | [] => all
  end.

Definition scanned (cfg : sslhcfg_item)
  : list (item_ptr * sslhcfg_protocols_item) :=
  filter has_probe (short_of_anyprot (numbered_from 0 (protocols cfg))).

Definition too_short (len : Z) (ie : item_ptr * sslhcfg_protocols_item) : bool :=
  minlength_is_present (snd ie) && (len <? minlength (snd ie)).

(** What an entry contributes: AGAIN, without a call of its probe, when
    the buffer is shorter than its [minlength]; else what its probe
    returns. *)
Definition contribution (m : memory) (buf : ptr) (len : Z)
    (ie : item_ptr * sslhcfg_protocols_item) : Z :=
  if too_short len ie then PROBE_AGAIN
  else
    match probe (snd ie) with
    | Some pr => result m (pr buf len (data (snd ie)))
    | None => PROBE_NEXT
    end.

Definition arbiter_spec (m : memory) (cfg : sslhcfg_item) (buf : ptr) (len : Z)
  : Z * option item_ptr :=
  let chain := scanned cfg in
  match find (fun ie => contribution m buf len ie =? PROBE_MATCH) chain with
  | Some (i, _) => (PROBE_MATCH, Some i)
  | None =>
      if existsb (fun ie => contribution m buf len ie =? PROBE_AGAIN) chain
      then (PROBE_AGAIN, None)
      else (PROBE_MATCH, Some (protocols_len cfg - 1))
  end.

(** The verdict on a chain when [again] entries have asked for more
    bytes before it. *)
Definition verdict (m : memory) (buf : ptr) (len : Z) (n : Z) (again : Z)
    (chain : list (item_ptr * sslhcfg_protocols_item)) : Z * option item_ptr :=
  match find (fun ie => contribution m buf len ie =? PROBE_MATCH) chain with
  | Some (i, _) => (PROBE_MATCH, Some i)
  | None =>
      if negb (again =? 0)
         || existsb (fun ie => contribution m buf len ie =? PROBE_AGAIN) chain
      then (PROBE_AGAIN, None)
      else (PROBE_MATCH, Some (n - 1))
  end.

(** The entries of a chain up to and including the first that matches. *)
Fixpoint upto_match (m : memory) (buf : ptr) (len : Z)
    (chain : list (item_ptr * sslhcfg_protocols_item))
  : list (item_ptr * sslhcfg_protocols_item) :=
  match chain with
  | [] => []
  | ie :: chain' =>
      if contribution m buf len ie =? PROBE_MATCH then [ie]
      else ie :: upto_match m buf len chain'
  end.

(** The probes the arbiter calls: those of the entries up to the first
    match, the entries the buffer is too short for excepted. *)
Definition calls_of (m : memory) (buf : ptr) (len : Z)
    (chain : list (item_ptr * sslhcfg_protocols_item)) : list item_ptr :=
  map fst (filter (fun ie => negb (too_short len ie))
             (upto_match m buf len chain)).

Definition calls_spec (m : memory) (cfg : sslhcfg_item) (buf : ptr) (len : Z)
  : list item_ptr :=
  calls_of m buf len (scanned cfg).

(** ** Further notions for the properties of probe.c *)

(** The three values a probe may return. *)
Definition probe_outcome (r : Z) : Prop :=
  r = PROBE_NEXT \/ r = PROBE_MATCH \/ r = PROBE_AGAIN.

(** The patterns [regex_probe] runs: those up to and including the first
    one [accepts] holds of. *)
Fixpoint tried {A : Type} (accepts : A -> bool) (l : list A) : list A :=
  match l with
  | [] => []
  | x :: l' => if accepts x then [x] else x :: tried accepts l'
  end.

(** For each recogniser of probe.c, a length from which it no longer
    answers AGAIN. *)
Definition decided_by : list (string * Z) :=
  [ ("ssh", 4); ("openvpn", 2); ("tinc", 2); ("xmpp", 50); ("http", 7);
    ("adb", 54); ("socks5", 12); ("anyprot", 0) ]%string.

(** A verdict of [P] other than AGAIN is final: more bytes do not change
    it. *)
Definition final_verdict (P : T_PROBE) : Prop :=
  forall (b ext : list byte) (p p' : ptr) (beyond beyond' : memory)
         (d : data_t),
    slice_len (b ++ ext) <= INT_MAX ->
    probe_on P b p' beyond' d <> PROBE_AGAIN ->
    probe_on P (b ++ ext) p beyond d = probe_on P b p' beyond' d.

(** ** hexdump *)

Definition HEXDUMP_COLS : Z := 16.

Definition hex_digit (d : Z) : byte :=
  nth (Z.to_nat d) (lit "0123456789abcdef") x00.

(** The digits of [v] in base 16, the most significant first, [fuel]
    bounding their number. *)
Fixpoint hex_digits (fuel : nat) (v : Z) : list byte :=
  match fuel with
  | O => []
  | S k =>
      (if v <? 16 then [] else hex_digits k (v / 16)) ++ [hex_digit (v mod 16)]
  end.

(** What [fprintf] writes for the conversion [%0<width>x] of an
    [unsigned int], which has eight hexadecimal digits at most. *)
Definition printf_0x (width : nat) (v : Z) : list byte :=
  let ds := hex_digits 8 v in
  repeat x30 (width - length ds) ++ ds.

(** One turn of the inner loop of [hexdump]: the character written for
    position [j]. *)
Definition hexdump_char (isprint : Z -> bool) (mem : ptr) (len : Z) (j : Z)
  : Rd (list byte) :=
  if j >=? len then Ret [x20]
  else
    c <- load (mem + j) ;;
    if isprint (to_char char_is_signed (uchar c)) then
      c' <- load (mem + j) ;;
      Ret [byte_of (Z.land 255 (to_char char_is_signed (uchar c')))]
    else Ret [x2e].

(** The inner loop [for (j = ...; j <= i; j++)] with [todo] turns left. *)
Fixpoint hexdump_text (isprint : Z -> bool) (mem : ptr) (len : Z) (j : Z)
    (todo : nat) : Rd (list byte) :=
  match todo with
  | O => Ret []
  | S k =>
      a <- hexdump_char isprint mem len j ;;
      r <- hexdump_text isprint mem len (j + 1) k ;;
      Ret (a ++ r)
  end.

(** The outer loop of [hexdump] at [i] with [todo] turns left; it yields
    what is written to stderr. *)
Fixpoint hexdump_loop (isprint : Z -> bool) (mem : ptr) (len : Z) (i : Z)
    (todo : nat) : Rd (list byte) :=
  match todo with
  | O => Ret []
  | S k =>
      let offset :=
        if i mod HEXDUMP_COLS =? 0
        then lit "0x" ++ printf_0x 6 i ++ lit ": " else [] in
      hx <- (if i <? len then
               c <- load (mem + i) ;;
               Ret (printf_0x 2 (Z.land 255 (to_char char_is_signed (uchar c)))
                    ++ lit " ")
             else Ret (lit "   ")) ;;
      tx <- (if i mod HEXDUMP_COLS =? HEXDUMP_COLS - 1 then
               t <- hexdump_text isprint mem len (i - (HEXDUMP_COLS - 1))
                      (Z.to_nat HEXDUMP_COLS) ;;
               Ret (t ++ [x0a])
             else Ret []) ;;
      rest <- hexdump_loop isprint mem len (i + 1) k ;;
      Ret (offset ++ hx ++ tx ++ rest)
  end.

(** [hexdump(mem, len)], [len] being an [unsigned int]: the bound of the
    loop is [len] rounded up to a multiple of 16, in 32 bits.  [isprint]
    is the function of ctype.h, on the value of a [char]. *)
Definition hexdump (isprint : Z -> bool) (mem : ptr) (len : Z)
  : Rd (list byte) :=
  let bound :=
    to_unsigned_int
      (len + (if negb (len mod HEXDUMP_COLS =? 0)
              then HEXDUMP_COLS - len mod HEXDUMP_COLS else 0)) in
  hexdump_loop isprint mem len 0 (Z.to_nat bound).

(** *** The layout of a dump *)

(** [n] consecutive numbers from [j]. *)
Fixpoint count_from (j : Z) (n : nat) : list Z :=
  match n with
  | O => []
  | S k => j :: count_from (j + 1) k
  end.

(** The cell of position [i] in the hexadecimal column. *)
Definition hex_cell (m : memory) (mem : ptr) (len : Z) (i : Z) : list byte :=
  if i <? len then printf_0x 2 (uchar (m (mem + i))) ++ [x20]
  else [x20; x20; x20].

(** The cell of position [j] in the text column. *)
Definition text_cell (isprint : Z -> bool) (m : memory) (mem : ptr) (len : Z)
    (j : Z) : list byte :=
  if j <? len then
    if isprint (to_char char_is_signed (uchar (m (mem + j))))
    then [m (mem + j)] else [x2e]
  else [x20].

(** Row [r] of a dump: the offset, sixteen hexadecimal cells, sixteen
    text cells and a newline. *)
Definition dump_row (isprint : Z -> bool) (m : memory) (mem : ptr) (len : Z)
    (r : Z) : list byte :=
  lit "0x" ++ printf_0x 6 (16 * r) ++ lit ": "
  ++ concat (map (hex_cell m mem len) (count_from (16 * r) 16))
  ++ concat (map (text_cell isprint m mem len) (count_from (16 * r) 16))
  ++ [x0a].

(** * Properties *)

(** ** The read monad *)

Lemma run_bind {A B : Type} (m : memory) (t : Rd A) (f : A -> Rd B) :
  run m (bind t f)
  = (result m (f (result m t)), reads m t ++ reads m (f (result m t))).
Proof.
  unfold result, reads.
  induction t as [a | i k IH]; simpl.
  - now destruct (run m (f a)).
  - rewrite IH. now destruct (run m (k (m i))).
Qed.

Lemma result_bind {A B : Type} (m : memory) (t : Rd A) (f : A -> Rd B) :
  result m (bind t f) = result m (f (result m t)).
Proof. unfold result at 1. now rewrite run_bind. Qed.

Lemma reads_bind {A B : Type} (m : memory) (t : Rd A) (f : A -> Rd B) :
  reads m (bind t f) = reads m t ++ reads m (f (result m t)).
Proof. unfold reads at 1. now rewrite run_bind. Qed.

Lemma result_ret {A : Type} (m : memory) (a : A) : result m (Ret a) = a.
Proof. reflexivity. Qed.

Lemma reads_ret {A : Type} (m : memory) (a : A) : reads m (Ret a) = [].
Proof. reflexivity. Qed.

Lemma result_load (m : memory) (p : ptr) : result m (load p) = m p.
Proof. reflexivity. Qed.

Lemma reads_load (m : memory) (p : ptr) : reads m (load p) = [p].
Proof. reflexivity. Qed.

(** A computation sees the memory only through the addresses it reads. *)
Lemma run_agree {A : Type} (t : Rd A) (m m' : memory) :
  (forall a, In a (reads m t) -> m a = m' a) -> run m t = run m' t.
Proof.
  induction t as [a | i k IH]; simpl; intros Hag.
  - reflexivity.
  - unfold reads in Hag. simpl in Hag.
    destruct (run m (k (m i))) as [r tr] eqn:E. simpl in Hag.
    assert (Hi : m i = m' i) by (apply Hag; now left).
    rewrite <- Hi, <- (IH (m i)), E; [reflexivity |].
    intros a Ha. apply Hag. right. unfold reads in Ha. now rewrite E in Ha.
Qed.

Create Rewrite HintDb rd.
#[local] Hint Rewrite @result_bind @reads_bind @result_ret @reads_ret
  result_load reads_load : rd.

(** ** Bytes *)

Lemma uchar_range (c : byte) : 0 <= uchar c <= 255.
Proof.
  unfold uchar. pose proof (Byte.to_N_bounded c). lia.
Qed.

Lemma uchar_inj (c d : byte) : uchar c = uchar d -> c = d.
Proof.
  unfold uchar. intros H. apply N2Z.inj in H.
  pose proof (Byte.of_to_N c) as Hc. rewrite H, Byte.of_to_N in Hc.
  congruence.
Qed.

Lemma byte_eqb_refl (c : byte) : Byte.eqb c c = true.
Proof. now apply Byte.byte_dec_lb. Qed.

Lemma byte_eqb_eq (c d : byte) : Byte.eqb c d = true <-> c = d.
Proof. split; [apply Byte.byte_dec_bl | apply Byte.byte_dec_lb]. Qed.

Lemma byte_eqb_neq (c d : byte) : Byte.eqb c d = false <-> c <> d.
Proof.
  split; [apply Byte.eqb_false |].
  intros H. destruct (Byte.eqb c d) eqn:E; [| reflexivity].
  now apply byte_eqb_eq in E.
Qed.

Lemma uchar_diff (c d : byte) : Byte.eqb c d = false -> uchar c - uchar d <> 0.
Proof.
  intros H%byte_eqb_neq E. apply H, uchar_inj. lia.
Qed.

Lemma bytes_n_length (m : memory) (n : nat) (p : ptr) :
  length (bytes_n m p n) = n.
Proof. revert p. induction n; simpl; intros; [| rewrite IHn]; reflexivity. Qed.

Lemma bytes_length (m : memory) (p : ptr) (len : Z) :
  0 <= len -> slice_len (bytes m p len) = len.
Proof. intros. unfold slice_len, bytes. rewrite bytes_n_length. lia. Qed.

Lemma nth_bytes_n (m : memory) (n i : nat) (p : ptr) :
  (i < n)%nat -> nth i (bytes_n m p n) x00 = m (p + Z.of_nat i).
Proof.
  revert p i. induction n; intros p i Hi; [lia |].
  destruct i; simpl.
  - f_equal. lia.
  - rewrite IHn by lia. f_equal. lia.
Qed.

Lemma skipn_bytes_n (m : memory) (k n : nat) (p : ptr) :
  skipn k (bytes_n m p n) = bytes_n m (p + Z.of_nat k) (n - k).
Proof.
  revert p n. induction k; intros p n.
  - simpl. rewrite Nat.sub_0_r. f_equal. lia.
  - destruct n; [reflexivity |].
    cbn [bytes_n skipn]. rewrite IHk. simpl. f_equal. lia.
Qed.

Lemma firstn_bytes_n (m : memory) (k n : nat) (p : ptr) :
  (k <= n)%nat -> firstn k (bytes_n m p n) = bytes_n m p k.
Proof.
  revert p n. induction k; intros p n Hk; [reflexivity |].
  destruct n; [lia |]. simpl. rewrite IHk by lia. reflexivity.
Qed.

(** Every byte slice is the slice found at [p] in some memory. *)
Lemma bytes_place (b : list byte) (p : ptr) (beyond : memory) :
  bytes (place b p beyond) p (slice_len b) = b.
Proof.
  unfold bytes, slice_len. rewrite Nat2Z.id.
  apply nth_ext with (d := x00) (d' := x00).
  - apply bytes_n_length.
  - intros i Hi. rewrite bytes_n_length in Hi.
    rewrite nth_bytes_n by assumption. unfold place.
    replace (p + Z.of_nat i - p) with (Z.of_nat i) by lia.
    rewrite Nat2Z.id.
    destruct (p <=? p + Z.of_nat i) eqn:E1; [| lia].
    destruct (p + Z.of_nat i <? p + Z.of_nat (length b)) eqn:E2; [| lia].
    reflexivity.
Qed.

Lemma starts_with_short (s b : list byte) :
  (length b < length s)%nat -> starts_with s b = false.
Proof.
  revert b. induction s as [| c s IH]; intros b H; simpl in *; [lia |].
  destruct b as [| d b]; [reflexivity |].
  simpl in H. rewrite IH by lia. apply andb_false_r.
Qed.

Lemma contains_short (s b : list byte) :
  (length b < length s)%nat -> contains s b = false.
Proof.
  induction b as [| d b IH]; intros H; simpl.
  - rewrite starts_with_short by assumption. reflexivity.
  - rewrite starts_with_short by assumption.
    simpl in H. rewrite IH by lia. reflexivity.
Qed.

Lemma starts_with_iff (s b : list byte) :
  starts_with s b = true <-> exists rest, b = s ++ rest.
Proof.
  revert b. induction s as [| c s IH]; intros b; simpl.
  - split; [exists b; reflexivity | reflexivity].
  - destruct b as [| d b].
    + split; [discriminate | intros [r Hr]; discriminate].
    + rewrite andb_true_iff, byte_eqb_eq, IH. split.
      * intros [-> [r ->]]. now exists r.
      * intros [r Hr]. injection Hr as -> ->. split; [reflexivity | now exists r].
Qed.

Lemma contains_iff (s b : list byte) :
  contains s b = true <-> exists before rest, b = before ++ s ++ rest.
Proof.
  induction b as [| d b IH]; simpl.
  - rewrite orb_false_r, starts_with_iff. split.
    + intros [r Hr]. now exists [], r.
    + intros [bf [r Hr]]. destruct bf; [now exists r |]. discriminate.
  - rewrite orb_true_iff, starts_with_iff, IH. split.
    + intros [[r Hr] | [bf [r Hr]]].
      * now exists [], r.
      * exists (d :: bf), r. now rewrite Hr.
    + intros [bf [r Hr]]. destruct bf as [| x bf].
      * left. now exists r.
      * right. injection Hr as -> ->. now exists bf, r.
Qed.

(** ** The C library functions *)

Lemma in_slice_widen (p p' : ptr) (len len' : Z) (l : list ptr) :
  p <= p' -> p' + len' <= p + len ->
  Forall (in_slice p' len') l -> Forall (in_slice p len) l.
Proof.
  intros H1 H2. apply Forall_impl. unfold in_slice. intros a Ha. lia.
Qed.

Lemma strncmp_reads (m : memory) (n : nat) (s : list byte) (p : ptr) :
  Forall (in_slice p (Z.of_nat n)) (reads m (strncmp p s n)).
Proof.
  revert s p. induction n as [| n IH]; intros s p.
  - constructor.
  - cbn [strncmp]. autorewrite with rd. constructor.
    + unfold in_slice. lia.
    + destruct (negb (Byte.eqb (m p) (hd x00 s))); [constructor |].
      destruct (Byte.eqb (m p) x00); [constructor |].
      eapply in_slice_widen; [| | apply IH]; lia.
Qed.

(** On a literal, [strncmp] over the length of the literal is 0 exactly
    when the bytes at [p] are those of the literal. *)
Lemma strncmp_result (m : memory) (s : list byte) (n : nat) (p : ptr) :
  no_nul s = true -> (length s <= n)%nat ->
  (result m (strncmp p s (length s)) =? 0) = starts_with s (bytes_n m p n).
Proof.
  revert n p. induction s as [| c s IH]; intros n p Hs Hn.
  - reflexivity.
  - destruct n as [| n]; [simpl in Hn; lia |].
    simpl in Hs. apply andb_true_iff in Hs as [Hc Hs].
    cbn [strncmp length bytes_n starts_with hd tl]. autorewrite with rd.
    destruct (Byte.eqb (m p) c) eqn:E; cbn [negb andb].
    + apply byte_eqb_eq in E. rewrite E.
      apply negb_true_iff in Hc. rewrite Hc.
      apply IH; [assumption | simpl in Hn; lia].
    + autorewrite with rd. apply Z.eqb_neq. now apply uchar_diff.
Qed.

Lemma memcmp_reads (m : memory) (n : nat) (s : list byte) (p : ptr) :
  Forall (in_slice p (Z.of_nat n)) (reads m (memcmp p s n)).
Proof.
  revert s p. induction n as [| n IH]; intros s p.
  - constructor.
  - cbn [memcmp]. autorewrite with rd. rewrite app_nil_r. constructor.
    + unfold in_slice. lia.
    + eapply in_slice_widen; [| | apply IH]; lia.
Qed.

Lemma memcmp_result (m : memory) (s : list byte) (n : nat) (p : ptr) :
  (length s <= n)%nat ->
  (result m (memcmp p s (length s)) =? 0) = starts_with s (bytes_n m p n).
Proof.
  revert n p. induction s as [| c s IH]; intros n p Hn.
  - reflexivity.
  - destruct n as [| n]; [simpl in Hn; lia |].
    cbn [memcmp length bytes_n starts_with hd tl]. autorewrite with rd.
    destruct (Byte.eqb (m p) c) eqn:E; cbn [andb].
    + apply IH. simpl in Hn. lia.
    + apply Z.eqb_neq. now apply uchar_diff.
Qed.

Lemma memmem_from_reads (m : memory) (needle : list byte) (k : nat) (p : ptr) :
  (1 <= length needle)%nat ->
  Forall (in_slice p (Z.of_nat (length needle + k - 1)))
    (reads m (memmem_from p k needle)).
Proof.
  intros Hn. revert p. induction k as [| k IH]; intros p.
  - constructor.
  - cbn [memmem_from]. autorewrite with rd. apply Forall_app. split.
    + eapply in_slice_widen; [| | apply memcmp_reads]; lia.
    + destruct (result m (memcmp p needle (length needle)) =? 0);
        [constructor |].
      eapply in_slice_widen; [| | apply IH]; lia.
Qed.

Lemma memmem_from_result (m : memory) (needle : list byte) (k : nat) (p : ptr) :
  (1 <= length needle)%nat ->
  found (result m (memmem_from p k needle))
  = contains needle (bytes_n m p (length needle + k - 1)).
Proof.
  intros Hn. revert p. induction k as [| k IH]; intros p.
  - simpl. symmetry. apply contains_short. rewrite bytes_n_length. lia.
  - cbn [memmem_from]. autorewrite with rd.
    rewrite (memcmp_result m needle (length needle + S k - 1)) by lia.
    replace (length needle + S k - 1)%nat
      with (S (length needle + k - 1)) by lia.
    cbn [bytes_n contains].
    destruct (starts_with needle _); [reflexivity |].
    cbn [orb]. apply IH.
Qed.

Lemma memmem_reads (m : memory) (needle : list byte) (hlen : Z) (p : ptr) :
  0 <= hlen -> (1 <= length needle)%nat ->
  Forall (in_slice p hlen) (reads m (memmem p hlen needle)).
Proof.
  intros H Hn. unfold memmem, strlen.
  destruct (hlen <? Z.of_nat (length needle)) eqn:E; [constructor |].
  apply Z.ltb_ge in E.
  eapply in_slice_widen; [| | apply memmem_from_reads; assumption]; lia.
Qed.

Lemma memmem_result (m : memory) (needle : list byte) (hlen : Z) (p : ptr) :
  0 <= hlen -> (1 <= length needle)%nat ->
  found (result m (memmem p hlen needle)) = contains needle (bytes m p hlen).
Proof.
  intros H Hn. unfold memmem, strlen, bytes.
  destruct (hlen <? Z.of_nat (length needle)) eqn:E.
  - apply Z.ltb_lt in E. symmetry. apply contains_short.
    rewrite bytes_n_length. lia.
  - apply Z.ltb_ge in E. rewrite memmem_from_result by assumption.
    do 2 f_equal. lia.
Qed.

(** ** Machine integers *)

Lemma to_size_t_int (len : Z) : 0 <= len <= INT_MAX -> to_size_t len = len.
Proof.
  unfold to_size_t, INT_MAX. intros H. apply Z.mod_small. lia.
Qed.

Lemma to_unsigned_int_int (len : Z) :
  0 <= len <= INT_MAX -> to_unsigned_int len = len.
Proof.
  unfold to_unsigned_int, INT_MAX. intros H. apply Z.mod_small. lia.
Qed.

Lemma lor_bytes (hi lo : Z) :
  0 <= lo < 256 -> Z.lor (Z.shiftl hi 8) lo = hi * 256 + lo.
Proof.
  intros Hlo.
  assert (Hdisj : Z.land (Z.shiftl hi 8) lo = 0).
  { apply Z.bits_inj'. intros n Hn.
    rewrite Z.land_spec, Z.bits_0.
    destruct (Z.ltb_spec n 8) as [Hlt | Hge].
    - now rewrite Z.shiftl_spec_low.
    - destruct (Z.eq_dec lo 0) as [-> | Hnz].
      + rewrite Z.bits_0. apply andb_false_r.
      + rewrite (Z.bits_above_log2 lo n); [apply andb_false_r | lia |].
        assert (Z.log2 lo < 8) by (apply Z.log2_lt_pow2; lia). lia. }
  pose proof (Z.add_lor_land (Z.shiftl hi 8) lo) as Hadd.
  rewrite Hdisj in Hadd. rewrite Z.shiftl_mul_pow2 in Hadd |- * by lia.
  change (2 ^ 8) with 256 in Hadd |- *. lia.
Qed.

(** Whatever the byte order of the host, [ntohs] of the two bytes read
    in host order is their big-endian value. *)
Lemma ntohs_load_uint16 (m : memory) (p : ptr) :
  ntohs (result m (load_uint16 p)) = uchar (m p) * 256 + uchar (m (p + 1)).
Proof.
  unfold ntohs, load_uint16. autorewrite with rd.
  pose proof (uchar_range (m p)) as H0.
  pose proof (uchar_range (m (p + 1))) as H1.
  destruct host_big_endian; [reflexivity |].
  change 255 with (Z.ones 8). rewrite Z.land_ones by lia.
  rewrite Z.shiftr_div_pow2 by lia. change (2 ^ 8) with 256.
  rewrite Z.mod_add, Z.div_add by lia.
  rewrite Z.mod_small, Z.div_small by lia.
  rewrite lor_bytes by lia. lia.
Qed.

(** ** OpenVPN *)

Lemma is_openvpn_protocol_result (m : memory) (p : ptr) (len : Z) (d : data_t) :
  result m (is_openvpn_protocol p len d) = openvpn_spec (bytes m p len).
Proof.
  unfold is_openvpn_protocol, openvpn_spec, slice_len, bytes.
  rewrite bytes_n_length.
  destruct (Z.ltb_spec len 2) as [Hlt | Hge].
  - destruct (Z.ltb_spec (Z.of_nat (Z.to_nat len)) 2); [reflexivity | lia].
  - destruct (Z.ltb_spec (Z.of_nat (Z.to_nat len)) 2); [lia |].
    rewrite Z2Nat.id by lia.
    rewrite result_bind, result_ret, ntohs_load_uint16.
    unfold byte_at. rewrite !nth_bytes_n by lia.
    replace (p + Z.of_nat 0) with p by lia.
    replace (p + Z.of_nat 1) with (p + 1) by lia.
    reflexivity.
Qed.

Lemma is_openvpn_protocol_reads (m : memory) (p : ptr) (len : Z) (d : data_t) :
  Forall (in_slice p len) (reads m (is_openvpn_protocol p len d)).
Proof.
  unfold is_openvpn_protocol, load_uint16.
  destruct (Z.ltb_spec len 2); autorewrite with rd; [constructor |].
  repeat constructor; unfold in_slice; lia.
Qed.

(** C4.  On every byte slice the OpenVPN probe answers AGAIN when the
    slice has fewer than two bytes; otherwise, L being the first two
    bytes read as a big-endian unsigned 16-bit number, it answers MATCH
    when L is the length of the slice minus two and NEXT when it is not.
    This holds whatever the byte order of the host. *)
Theorem openvpn_probe_outcome (b : list byte) (p : ptr) (beyond : memory)
    (d : data_t) :
  probe_on is_openvpn_protocol b p beyond d
  = if slice_len b <? 2 then PROBE_AGAIN
    else if byte_at b 0 * 256 + byte_at b 1 =? slice_len b - 2
         then PROBE_MATCH
         else PROBE_NEXT.
Proof.
  unfold probe_on. rewrite is_openvpn_protocol_result, bytes_place.
  reflexivity.
Qed.

(** ** SOCKS5 *)

Lemma socks5_methods_result (m : memory) (p : ptr) (k : nat) (i : Z) :
  result m (socks5_methods p i k)
  = if existsb (fun c => 9 <? uchar c) (bytes_n m (p + (2 + i)) k)
    then PROBE_NEXT else PROBE_MATCH.
Proof.
  revert i. induction k as [| k IH]; intros i; [reflexivity |].
  cbn [socks5_methods bytes_n existsb]. autorewrite with rd.
  rewrite Z.gtb_ltb.
  destruct (9 <? uchar (m (p + (2 + i)))); [reflexivity |].
  cbn [orb]. rewrite IH.
  replace (p + (2 + (i + 1))) with (p + (2 + i) + 1) by lia. reflexivity.
Qed.

Lemma socks5_methods_reads (m : memory) (p : ptr) (k : nat) (i : Z) :
  Forall (in_slice (p + (2 + i)) (Z.of_nat k)) (reads m (socks5_methods p i k)).
Proof.
  revert i. induction k as [| k IH]; intros i; [constructor |].
  cbn [socks5_methods]. autorewrite with rd. constructor.
  - unfold in_slice. lia.
  - destruct (uchar (m (p + (2 + i))) >? 9); [constructor |].
    eapply in_slice_widen; [| | apply IH]; lia.
Qed.

Lemma to_char_small (z : Z) : 0 <= z <= 127 -> to_char char_is_signed z = z.
Proof.
  intros H. unfold to_char. destruct char_is_signed; [| reflexivity].
  destruct (Z.ltb_spec z 128); [reflexivity | lia].
Qed.

(** A byte above 127 is no method count in 1..10, signed or not. *)
Lemma to_char_large (z : Z) :
  128 <= z <= 255 ->
  (to_char char_is_signed z <? 1) || (to_char char_is_signed z >? 10) = true.
Proof.
  intros H. unfold to_char. destruct char_is_signed.
  - destruct (Z.ltb_spec z 128); [lia |].
    destruct (Z.ltb_spec (z - 256) 1); [reflexivity | lia].
  - rewrite Z.gtb_ltb. destruct (Z.ltb_spec 10 z); [| lia]. apply orb_true_r.
Qed.

Lemma is_socks5_protocol_result (m : memory) (p : ptr) (len : Z) (d : data_t) :
  result m (is_socks5_protocol p len d) = socks5_spec (bytes m p len).
Proof.
  unfold is_socks5_protocol, socks5_spec, slice_len, bytes.
  rewrite bytes_n_length.
  destruct (Z.ltb_spec len 2) as [Hlt | Hge].
  - destruct (Z.ltb_spec (Z.of_nat (Z.to_nat len)) 2); [reflexivity | lia].
  - destruct (Z.ltb_spec (Z.of_nat (Z.to_nat len)) 2); [lia |].
    rewrite Z2Nat.id by lia. unfold byte_at.
    rewrite !nth_bytes_n by lia.
    replace (p + Z.of_nat 0) with (p + 0) by lia.
    replace (p + Z.of_nat 1) with (p + 1) by lia.
    autorewrite with rd.
    destruct (uchar (m (p + 0)) =? 5); cbn [negb]; [| reflexivity].
    autorewrite with rd.
    pose proof (uchar_range (m (p + 1))) as Hr.
    set (c1 := uchar (m (p + 1))) in *.
    destruct (Z.le_gt_cases c1 127) as [Hsmall | Hlarge].
    + rewrite to_char_small by lia. rewrite Z.gtb_ltb.
      destruct (Z.ltb_spec c1 1); destruct (Z.leb_spec 1 c1); try lia;
        cbn [orb andb negb]; [reflexivity |].
      destruct (Z.ltb_spec 10 c1); destruct (Z.leb_spec c1 10); try lia;
        cbn [negb]; [reflexivity |].
      destruct (len <? 2 + c1) eqn:E; [reflexivity |].
      apply Z.ltb_ge in E.
      rewrite socks5_methods_result, skipn_bytes_n, firstn_bytes_n by lia.
      replace (p + (2 + 0)) with (p + Z.of_nat 2) by lia. reflexivity.
    + rewrite to_char_large by lia.
      destruct (Z.leb_spec c1 10); [lia |].
      now rewrite andb_false_r.
Qed.

Lemma is_socks5_protocol_reads (m : memory) (p : ptr) (len : Z) (d : data_t) :
  Forall (in_slice p len) (reads m (is_socks5_protocol p len d)).
Proof.
  unfold is_socks5_protocol.
  destruct (Z.ltb_spec len 2); autorewrite with rd; [constructor |].
  constructor; [unfold in_slice; lia |].
  destruct (negb (uchar (m (p + 0)) =? 5)); autorewrite with rd;
    [constructor |].
  constructor; [unfold in_slice; lia |].
  pose proof (uchar_range (m (p + 1))) as Hr.
  set (mc := to_char char_is_signed (uchar (m (p + 1)))).
  destruct (Z.ltb_spec mc 1); cbn [orb]; [constructor |].
  rewrite Z.gtb_ltb. destruct (Z.ltb_spec 10 mc); [constructor |].
  destruct (Z.ltb_spec len (2 + mc)); [constructor |].
  eapply in_slice_widen; [| | apply socks5_methods_reads]; lia.
Qed.

(** C5.  On every byte slice the SOCKS5 probe answers AGAIN when the
    slice has fewer than two bytes; NEXT when byte 0 is not 5; NEXT when
    byte 1, the method count m, is not in 1..10; AGAIN when the slice has
    fewer than 2 + m bytes; NEXT when one of the m method bytes exceeds
    9; and MATCH otherwise.  This holds whether [char] is signed or not. *)
Theorem socks5_probe_outcome (b : list byte) (p : ptr) (beyond : memory)
    (d : data_t) :
  probe_on is_socks5_protocol b p beyond d
  = if slice_len b <? 2 then PROBE_AGAIN
    else if negb (byte_at b 0 =? 5) then PROBE_NEXT
    else if negb ((1 <=? byte_at b 1) && (byte_at b 1 <=? 10)) then PROBE_NEXT
    else if slice_len b <? 2 + byte_at b 1 then PROBE_AGAIN
    else if existsb (fun c => 9 <? uchar c)
              (firstn (Z.to_nat (byte_at b 1)) (skipn 2 b))
         then PROBE_NEXT
         else PROBE_MATCH.
Proof.
  unfold probe_on. rewrite is_socks5_protocol_result, bytes_place.
  reflexivity.
Qed.

(** ** SSH, tinc and XMPP *)

Lemma lnot_eqb (a : Z) : lnot a = if a =? 0 then PROBE_MATCH else PROBE_NEXT.
Proof. reflexivity. Qed.

Lemma is_ssh_protocol_result (m : memory) (p : ptr) (len : Z) (d : data_t) :
  0 <= len -> result m (is_ssh_protocol p len d) = ssh_spec (bytes m p len).
Proof.
  intros Hlen. unfold is_ssh_protocol, ssh_spec.
  rewrite bytes_length by assumption.
  destruct (Z.ltb_spec len 4); [reflexivity |].
  autorewrite with rd. rewrite lnot_eqb.
  change 4%nat with (length (lit "SSH-")).
  rewrite (strncmp_result m _ (Z.to_nat len)); [reflexivity | reflexivity |].
  simpl. lia.
Qed.

Lemma is_ssh_protocol_reads (m : memory) (p : ptr) (len : Z) (d : data_t) :
  Forall (in_slice p len) (reads m (is_ssh_protocol p len d)).
Proof.
  unfold is_ssh_protocol.
  destruct (Z.ltb_spec len 4); autorewrite with rd; [constructor |].
  rewrite app_nil_r.
  eapply in_slice_widen; [| | apply strncmp_reads]; lia.
Qed.

Lemma is_tinc_protocol_result (m : memory) (p : ptr) (len : Z) (d : data_t) :
  0 <= len -> result m (is_tinc_protocol p len d) = tinc_spec (bytes m p len).
Proof.
  intros Hlen. unfold is_tinc_protocol, tinc_spec.
  rewrite bytes_length by assumption.
  destruct (Z.ltb_spec len 2); [reflexivity |].
  autorewrite with rd. rewrite lnot_eqb.
  change 2%nat with (length (lit "0 ")).
  rewrite (strncmp_result m _ (Z.to_nat len)); [reflexivity | reflexivity |].
  simpl. lia.
Qed.

Lemma is_tinc_protocol_reads (m : memory) (p : ptr) (len : Z) (d : data_t) :
  Forall (in_slice p len) (reads m (is_tinc_protocol p len d)).
Proof.
  unfold is_tinc_protocol.
  destruct (Z.ltb_spec len 2); autorewrite with rd; [constructor |].
  rewrite app_nil_r.
  eapply in_slice_widen; [| | apply strncmp_reads]; lia.
Qed.

Lemma is_xmpp_protocol_result (m : memory) (p : ptr) (len : Z) (d : data_t) :
  0 <= len <= INT_MAX ->
  result m (is_xmpp_protocol p len d) = xmpp_spec (bytes m p len).
Proof.
  intros Hlen. unfold is_xmpp_protocol, xmpp_spec.
  rewrite bytes_length, to_size_t_int by lia.
  rewrite result_bind.
  rewrite <- (memmem_result m (lit "jabber") len p) by (simpl; lia).
  destruct (result m (memmem p len (lit "jabber"))); cbn [found];
    [reflexivity |].
  now destruct (len <? 50).
Qed.

Lemma is_xmpp_protocol_reads (m : memory) (p : ptr) (len : Z) (d : data_t) :
  0 <= len <= INT_MAX ->
  Forall (in_slice p len) (reads m (is_xmpp_protocol p len d)).
Proof.
  intros Hlen. unfold is_xmpp_protocol.
  rewrite to_size_t_int, reads_bind by assumption.
  apply Forall_app. split.
  - apply memmem_reads; [lia | simpl; lia].
  - destruct (result m (memmem p len (lit "jabber"))); [constructor |].
    destruct (len <? 50); constructor.
Qed.

(** ** HTTP *)

Lemma PROBE_HTTP_METHOD_result (m : memory) (p : ptr) (len : Z) (opt : string)
    (k : Rd Z) :
  0 <= len <= INT_MAX -> no_nul (lit opt) = true ->
  result m (PROBE_HTTP_METHOD p len opt k)
  = if len <? strlen (lit opt) then PROBE_AGAIN
    else if starts_with (lit opt) (bytes m p len) then PROBE_MATCH
    else result m k.
Proof.
  intros Hlen Hopt. unfold PROBE_HTTP_METHOD, probe_http_method.
  rewrite to_size_t_int, result_bind by assumption.
  destruct (Z.ltb_spec len (strlen (lit opt))) as [Hlt | Hge];
    [reflexivity |].
  rewrite result_bind, result_ret, lnot_eqb.
  rewrite (strncmp_result m _ (Z.to_nat len)) by (unfold strlen in Hge; auto; lia).
  unfold bytes.
  now destruct (starts_with (lit opt) (bytes_n m p (Z.to_nat len))).
Qed.

Lemma PROBE_HTTP_METHOD_reads (m : memory) (p : ptr) (len : Z) (opt : string)
    (k : Rd Z) :
  0 <= len <= INT_MAX ->
  Forall (in_slice p len) (reads m k) ->
  Forall (in_slice p len) (reads m (PROBE_HTTP_METHOD p len opt k)).
Proof.
  intros Hlen Hk. unfold PROBE_HTTP_METHOD, probe_http_method.
  rewrite to_size_t_int, reads_bind by assumption.
  destruct (Z.ltb_spec len (strlen (lit opt))) as [Hlt | Hge];
    [constructor |].
  rewrite reads_bind, reads_ret, app_nil_r.
  apply Forall_app. split.
  - eapply in_slice_widen; [| | apply strncmp_reads]; unfold strlen in Hge; lia.
  - destruct (negb _); [constructor | assumption].
Qed.

Lemma is_http_protocol_result (m : memory) (p : ptr) (len : Z) (d : data_t) :
  0 <= len <= INT_MAX ->
  result m (is_http_protocol p len d) = http_spec (bytes m p len).
Proof.
  intros Hlen. unfold is_http_protocol, http_spec.
  rewrite to_size_t_int, result_bind by assumption.
  rewrite <- (memmem_result m (lit "HTTP") len p) by (simpl; lia).
  destruct (result m (memmem p len (lit "HTTP"))); cbn [found];
    [reflexivity |].
  rewrite !PROBE_HTTP_METHOD_result by (assumption || reflexivity).
  unfold http_methods. cbn [first_method].
  rewrite bytes_length by lia. reflexivity.
Qed.

Lemma is_http_protocol_reads (m : memory) (p : ptr) (len : Z) (d : data_t) :
  0 <= len <= INT_MAX ->
  Forall (in_slice p len) (reads m (is_http_protocol p len d)).
Proof.
  intros Hlen. unfold is_http_protocol.
  rewrite to_size_t_int, reads_bind by assumption.
  apply Forall_app. split.
  - apply memmem_reads; [lia | simpl; lia].
  - destruct (result m (memmem p len (lit "HTTP"))); [constructor |].
    repeat (apply PROBE_HTTP_METHOD_reads; [assumption |]). constructor.
Qed.

(** C7.  On every byte slice the HTTP probe answers MATCH when [HTTP]
    occurs somewhere in the slice; otherwise it goes through OPTIONS,
    GET, HEAD, POST, PUT, DELETE, TRACE, CONNECT in this order, answers
    AGAIN at the first method longer than the slice and MATCH at the
    first method the slice begins with, and NEXT when no method is left. *)
Theorem http_probe_outcome (b : list byte) (p : ptr) (beyond : memory)
    (d : data_t) :
  slice_len b <= INT_MAX ->
  probe_on is_http_protocol b p beyond d
  = if contains (lit "HTTP") b then PROBE_MATCH
    else first_method b
           [ "OPTIONS"; "GET"; "HEAD"; "POST"; "PUT"; "DELETE"; "TRACE";
             "CONNECT" ]%string.
Proof.
  intros Hlen. unfold probe_on.
  rewrite is_http_protocol_result by (unfold slice_len in *; lia).
  now rewrite bytes_place.
Qed.

(** ** ADB *)

Lemma probe_adb_cnxn_message_result (m : memory) (p : ptr) (off N : nat) :
  (off + 29 <= N)%nat ->
  result m (probe_adb_cnxn_message (p + Z.of_nat off))
  = if cnxn_host_at off (bytes_n m p N) then 1 else 0.
Proof.
  intros H. unfold probe_adb_cnxn_message, cnxn_host_at.
  rewrite !skipn_bytes_n, Z.add_0_r, result_bind.
  unfold lnot at 1. change 4%nat with (length (lit "CNXN")).
  rewrite (memcmp_result m (lit "CNXN") (N - off)) by (simpl; lia).
  destruct (starts_with (lit "CNXN") _); cbn [andb]; [| reflexivity].
  change (1 =? 0) with false. cbv iota.
  rewrite result_bind, result_ret. unfold lnot.
  change 5%nat with (length (lit "host:")).
  rewrite (memcmp_result m (lit "host:") (N - (off + 24))) by (simpl; lia).
  replace (p + Z.of_nat off + 24) with (p + Z.of_nat (off + 24)) by lia.
  now destruct (starts_with (lit "host:") _).
Qed.

Lemma probe_adb_cnxn_message_reads (m : memory) (q : ptr) :
  Forall (in_slice q 29) (reads m (probe_adb_cnxn_message q)).
Proof.
  unfold probe_adb_cnxn_message. rewrite reads_bind.
  apply Forall_app. split.
  - eapply in_slice_widen; [| | apply memcmp_reads]; lia.
  - destruct (lnot _ =? 0); [constructor |].
    rewrite reads_bind, reads_ret, app_nil_r.
    eapply in_slice_widen; [| | apply memcmp_reads]; lia.
Qed.

Lemma is_adb_protocol_result (m : memory) (p : ptr) (len : Z) (d : data_t) :
  0 <= len <= INT_MAX ->
  result m (is_adb_protocol p len d) = adb_spec (bytes m p len).
Proof.
  intros Hlen. unfold is_adb_protocol, adb_spec.
  rewrite bytes_length, to_unsigned_int_int, to_size_t_int by lia.
  change (to_size_t min_data_packet_size + strlen empty_message) with 54.
  change min_data_packet_size with 30.
  destruct (Z.ltb_spec len 30); [reflexivity |].
  rewrite result_bind. unfold bytes.
  replace (p + 0) with (p + Z.of_nat 0) by lia.
  rewrite (probe_adb_cnxn_message_result m p 0 (Z.to_nat len)) by lia.
  destruct (cnxn_host_at 0 _); [reflexivity |].
  change (0 =? PROBE_MATCH) with false. cbv iota.
  destruct (Z.ltb_spec len 54); [reflexivity |].
  rewrite result_bind.
  rewrite (memcmp_result m empty_message (Z.to_nat len)) by (simpl; lia).
  replace (p + Z.of_nat 0) with p by lia.
  change empty_message_prefix with empty_message.
  destruct (starts_with empty_message _); cbn [negb]; [| reflexivity].
  change (strlen empty_message) with (Z.of_nat 24).
  rewrite (probe_adb_cnxn_message_result m p 24 (Z.to_nat len)) by lia.
  now destruct (cnxn_host_at 24 _).
Qed.

Lemma is_adb_protocol_reads (m : memory) (p : ptr) (len : Z) (d : data_t) :
  0 <= len <= INT_MAX ->
  Forall (in_slice p len) (reads m (is_adb_protocol p len d)).
Proof.
  intros Hlen. unfold is_adb_protocol.
  rewrite to_unsigned_int_int, to_size_t_int by lia.
  change (to_size_t min_data_packet_size + strlen empty_message) with 54.
  change min_data_packet_size with 30.
  destruct (Z.ltb_spec len 30); [constructor |].
  rewrite reads_bind. apply Forall_app. split.
  - eapply in_slice_widen; [| | apply probe_adb_cnxn_message_reads]; lia.
  - destruct (_ =? PROBE_MATCH); [constructor |].
    destruct (Z.ltb_spec len 54); [constructor |].
    rewrite reads_bind. apply Forall_app. split.
    + eapply in_slice_widen; [| | apply memcmp_reads]; simpl; lia.
    + destruct (negb _); [constructor |].
      change (strlen empty_message) with 24.
      eapply in_slice_widen; [| | apply probe_adb_cnxn_message_reads]; lia.
Qed.

(** C6.  On every byte slice the ADB probe answers AGAIN when the slice
    has fewer than 30 bytes; MATCH when the slice begins with [CNXN] and
    has [host:] at bytes 24..28; otherwise AGAIN when the slice has fewer
    than 54 bytes; otherwise NEXT when its first 24 bytes are not twenty
    zero bytes followed by four 0xFF bytes; otherwise MATCH when [CNXN]
    is at offset 24 and [host:] at offset 48, and NEXT when not. *)
Theorem adb_probe_outcome (b : list byte) (p : ptr) (beyond : memory)
    (d : data_t) :
  slice_len b <= INT_MAX ->
  probe_on is_adb_protocol b p beyond d
  = if slice_len b <? 30 then PROBE_AGAIN
    else if starts_with (lit "CNXN") b
            && starts_with (lit "host:") (skipn 24 b)
         then PROBE_MATCH
    else if slice_len b <? 54 then PROBE_AGAIN
    else if negb (starts_with (repeat x00 20 ++ repeat xff 4) b)
         then PROBE_NEXT
    else if starts_with (lit "CNXN") (skipn 24 b)
            && starts_with (lit "host:") (skipn 48 b)
         then PROBE_MATCH
         else PROBE_NEXT.
Proof.
  intros Hlen. unfold probe_on.
  rewrite is_adb_protocol_result by (unfold slice_len in *; lia).
  now rewrite bytes_place.
Qed.

(** ** HTTP methods in the wrong letter case *)

Lemma bytes_eqb_eq (a b : list byte) : bytes_eqb a b = true <-> a = b.
Proof.
  revert b. induction a as [| c a IH]; intros [| d b]; simpl;
    try (split; [discriminate | discriminate]); [tauto |].
  rewrite andb_true_iff, byte_eqb_eq, IH. split.
  - now intros [-> ->].
  - intros H. now injection H.
Qed.

Lemma to_upper_cases (c : byte) :
  c = to_upper c \/ c = to_lower (to_upper c).
Proof. destruct c; vm_compute; auto. Qed.

Lemma in_case_variants (s b : list byte) :
  map to_upper b = map to_upper s -> In b (case_variants s).
Proof.
  revert b. induction s as [| c s IH]; intros [| d b] H;
    try discriminate; [now left |].
  simpl in H. injection H as Hd Hb.
  cbn [case_variants]. apply in_or_app.
  destruct (to_upper_cases d) as [E | E].
  - left. rewrite E, Hd. apply in_map. now apply IH.
  - right. rewrite E, Hd. apply in_map. now apply IH.
Qed.

Lemma probe_on_http (b : list byte) (p : ptr) (beyond : memory) (d : data_t) :
  slice_len b <= INT_MAX ->
  probe_on is_http_protocol b p beyond d = http_spec b.
Proof.
  intros Hlen. unfold probe_on.
  rewrite is_http_protocol_result by (unfold slice_len in *; lia).
  now rewrite bytes_place.
Qed.

Lemma wrong_case_checked_true : wrong_case_checked = true.
Proof. vm_compute. reflexivity. Qed.

(** C3, amended.  For every HTTP method name M and every slice that
    differs from M in letter case only, the HTTP probe never answers
    MATCH: it answers NEXT when M has seven letters (OPTIONS, CONNECT)
    and AGAIN when M is shorter (GET, HEAD, POST, PUT, DELETE, TRACE),
    because the length check against OPTIONS comes first.  Such a slice
    never contains [HTTP]. *)
Theorem http_wrong_case_outcome (M : string) (b : list byte) (p : ptr)
    (beyond : memory) (d : data_t) :
  In M http_methods ->
  differs_only_in_case (lit M) b ->
  probe_on is_http_protocol b p beyond d
  = if strlen (lit M) =? 7 then PROBE_NEXT else PROBE_AGAIN.
Proof.
  intros HM [Hcase Hneq].
  assert (Hlen : length b = length (lit M)).
  { rewrite <- (length_map to_upper b), Hcase. apply length_map. }
  assert (Hshort : slice_len b <= INT_MAX).
  { unfold slice_len. rewrite Hlen.
    repeat (destruct HM as [<- | HM]; [vm_compute; discriminate |]).
    contradiction. }
  rewrite probe_on_http by assumption.
  pose proof wrong_case_checked_true as Hall.
  unfold wrong_case_checked in Hall.
  rewrite forallb_forall in Hall. specialize (Hall M HM).
  rewrite forallb_forall in Hall.
  specialize (Hall b (in_case_variants _ _ Hcase)).
  apply orb_true_iff in Hall as [Heq | Hout].
  - apply bytes_eqb_eq in Heq. contradiction.
  - apply Z.eqb_eq in Hout. exact Hout.
Qed.

(** ** Acceptance under extension of the slice *)

Lemma slice_len_app (b ext : list byte) :
  slice_len (b ++ ext) = slice_len b + slice_len ext.
Proof. unfold slice_len. rewrite length_app. lia. Qed.

Lemma slice_len_nonneg (b : list byte) : 0 <= slice_len b.
Proof. unfold slice_len. lia. Qed.

Lemma starts_with_app (s b ext : list byte) :
  starts_with s b = true -> starts_with s (b ++ ext) = true.
Proof.
  rewrite !starts_with_iff. intros [r ->]. exists (r ++ ext).
  now rewrite app_assoc.
Qed.

Lemma starts_with_app_long (s b ext : list byte) :
  (length s <= length b)%nat -> starts_with s (b ++ ext) = starts_with s b.
Proof.
  revert b. induction s as [| c s IH]; intros b H; [reflexivity |].
  destruct b as [| x b]; simpl in H; [lia |].
  simpl. rewrite IH by lia. reflexivity.
Qed.

Lemma contains_app (s b ext : list byte) :
  contains s b = true -> contains s (b ++ ext) = true.
Proof.
  rewrite !contains_iff. intros [bf [r ->]]. exists bf, (r ++ ext).
  now rewrite <- !app_assoc.
Qed.

Lemma skipn_app_long (k : nat) (b ext : list byte) :
  (k <= length b)%nat -> skipn k (b ++ ext) = skipn k b ++ ext.
Proof.
  intros H. rewrite skipn_app.
  replace (k - length b)%nat with 0%nat by lia. reflexivity.
Qed.

Lemma cnxn_host_at_app (off : nat) (b ext : list byte) :
  (off + 29 <= length b)%nat ->
  cnxn_host_at off (b ++ ext) = cnxn_host_at off b.
Proof.
  intros H. unfold cnxn_host_at.
  rewrite !skipn_app_long by lia.
  rewrite !starts_with_app_long by (rewrite length_skipn; simpl; lia).
  reflexivity.
Qed.

Lemma byte_at_app (i : nat) (b ext : list byte) :
  (i < length b)%nat -> byte_at (b ++ ext) i = byte_at b i.
Proof. intros H. unfold byte_at. now rewrite app_nth1. Qed.

Lemma ssh_spec_mono (b ext : list byte) :
  ssh_spec b = PROBE_MATCH -> ssh_spec (b ++ ext) = PROBE_MATCH.
Proof.
  unfold ssh_spec. rewrite slice_len_app.
  pose proof (slice_len_nonneg ext).
  destruct (Z.ltb_spec (slice_len b) 4); [discriminate |].
  destruct (Z.ltb_spec (slice_len b + slice_len ext) 4); [lia |].
  destruct (starts_with (lit "SSH-") b) eqn:E; [| discriminate].
  now rewrite starts_with_app.
Qed.

Lemma tinc_spec_mono (b ext : list byte) :
  tinc_spec b = PROBE_MATCH -> tinc_spec (b ++ ext) = PROBE_MATCH.
Proof.
  unfold tinc_spec. rewrite slice_len_app.
  pose proof (slice_len_nonneg ext).
  destruct (Z.ltb_spec (slice_len b) 2); [discriminate |].
  destruct (Z.ltb_spec (slice_len b + slice_len ext) 2); [lia |].
  destruct (starts_with (lit "0 ") b) eqn:E; [| discriminate].
  now rewrite starts_with_app.
Qed.

Lemma xmpp_spec_mono (b ext : list byte) :
  xmpp_spec b = PROBE_MATCH -> xmpp_spec (b ++ ext) = PROBE_MATCH.
Proof.
  unfold xmpp_spec.
  destruct (contains (lit "jabber") b) eqn:E.
  - now rewrite contains_app.
  - destruct (slice_len b <? 50); discriminate.
Qed.

Lemma first_method_mono (b ext : list byte) (methods : list string) :
  first_method b methods = PROBE_MATCH ->
  first_method (b ++ ext) methods = PROBE_MATCH.
Proof.
  induction methods as [| M methods IH]; [discriminate |].
  cbn [first_method]. rewrite slice_len_app.
  pose proof (slice_len_nonneg ext).
  destruct (Z.ltb_spec (slice_len b) (strlen (lit M))) as [| Hge];
    [discriminate |].
  destruct (Z.ltb_spec (slice_len b + slice_len ext) (strlen (lit M)));
    [lia |].
  rewrite starts_with_app_long by (unfold slice_len, strlen in Hge; lia).
  destruct (starts_with (lit M) b); [reflexivity | exact IH].
Qed.

Lemma http_spec_mono (b ext : list byte) :
  http_spec b = PROBE_MATCH -> http_spec (b ++ ext) = PROBE_MATCH.
Proof.
  unfold http_spec.
  destruct (contains (lit "HTTP") b) eqn:E.
  - now rewrite contains_app.
  - intros H. destruct (contains (lit "HTTP") (b ++ ext)); [reflexivity |].
    now apply first_method_mono.
Qed.

Lemma adb_spec_mono (b ext : list byte) :
  adb_spec b = PROBE_MATCH -> adb_spec (b ++ ext) = PROBE_MATCH.
Proof.
  unfold adb_spec. rewrite slice_len_app.
  pose proof (slice_len_nonneg ext).
  destruct (Z.ltb_spec (slice_len b) 30) as [| H30]; [discriminate |].
  destruct (Z.ltb_spec (slice_len b + slice_len ext) 30); [lia |].
  unfold slice_len in H30.
  rewrite cnxn_host_at_app by lia.
  destruct (cnxn_host_at 0 b); [reflexivity |].
  destruct (Z.ltb_spec (slice_len b) 54) as [| H54]; [discriminate |].
  destruct (Z.ltb_spec (slice_len b + slice_len ext) 54); [lia |].
  unfold slice_len in H54.
  rewrite cnxn_host_at_app by lia.
  rewrite starts_with_app_long by (simpl; lia).
  trivial.
Qed.

Lemma socks5_spec_mono (b ext : list byte) :
  socks5_spec b = PROBE_MATCH -> socks5_spec (b ++ ext) = PROBE_MATCH.
Proof.
  unfold socks5_spec. rewrite slice_len_app.
  pose proof (slice_len_nonneg ext).
  destruct (Z.ltb_spec (slice_len b) 2) as [| H2]; [discriminate |].
  destruct (Z.ltb_spec (slice_len b + slice_len ext) 2); [lia |].
  unfold slice_len in H2.
  rewrite !byte_at_app by lia.
  destruct (negb (byte_at b 0 =? 5)); [discriminate |].
  destruct (negb ((1 <=? byte_at b 1) && (byte_at b 1 <=? 10))) eqn:Em;
    [discriminate |].
  destruct (Z.ltb_spec (slice_len b) (2 + byte_at b 1)) as [| Hm];
    [discriminate |].
  destruct (Z.ltb_spec (slice_len b + slice_len ext) (2 + byte_at b 1));
    [lia |].
  unfold slice_len in Hm.
  rewrite skipn_app_long, firstn_app by lia.
  rewrite length_skipn.
  replace (Z.to_nat (byte_at b 1) - (length b - 2))%nat with 0%nat by lia.
  rewrite app_nil_r. trivial.
Qed.

Lemma probe_on_spec (P : T_PROBE) (spec : list byte -> Z) (d : data_t) :
  (forall m p len, 0 <= len <= INT_MAX ->
                   result m (P p len d) = spec (bytes m p len)) ->
  forall b p beyond,
    slice_len b <= INT_MAX -> probe_on P b p beyond d = spec b.
Proof.
  intros HP b p beyond Hlen. unfold probe_on.
  rewrite HP by (pose proof (slice_len_nonneg b); lia).
  now rewrite bytes_place.
Qed.

Lemma monotone_of_spec (P : T_PROBE) (spec : list byte -> Z) :
  (forall d m p len, 0 <= len <= INT_MAX ->
                     result m (P p len d) = spec (bytes m p len)) ->
  (forall b ext, spec b = PROBE_MATCH -> spec (b ++ ext) = PROBE_MATCH) ->
  monotone P.
Proof.
  intros HP Hmono b' ext p p' beyond beyond' d Hlen Hm.
  assert (Hlen' : slice_len b' <= INT_MAX).
  { rewrite slice_len_app in Hlen. pose proof (slice_len_nonneg ext). lia. }
  rewrite (probe_on_spec P spec d (HP d)) in Hm |- * by assumption.
  now apply Hmono.
Qed.

Lemma probe_on_openvpn (b : list byte) (p : ptr) (beyond : memory) (d : data_t) :
  probe_on is_openvpn_protocol b p beyond d = openvpn_spec b.
Proof.
  unfold probe_on. now rewrite is_openvpn_protocol_result, bytes_place.
Qed.

(** C2, amended.  Acceptance is monotone under extension of the slice for
    every built-in recogniser of probe.c but the OpenVPN one (the TLS
    probe, whose parser is in tls.c, is left aside): SSH, tinc, XMPP,
    HTTP, ADB, SOCKS5 and the always-match probe.  The OpenVPN probe
    wants the announced length to be exactly the length of the slice
    minus two: when it has answered MATCH on a slice it answers NEXT on
    every longer slice that begins with it. *)
Theorem builtin_probes_monotone (pname : string) (P : T_PROBE) :
  In (pname, P) builtins ->
  pname <> "openvpn"%string -> pname <> "tls"%string ->
  monotone P
  /\ (forall (b' ext : list byte) (p p' : ptr) (beyond beyond' : memory)
             (d : data_t),
        ext <> [] ->
        probe_on is_openvpn_protocol b' p' beyond' d = PROBE_MATCH ->
        probe_on is_openvpn_protocol (b' ++ ext) p beyond d = PROBE_NEXT).
Proof.
  intros Hin Hvpn Htls. split.
  - unfold builtins in Hin. simpl in Hin.
    repeat (destruct Hin as [Hin | Hin];
            [injection Hin as <- <- |]); try contradiction.
    + apply (monotone_of_spec _ ssh_spec); [| apply ssh_spec_mono].
      intros. apply is_ssh_protocol_result. lia.
    + apply (monotone_of_spec _ tinc_spec); [| apply tinc_spec_mono].
      intros. apply is_tinc_protocol_result. lia.
    + apply (monotone_of_spec _ xmpp_spec); [| apply xmpp_spec_mono].
      intros. now apply is_xmpp_protocol_result.
    + apply (monotone_of_spec _ http_spec); [| apply http_spec_mono].
      intros. now apply is_http_protocol_result.
    + apply (monotone_of_spec _ adb_spec); [| apply adb_spec_mono].
      intros. now apply is_adb_protocol_result.
    + apply (monotone_of_spec _ socks5_spec); [| apply socks5_spec_mono].
      intros. apply is_socks5_protocol_result.
    + intros b' ext p p' beyond beyond' d _ _. reflexivity.
  - intros b' ext p p' beyond beyond' d Hext.
    rewrite !probe_on_openvpn. unfold openvpn_spec.
    rewrite slice_len_app.
    assert (0 < slice_len ext).
    { destruct ext; [contradiction | unfold slice_len; simpl; lia]. }
    destruct (Z.ltb_spec (slice_len b') 2) as [| H2]; [discriminate |].
    destruct (Z.ltb_spec (slice_len b' + slice_len ext) 2); [lia |].
    unfold slice_len in H2. rewrite !byte_at_app by lia.
    destruct (Z.eqb_spec (byte_at b' 0 * 256 + byte_at b' 1)
                (slice_len b' - 2)) as [E |]; [| discriminate].
    intros _.
    destruct (Z.eqb_spec (byte_at b' 0 * 256 + byte_at b' 1)
                (slice_len b' + slice_len ext - 2)); [lia | reflexivity].
Qed.

(** ** Reads stay inside the slice *)

Lemma place_outside_irrelevant (b : list byte) (p : ptr)
    (beyond beyond' : memory) (a : ptr) :
  in_slice p (slice_len b) a -> place b p beyond a = place b p beyond' a.
Proof.
  unfold in_slice, place, slice_len. intros [H1 H2].
  destruct (Z.leb_spec p a); [| lia].
  destruct (Z.ltb_spec a (p + Z.of_nat (length b))); [| lia].
  reflexivity.
Qed.

Lemma reads_inside_local (P : T_PROBE) : reads_inside P -> outcome_local P.
Proof.
  intros HP b p beyond beyond' d Hlen. unfold probe_on, result.
  f_equal. apply run_agree. intros a Ha.
  apply place_outside_irrelevant.
  specialize (HP b p beyond d Hlen). rewrite Forall_forall in HP.
  now apply HP.
Qed.

Lemma reads_inside_of (P : T_PROBE) :
  (forall d m p len, 0 <= len <= INT_MAX ->
                     Forall (in_slice p len) (reads m (P p len d))) ->
  reads_inside P.
Proof.
  intros HP b p beyond d Hlen. apply HP.
  pose proof (slice_len_nonneg b). lia.
Qed.

Lemma regexec_first_byte_reads (m : memory) (re : byte) (p : ptr) (so eo : Z) :
  Forall (in_slice (p + so) (eo - so)) (reads m (regexec_first_byte re p so eo)).
Proof.
  unfold regexec_first_byte.
  destruct (Z.ltb_spec (eo - so) 1); autorewrite with rd; [constructor |].
  repeat constructor; unfold in_slice; lia.
Qed.

Section BoundedReads.

(** What is asked of [regexec] of the C library: under REG_STARTEND it
    is told the bytes from [so] to [eo], and reads none outside of
    them. *)
Hypothesis regexec_reads :
  forall (m : memory) (re : regex_t) (p : ptr) (so eo : Z),
    Forall (in_slice (p + so) (eo - so)) (reads m (regexec re p so eo)).

Lemma regex_loop_reads (m : memory) (p : ptr) (len : Z) (l : list regex_t) :
  Forall (in_slice p len) (reads m (regex_loop p len l)).
Proof.
  induction l as [| re l IH]; [constructor |].
  cbn [regex_loop]. rewrite reads_bind. apply Forall_app. split.
  - eapply in_slice_widen; [| | apply regexec_reads]; lia.
  - destruct (negb _); [exact IH | constructor].
Qed.

End BoundedReads.


(** ** The arbiter *)

Lemma short_of_anyprot_cons (x : item_ptr * sslhcfg_protocols_item)
    (l : list (item_ptr * sslhcfg_protocols_item)) :
  short_of_anyprot (x :: l)
  = match l with
    | [] => if named_anyprot x then [] else [x]
    | _ :: _ => x :: short_of_anyprot l
    end.
Proof.
  destruct l as [| y l].
  - unfold short_of_anyprot. simpl. now destruct (named_anyprot x).
  - unfold short_of_anyprot.
    change (rev (x :: y :: l)) with (rev (y :: l) ++ [x]).
    destruct (rev (y :: l)) as [| f r] eqn:E.
    + apply (f_equal (@length _)) in E. rewrite length_rev in E. discriminate.
    + cbn [app]. now destruct (named_anyprot f).
Qed.

Lemma after_loop_verdict (m : memory) (buf : ptr) (len n again : Z) :
  after_loop n again = verdict m buf len n again [].
Proof.
  unfold after_loop, verdict. cbn [find existsb]. now rewrite orb_false_r.
Qed.

(** One more entry at the head of the chain. *)
Lemma verdict_cons (m : memory) (buf : ptr) (len n again : Z)
    (ie : item_ptr * sslhcfg_protocols_item)
    (chain : list (item_ptr * sslhcfg_protocols_item)) :
  0 <= again ->
  verdict m buf len n again (ie :: chain)
  = if contribution m buf len ie =? PROBE_MATCH then (PROBE_MATCH, Some (fst ie))
    else verdict m buf len n
           (if contribution m buf len ie =? PROBE_AGAIN then again + 1 else again)
           chain.
Proof.
  intros Hag. unfold verdict. cbn [find existsb]. destruct ie as [i e].
  destruct (contribution m buf len (i, e) =? PROBE_MATCH); [reflexivity |].
  destruct (find _ chain) as [[j e'] |]; [reflexivity |].
  destruct (contribution m buf len (i, e) =? PROBE_AGAIN); cbn [orb];
    [| reflexivity].
  destruct (Z.eqb_spec (again + 1) 0); [lia |].
  cbn [negb orb]. now rewrite orb_true_r.
Qed.

Lemma calls_of_cons (m : memory) (buf : ptr) (len : Z)
    (ie : item_ptr * sslhcfg_protocols_item)
    (chain : list (item_ptr * sslhcfg_protocols_item)) :
  calls_of m buf len (ie :: chain)
  = if too_short len ie then calls_of m buf len chain
    else if contribution m buf len ie =? PROBE_MATCH then [fst ie]
    else fst ie :: calls_of m buf len chain.
Proof.
  unfold calls_of. cbn [upto_match]. unfold contribution.
  destruct (too_short len ie) eqn:E.
  - change (PROBE_AGAIN =? PROBE_MATCH) with false. cbv iota.
    cbn [filter]. now rewrite E.
  - destruct (_ =? PROBE_MATCH); cbn [filter]; now rewrite E.
Qed.

Lemma short_of_anyprot_cons2 (x y : item_ptr * sslhcfg_protocols_item)
    (l : list (item_ptr * sslhcfg_protocols_item)) :
  short_of_anyprot (x :: y :: l) = x :: short_of_anyprot (y :: l).
Proof. now rewrite short_of_anyprot_cons. Qed.

(** The body of the loop past the test for a final [anyprot], for an
    entry with a probe, when the rest of the loop behaves as [chain']. *)
Lemma probe_step (m : memory) (buf : ptr) (len n : Z)
    (e : sslhcfg_protocols_item) (pr : T_PROBE)
    (rest : list sslhcfg_protocols_item) (i again : Z)
    (chain' : list (item_ptr * sslhcfg_protocols_item)) :
  probe e = Some pr -> 0 <= again ->
  (forall again', 0 <= again' ->
     probe_loop m buf len n (i + 1) rest again'
     = (verdict m buf len n again' chain', calls_of m buf len chain')) ->
  (if minlength_is_present e && (len <? minlength e)
   then probe_loop m buf len n (i + 1) rest (again + 1)
   else
     let res := result m (pr buf len (data e)) in
     if res =? PROBE_MATCH then (PROBE_MATCH, Some i, [i])
     else
       let again' := if res =? PROBE_AGAIN then again + 1 else again in
       let (out, called) := probe_loop m buf len n (i + 1) rest again' in
       (out, i :: called))
  = (verdict m buf len n again ((i, e) :: chain'),
     calls_of m buf len ((i, e) :: chain')).
Proof.
  intros Ep Hag Htail.
  rewrite verdict_cons, calls_of_cons by assumption.
  unfold contribution, too_short. cbn [snd fst]. rewrite Ep.
  destruct (minlength_is_present e && (len <? minlength e)).
  - change (PROBE_AGAIN =? PROBE_MATCH) with false.
    change (PROBE_AGAIN =? PROBE_AGAIN) with true. cbv iota.
    apply Htail. lia.
  - cbv zeta.
    destruct (result m (pr buf len (data e)) =? PROBE_MATCH); [reflexivity |].
    rewrite Htail by (destruct (_ =? PROBE_AGAIN); lia).
    reflexivity.
Qed.

Lemma probe_loop_spec (m : memory) (buf : ptr) (len n : Z)
    (rest : list sslhcfg_protocols_item) (i again : Z) :
  0 <= again -> i + Z.of_nat (length rest) = n ->
  probe_loop m buf len n i rest again
  = (verdict m buf len n again
       (filter has_probe (short_of_anyprot (numbered_from i rest))),
     calls_of m buf len
       (filter has_probe (short_of_anyprot (numbered_from i rest)))).
Proof.
  revert i again. induction rest as [| e rest IH]; intros i again Hag Hn.
  - cbn [probe_loop numbered_from]. now rewrite (after_loop_verdict m buf len).
  - destruct rest as [| e' rest'].
    + (* the last entry *)
      assert (Hlast : (i =? n - 1) = true) by (apply Z.eqb_eq; simpl in Hn; lia).
      cbn [probe_loop numbered_from]. rewrite short_of_anyprot_cons.
      unfold named_anyprot. cbn [snd].
      destruct (probe e) as [pr |] eqn:Ep.
      * rewrite Hlast. cbn [andb].
        destruct (String.eqb (name e) "anyprot").
        { now rewrite (after_loop_verdict m buf len). }
        cbn [filter].
        replace (has_probe (i, e)) with true
          by (unfold has_probe; cbn [snd]; now rewrite Ep).
        refine (probe_step m buf len n e pr [] i again [] Ep Hag _).
        intros again' _. cbn [probe_loop].
        now rewrite (after_loop_verdict m buf len).
      * rewrite (after_loop_verdict m buf len).
        destruct (String.eqb (name e) "anyprot"); [reflexivity |].
        cbn [filter].
        replace (has_probe (i, e)) with false
          by (unfold has_probe; cbn [snd]; now rewrite Ep).
        reflexivity.
    + (* an entry before the last *)
      assert (Hnot : (i =? n - 1) = false) by (apply Z.eqb_neq; simpl in Hn; lia).
      assert (Hrest : i + 1 + Z.of_nat (length (e' :: rest')) = n)
        by (simpl in Hn |- *; lia).
      change (numbered_from i (e :: e' :: rest'))
        with ((i, e) :: (i + 1, e') :: numbered_from (i + 1 + 1) rest').
      rewrite short_of_anyprot_cons2.
      change ((i + 1, e') :: numbered_from (i + 1 + 1) rest')
        with (numbered_from (i + 1) (e' :: rest')).
      cbn [filter].
      change (probe_loop m buf len n i (e :: e' :: rest') again)
        with (match probe e with
              | None => probe_loop m buf len n (i + 1) (e' :: rest') again
              | Some pr =>
                  if (i =? n - 1) && String.eqb (name e) "anyprot"
                  then (after_loop n again, [])
                  else if minlength_is_present e && (len <? minlength e)
                  then probe_loop m buf len n (i + 1) (e' :: rest') (again + 1)
                  else
                    let res := result m (pr buf len (data e)) in
                    if res =? PROBE_MATCH then (PROBE_MATCH, Some i, [i])
                    else
                      let again' :=
                        if res =? PROBE_AGAIN then again + 1 else again in
                      let (out, called) :=
                        probe_loop m buf len n (i + 1) (e' :: rest') again' in
                      (out, i :: called)
              end).
      destruct (probe e) as [pr |] eqn:Ep.
      * rewrite Hnot. cbn [andb].
        replace (has_probe (i, e)) with true
          by (unfold has_probe; cbn [snd]; now rewrite Ep).
        apply probe_step; [assumption | assumption |].
        intros again' Hag'. now apply IH.
      * replace (has_probe (i, e)) with false
          by (unfold has_probe; cbn [snd]; now rewrite Ep).
        now apply IH.
Qed.

Lemma arbiter_spec_verdict (m : memory) (cfg : sslhcfg_item) (buf : ptr) (len : Z) :
  arbiter_spec m cfg buf len
  = verdict m buf len (protocols_len cfg) 0 (scanned cfg).
Proof. reflexivity. Qed.

Lemma in_numbered_from (l : list sslhcfg_protocols_item) (i j : Z)
    (e : sslhcfg_protocols_item) :
  In (j, e) (numbered_from i l) ->
  i <= j /\ nth_error l (Z.to_nat (j - i)) = Some e.
Proof.
  revert i. induction l as [| x l IH]; intros i H; [contradiction |].
  cbn [numbered_from] in H. destruct H as [H | H].
  - injection H as -> ->. rewrite Z.sub_diag. split; [lia | reflexivity].
  - apply IH in H as [Hle Hnth]. split; [lia |].
    replace (Z.to_nat (j - i)) with (S (Z.to_nat (j - (i + 1)))) by lia.
    exact Hnth.
Qed.

Lemma in_short_of_anyprot (l : list (item_ptr * sslhcfg_protocols_item))
    (x : item_ptr * sslhcfg_protocols_item) :
  In x (short_of_anyprot l) -> In x l.
Proof.
  induction l as [| y l IH]; [trivial |].
  rewrite short_of_anyprot_cons. destruct l as [| z l].
  - destruct (named_anyprot y); [contradiction | trivial].
  - intros [H | H]; [now left | right; now apply IH].
Qed.

(** The index that comes with an entry of the chain points to it. *)
Lemma scanned_item_at (cfg : sslhcfg_item) (i : item_ptr)
    (e : sslhcfg_protocols_item) :
  In (i, e) (scanned cfg) -> item_at cfg i = Some e.
Proof.
  unfold scanned. intros H. apply filter_In in H as [H _].
  apply in_short_of_anyprot, in_numbered_from in H as [Hle Hnth].
  unfold item_at. destruct (Z.ltb_spec i 0); [lia |].
  now rewrite Z.sub_0_r in Hnth.
Qed.

Lemma item_at_last (cfg : sslhcfg_item) (e0 : sslhcfg_protocols_item) :
  protocols cfg <> [] ->
  item_at cfg (protocols_len cfg - 1) = Some (last (protocols cfg) e0).
Proof.
  unfold item_at, protocols_len. intros Hne.
  destruct (protocols cfg) as [| e l]; [contradiction |]. clear Hne.
  destruct (Z.ltb_spec (Z.of_nat (length (e :: l)) - 1) 0) as [H | H];
    [cbn [length] in H; lia |]. clear H.
  replace (Z.to_nat (Z.of_nat (length (e :: l)) - 1)) with (length l)
    by (cbn [length]; lia).
  revert e. induction l as [| x l IH]; intros e; [reflexivity |].
  cbn [length nth_error]. rewrite IH. reflexivity.
Qed.

Lemma verdict_index (m : memory) (buf : ptr) (len n again : Z)
    (chain : list (item_ptr * sslhcfg_protocols_item)) (j : item_ptr) :
  snd (verdict m buf len n again chain) = Some j ->
  (exists e, In (j, e) chain) \/ j = n - 1.
Proof.
  unfold verdict.
  destruct (find _ chain) as [[i e] |] eqn:E.
  - cbn [snd]. intros H. injection H as <-.
    apply find_some in E as [E _]. left. now exists e.
  - destruct (_ || _); cbn [snd]; [discriminate |].
    intros H. injection H as <-. now right.
Qed.

Lemma probe_buffer_index_valid (m : memory) (cfg : sslhcfg_item) (buf : ptr)
    (len : Z) (j : item_ptr) :
  protocols cfg <> [] ->
  snd (probe_buffer m cfg buf len) = Some j -> item_at cfg j <> None.
Proof.
  intros Hne. unfold probe_buffer.
  rewrite probe_loop_spec by (unfold protocols_len; lia). cbn [fst].
  intros [[e He] | ->]%verdict_index.
  - fold (scanned cfg) in He. now rewrite (scanned_item_at cfg j e).
  - destruct (protocols cfg) as [| e0 l] eqn:E; [contradiction |].
    rewrite (item_at_last cfg e0) by (rewrite E; discriminate).
    discriminate.
Qed.

Lemma timeout_loop_index (target : string) (rest : list sslhcfg_protocols_item)
    (i j : Z) :
  timeout_loop target i rest = Some j ->
  i <= j < i + Z.of_nat (length rest).
Proof.
  revert i. induction rest as [| e rest IH]; intros i; [discriminate |].
  cbn [timeout_loop length]. destruct (String.eqb (name e) target).
  - intros H. injection H as <-. lia.
  - intros H%IH. lia.
Qed.

Lemma timeout_protocol_valid (cfg : sslhcfg_item) :
  protocols cfg <> [] -> item_at cfg (timeout_protocol cfg) <> None.
Proof.
  intros Hne. unfold timeout_protocol, item_at.
  destruct (timeout_loop (on_timeout cfg) 0 (protocols cfg)) as [j |] eqn:E.
  - apply timeout_loop_index in E.
    destruct (Z.ltb_spec j 0); [lia |].
    apply nth_error_Some. lia.
  - destruct (protocols cfg); [contradiction | discriminate].
Qed.

(** C1.  For every non-empty protocol list and every buffer,
    [probe_buffer] goes through the entries in configured order, passing
    over those without a probe and stopping short of the last entry when
    it is named [anyprot]; an entry whose [minlength] exceeds the length
    of the buffer is not probed and counts as AGAIN; the first probe that
    answers MATCH makes it return MATCH with that entry; when no probe
    matched and an entry counted as AGAIN it returns AGAIN with no
    entry; otherwise it returns MATCH with the last configured entry.
    The probes it calls are those of the entries up to the first match,
    less the entries the buffer is too short for. *)
Theorem probe_buffer_arbitration (m : memory) (cfg : sslhcfg_item) (buf : ptr)
    (len : Z) :
  protocols cfg <> [] ->
  probe_buffer m cfg buf len = arbiter_spec m cfg buf len
  /\ probe_buffer_calls m cfg buf len = calls_spec m cfg buf len
  /\ (forall i e, In (i, e) (scanned cfg) -> item_at cfg i = Some e)
  /\ (forall e0,
        item_at cfg (protocols_len cfg - 1) = Some (last (protocols cfg) e0)).
Proof.
  intros Hne. unfold probe_buffer, probe_buffer_calls.
  rewrite probe_loop_spec by (unfold protocols_len; lia).
  repeat split.
  - apply scanned_item_at.
  - intros e0. now apply item_at_last.
Qed.

(** C9.  When [read] returns zero bytes or an error, so [n <= 0],
    [probe_client_protocol] returns MATCH, no error, and leaves in the
    connection the pointer to entry [protocols_len - 1], which is the
    last configured entry; memory and deferred data are untouched. *)
Theorem probe_client_protocol_read_failure (m : memory) (cfg : sslhcfg_item)
    (cnx : connection) (n : Z) (buffer : list byte) :
  n <= 0 ->
  probe_client_protocol m cfg cnx n buffer
  = (PROBE_MATCH,
     (m, {| q1 := q1 cnx; proto := Some (protocols_len cfg - 1) |}))
  /\ (protocols cfg <> [] ->
      forall e0,
        item_at cfg (protocols_len cfg - 1) = Some (last (protocols cfg) e0)).
Proof.
  intros Hn. split.
  - unfold probe_client_protocol.
    destruct (Z.gtb_spec n 0); [lia | reflexivity].
  - intros Hne e0. now apply item_at_last.
Qed.

(** C10.  With an empty protocol list [probe_buffer] returns the pointer
    to entry -1 and [timeout_protocol] the pointer to entry 0, and
    neither points into the array; with at least one entry every pointer
    they return points into it. *)
Theorem fallbacks_need_an_entry :
  (forall (m : memory) (target : string) (v : Z) (buf : ptr) (len : Z),
      let cfg := {| protocols := []; on_timeout := target; verbose := v |} in
      probe_buffer m cfg buf len = (PROBE_MATCH, Some (-1))
      /\ item_at cfg (-1) = None
      /\ timeout_protocol cfg = 0
      /\ item_at cfg 0 = None)
  /\ (forall (m : memory) (cfg : sslhcfg_item) (buf : ptr) (len : Z),
        protocols cfg <> [] ->
        (forall j, snd (probe_buffer m cfg buf len) = Some j ->
                   item_at cfg j <> None)
        /\ item_at cfg (timeout_protocol cfg) <> None).
Proof.
  split.
  - intros m target v buf len cfg. repeat split.
  - intros m cfg buf len Hne. split.
    + intros j. now apply probe_buffer_index_valid.
    + now apply timeout_protocol_valid.
Qed.

(** * Further properties of probe.c *)

(** ** SSH, tinc, XMPP on byte slices *)

(** X1.  On every byte slice the SSH probe answers AGAIN when the slice
    has fewer than four bytes, MATCH when it begins with [SSH-] and NEXT
    otherwise. *)
Theorem ssh_probe_outcome (b : list byte) (p : ptr) (beyond : memory)
    (d : data_t) :
  probe_on is_ssh_protocol b p beyond d
  = if slice_len b <? 4 then PROBE_AGAIN
    else if starts_with (lit "SSH-") b then PROBE_MATCH else PROBE_NEXT.
Proof.
  unfold probe_on.
  rewrite is_ssh_protocol_result by apply slice_len_nonneg.
  now rewrite bytes_place.
Qed.

(** X2.  On every byte slice the tinc probe answers AGAIN when the slice
    has fewer than two bytes, MATCH when it begins with a zero digit and
    a space, and NEXT otherwise. *)
Theorem tinc_probe_outcome (b : list byte) (p : ptr) (beyond : memory)
    (d : data_t) :
  probe_on is_tinc_protocol b p beyond d
  = if slice_len b <? 2 then PROBE_AGAIN
    else if starts_with [x30; x20] b then PROBE_MATCH else PROBE_NEXT.
Proof.
  unfold probe_on.
  rewrite is_tinc_protocol_result by apply slice_len_nonneg.
  now rewrite bytes_place.
Qed.

(** X3.  On every byte slice the XMPP probe answers MATCH when [jabber]
    occurs somewhere in the slice; otherwise AGAIN when the slice has
    fewer than 50 bytes and NEXT when it has 50 or more. *)
Theorem xmpp_probe_outcome (b : list byte) (p : ptr) (beyond : memory)
    (d : data_t) :
  slice_len b <= INT_MAX ->
  probe_on is_xmpp_protocol b p beyond d
  = if contains (lit "jabber") b then PROBE_MATCH
    else if slice_len b <? 50 then PROBE_AGAIN else PROBE_NEXT.
Proof.
  intros Hlen. unfold probe_on.
  rewrite is_xmpp_protocol_result
    by (pose proof (slice_len_nonneg b); lia).
  now rewrite bytes_place.
Qed.

(** ** The regex probe *)

Lemma regex_loop_run (m : memory) (p : ptr) (len : Z) (l : list regex_t) :
  result m (regex_loop p len l)
  = (if existsb (fun re => result m (regexec re p 0 len) =? 0) l
     then PROBE_MATCH else PROBE_NEXT)
  /\ reads m (regex_loop p len l)
     = flat_map (fun re => reads m (regexec re p 0 len))
         (tried (fun re => result m (regexec re p 0 len) =? 0) l).
Proof.
  induction l as [| re l [IHr IHt]]; [now split |].
  cbn [regex_loop existsb tried]. rewrite result_bind, reads_bind.
  destruct (result m (regexec re p 0 len) =? 0); cbn [negb orb flat_map].
  - split; [reflexivity |]. now rewrite reads_ret.
  - split; [exact IHr |]. now rewrite IHt.
Qed.

(** X4.  The regex probe answers MATCH when [regexec] accepts (returns
    0 for) one of the patterns of the entry and NEXT when it accepts
    none, never AGAIN; it runs the patterns in order and none after the
    first one accepted, each on the whole slice. *)
Theorem regex_probe_outcome (m : memory) (p : ptr) (len : Z) (d : data_t) :
  let accepted := fun re => result m (regexec re p 0 len) =? 0 in
  result m (regex_probe p len d)
  = (if existsb accepted (regex_list d) then PROBE_MATCH else PROBE_NEXT)
  /\ result m (regex_probe p len d) <> PROBE_AGAIN
  /\ reads m (regex_probe p len d)
     = flat_map (fun re => reads m (regexec re p 0 len))
         (tried accepted (regex_list d)).
Proof.
  intros accepted. unfold regex_probe.
  destruct (regex_loop_run m p len (regex_list d)) as [Hr Ht].
  split; [exact Hr |]. split; [| exact Ht].
  rewrite Hr. fold accepted. now destruct (existsb accepted (regex_list d)).
Qed.

(** ** The values probes return *)

Lemma lnot_outcome (r : Z) : probe_outcome (lnot r).
Proof. unfold probe_outcome, lnot. destruct (r =? 0); auto. Qed.

Lemma PROBE_HTTP_METHOD_outcome (m : memory) (p : ptr) (len : Z) (opt : string)
    (k : Rd Z) :
  probe_outcome (result m k) ->
  probe_outcome (result m (PROBE_HTTP_METHOD p len opt k)).
Proof.
  intros Hk. unfold PROBE_HTTP_METHOD, probe_http_method.
  rewrite result_bind.
  destruct (to_size_t len <? strlen (lit opt)).
  - rewrite result_ret. cbn. unfold probe_outcome. auto.
  - rewrite result_bind, result_ret.
    destruct (negb (lnot _ =? PROBE_NEXT)); [| exact Hk].
    rewrite result_ret. apply lnot_outcome.
Qed.

Lemma probe_adb_cnxn_message_outcome (m : memory) (q : ptr) :
  probe_outcome (result m (probe_adb_cnxn_message q)).
Proof.
  unfold probe_adb_cnxn_message, probe_outcome. rewrite result_bind.
  destruct (lnot _ =? 0); [rewrite result_ret; auto |].
  rewrite result_bind, result_ret. destruct (lnot _ =? 0); auto.
Qed.

Lemma socks5_methods_outcome (m : memory) (p : ptr) (k : nat) (i : Z) :
  probe_outcome (result m (socks5_methods p i k)).
Proof.
  rewrite socks5_methods_result. unfold probe_outcome.
  destruct (existsb _ _); auto.
Qed.

Lemma builtin_outcome (pname : string) (P : T_PROBE) :
  In (pname, P) builtins \/ (pname, P) = ("regex"%string, regex_probe) ->
  forall (m : memory) (p : ptr) (len : Z) (d : data_t),
    probe_outcome (result m (P p len d)).
Proof.
  intros Hin m p len d. destruct Hin as [Hin | Hin].
  - unfold builtins in Hin. simpl in Hin.
    repeat (destruct Hin as [Hin | Hin];
            [injection Hin as <- <- |]); try contradiction.
    + unfold is_ssh_protocol. destruct (len <? 4).
      * unfold probe_outcome. auto.
      * rewrite result_bind, result_ret. apply lnot_outcome.
    + unfold is_openvpn_protocol, probe_outcome. destruct (len <? 2); auto.
      rewrite result_bind, result_ret. destruct (_ =? len - 2); auto.
    + unfold is_tinc_protocol. destruct (len <? 2).
      * unfold probe_outcome. auto.
      * rewrite result_bind, result_ret. apply lnot_outcome.
    + unfold is_xmpp_protocol, probe_outcome. rewrite result_bind.
      destruct (result m (memmem _ _ _)); auto.
      destruct (len <? 50); auto.
    + unfold is_http_protocol. rewrite result_bind.
      destruct (result m (memmem _ _ _)); [unfold probe_outcome; auto |].
      repeat apply PROBE_HTTP_METHOD_outcome. unfold probe_outcome. auto.
    + unfold is_tls_protocol, probe_outcome. rewrite result_bind, result_ret.
      destruct (_ =? TLS_MATCH); auto.
      destruct (_ =? TLS_NOMATCH); auto.
      destruct (_ =? TLS_ELENGTH); auto.
    + unfold is_adb_protocol. destruct (_ <? min_data_packet_size);
        [unfold probe_outcome; auto |].
      rewrite result_bind.
      destruct (_ =? PROBE_MATCH); [unfold probe_outcome; auto |].
      destruct (_ <? _); [unfold probe_outcome; auto |].
      rewrite result_bind.
      destruct (negb _); [unfold probe_outcome; auto |].
      apply probe_adb_cnxn_message_outcome.
    + unfold is_socks5_protocol. destruct (len <? 2);
        [unfold probe_outcome; auto |].
      rewrite result_bind, result_load.
      destruct (negb _); [unfold probe_outcome; auto |].
      rewrite result_bind, result_load.
      destruct (_ || _); [unfold probe_outcome; auto |].
      destruct (len <? _); [unfold probe_outcome; auto |].
      apply socks5_methods_outcome.
    + unfold probe_outcome. auto.
  - injection Hin as -> ->. unfold regex_probe.
    destruct (regex_loop_run m p len (regex_list d)) as [Hr _].
    rewrite Hr. unfold probe_outcome. destruct (existsb _ _); auto.
Qed.

(** X5.  Every built-in probe, and the regex probe, returns PROBE_NEXT,
    PROBE_MATCH or PROBE_AGAIN on every input, whatever [len] and
    whatever [parse_tls_header] and [regexec] return: the value
    is always an index of [probe_str] in [probe_buffer]. *)
Theorem probe_results_in_range (pname : string) (P : T_PROBE) :
  In (pname, P) builtins \/ (pname, P) = ("regex"%string, regex_probe) ->
  forall (m : memory) (p : ptr) (len : Z) (d : data_t),
    0 <= result m (P p len d) <= 2
    /\ (result m (P p len d) = PROBE_NEXT
        \/ result m (P p len d) = PROBE_MATCH
        \/ result m (P p len d) = PROBE_AGAIN).
Proof.
  intros Hin m p len d.
  pose proof (builtin_outcome pname P Hin m p len d) as H.
  split; [| exact H].
  unfold probe_outcome, PROBE_NEXT, PROBE_MATCH, PROBE_AGAIN in H.
  destruct H as [H | [H | H]]; rewrite H; lia.
Qed.

(** ** The registry *)

Lemma get_probe_from_sound (table : list (string * T_PROBE))
    (description : string) (P : T_PROBE) :
  get_probe_from table description = Some P ->
  In (description, P) table
  \/ (description, P) = ("regex"%string, regex_probe)
  \/ (description, P) = ("timeout"%string, is_true).
Proof.
  induction table as [| [n pr] table IH]; cbn [get_probe_from].
  - destruct (String.eqb_spec description "regex") as [-> |].
    + intros H. injection H as <-. right. now left.
    + destruct (String.eqb_spec description "timeout") as [-> |];
        [| discriminate].
      intros H. injection H as <-. right. now right.
  - destruct (String.eqb_spec n description) as [-> |].
    + intros H. injection H as <-. left. now left.
    + intros H. apply IH in H as [H | H]; [left; now right | now right].
Qed.

(** X6.  [get_probe] resolves exactly eleven names: each name of
    [builtins] to the probe the table pairs it with, [regex] to the regex
    probe and [timeout] to the always-match probe [is_true], which is
    also the probe of [anyprot]; for any other description it returns
    NULL. *)
Theorem get_probe_resolves (description : string) (P : T_PROBE) :
  (get_probe description = Some P
   <-> In (description, P) builtins
       \/ (description, P) = ("regex"%string, regex_probe)
       \/ (description, P) = ("timeout"%string, is_true))
  /\ (get_probe description = None
      <-> ~ In description
            [ "ssh"; "openvpn"; "tinc"; "xmpp"; "http"; "tls"; "adb";
              "socks5"; "anyprot"; "regex"; "timeout" ]%string)
  /\ get_probe "timeout" = get_probe "anyprot".
Proof.
  assert (Hcomplete :
    forall d Q,
      In (d, Q) builtins
      \/ (d, Q) = ("regex"%string, regex_probe)
      \/ (d, Q) = ("timeout"%string, is_true) ->
      get_probe d = Some Q).
  { intros d Q [Hin | [Hin | Hin]].
    - unfold builtins in Hin. simpl in Hin.
      repeat (destruct Hin as [Hin | Hin];
              [injection Hin as <- <-; reflexivity |]).
      contradiction.
    - injection Hin as -> ->. reflexivity.
    - injection Hin as -> ->. reflexivity. }
  split; [| split].
  - split; [apply get_probe_from_sound | apply Hcomplete].
  - split.
    + intros Hnone Hin. simpl in Hin.
      repeat (destruct Hin as [<- | Hin]; [discriminate Hnone |]).
      contradiction.
    + intros Hnot. destruct (get_probe description) as [Q |] eqn:E;
        [| reflexivity].
      exfalso. apply Hnot.
      apply get_probe_from_sound in E as [E | [E | E]].
      * unfold builtins in E. simpl in E.
        repeat (destruct E as [E | E];
                [injection E as <- _; simpl; tauto |]).
        contradiction.
      * injection E as -> _. simpl. tauto.
      * injection E as -> _. simpl. tauto.
  - reflexivity.
Qed.

(** ** The timeout fallback *)

Lemma timeout_loop_some (target : string) (rest : list sslhcfg_protocols_item)
    (i j : Z) :
  timeout_loop target i rest = Some j ->
  exists e,
    nth_error rest (Z.to_nat (j - i)) = Some e
    /\ name e = target
    /\ forall k e', (k < Z.to_nat (j - i))%nat ->
                    nth_error rest k = Some e' -> name e' <> target.
Proof.
  revert i. induction rest as [| x rest IH]; intros i; [discriminate |].
  cbn [timeout_loop]. destruct (String.eqb_spec (name x) target) as [E | E].
  - intros H. injection H as <-. exists x. rewrite Z.sub_diag.
    split; [reflexivity |]. split; [exact E |]. intros k e' Hk. simpl in Hk. lia.
  - intros H. pose proof (timeout_loop_index _ _ _ _ H) as Hj.
    apply IH in H as (e & Hnth & Hname & Hbefore).
    exists e.
    replace (Z.to_nat (j - i)) with (S (Z.to_nat (j - (i + 1)))) by lia.
    split; [exact Hnth |]. split; [exact Hname |].
    intros [| k] e' Hk Hk'.
    + injection Hk' as <-. exact E.
    + apply (Hbefore k e'); [lia | exact Hk'].
Qed.

Lemma timeout_loop_none (target : string) (rest : list sslhcfg_protocols_item)
    (i : Z) :
  timeout_loop target i rest = None <->
  forall e, In e rest -> name e <> target.
Proof.
  revert i. induction rest as [| x rest IH]; intros i; cbn [timeout_loop].
  - split; [intros _ e [] | reflexivity].
  - destruct (String.eqb_spec (name x) target) as [E | E].
    + split; [discriminate |]. intros H. exfalso. apply (H x); [now left | exact E].
    + rewrite IH. split.
      * intros H e [<- | He]; [exact E | now apply H].
      * intros H e He. apply H. now right.
Qed.

(** X7.  [timeout_protocol] returns the first entry, in configured
    order, whose name is [cfg.on_timeout]; when no entry has that name
    it returns entry 0, whatever its name. *)
Theorem timeout_protocol_first_named (cfg : sslhcfg_item) :
  ((exists e, In e (protocols cfg) /\ name e = on_timeout cfg) ->
   exists e,
     item_at cfg (timeout_protocol cfg) = Some e
     /\ name e = on_timeout cfg
     /\ forall j e', 0 <= j < timeout_protocol cfg ->
                     item_at cfg j = Some e' -> name e' <> on_timeout cfg)
  /\ ((forall e, In e (protocols cfg) -> name e <> on_timeout cfg) ->
      timeout_protocol cfg = 0).
Proof.
  unfold timeout_protocol. split.
  - intros [e0 [Hin Hname]].
    destruct (timeout_loop (on_timeout cfg) 0 (protocols cfg)) as [i |] eqn:E.
    + pose proof (timeout_loop_index _ _ _ _ E) as Hi.
      apply timeout_loop_some in E as (e & Hnth & Hn & Hbefore).
      rewrite Z.sub_0_r in Hnth, Hbefore.
      exists e. unfold item_at.
      destruct (Z.ltb_spec i 0); [lia |].
      split; [exact Hnth |]. split; [exact Hn |].
      intros j e' Hj. destruct (Z.ltb_spec j 0); [lia |].
      apply Hbefore. lia.
    + exfalso. rewrite timeout_loop_none in E. now apply (E e0).
  - intros Hnone. apply (timeout_loop_none _ _ 0) in Hnone.
    now rewrite Hnone.
Qed.

(** ** What the arbiter returns *)

Lemma verdict_shape (m : memory) (buf : ptr) (len n again : Z)
    (chain : list (item_ptr * sslhcfg_protocols_item)) :
  verdict m buf len n again chain = (PROBE_AGAIN, None)
  \/ exists j,
       verdict m buf len n again chain = (PROBE_MATCH, Some j)
       /\ ((exists e, In (j, e) chain) \/ j = n - 1).
Proof.
  unfold verdict.
  destruct (find _ chain) as [[i e] |] eqn:E.
  - right. exists i. split; [reflexivity |].
    apply find_some in E as [E _]. left. now exists e.
  - destruct (_ || _); [now left |].
    right. exists (n - 1). split; [reflexivity | now right].
Qed.

Lemma probe_buffer_shape (m : memory) (cfg : sslhcfg_item) (buf : ptr) (len : Z) :
  probe_buffer m cfg buf len = (PROBE_AGAIN, None)
  \/ exists j,
       probe_buffer m cfg buf len = (PROBE_MATCH, Some j)
       /\ (protocols cfg <> [] -> exists e, item_at cfg j = Some e).
Proof.
  unfold probe_buffer.
  rewrite probe_loop_spec by (unfold protocols_len; lia). cbn [fst].
  destruct (verdict_shape m buf len (protocols_len cfg) 0
              (filter has_probe
                 (short_of_anyprot (numbered_from 0 (protocols cfg)))))
    as [H | (j & H & Hj)]; [now left |].
  right. exists j. split; [exact H |]. intros Hne.
  destruct Hj as [[e He] | ->].
  - exists e. now apply scanned_item_at.
  - destruct (protocols cfg) as [| e0 l] eqn:E; [contradiction |].
    exists (last (protocols cfg) e0). apply item_at_last.
    rewrite E. discriminate.
Qed.

(** X8.  [probe_buffer] returns PROBE_AGAIN or PROBE_MATCH, never
    PROBE_NEXT: AGAIN comes with [*proto] NULL, MATCH with [*proto]
    pointing to an entry, which lies inside [cfg.protocols] as soon as
    the list is not empty. *)
Theorem probe_buffer_returns (m : memory) (cfg : sslhcfg_item) (buf : ptr)
    (len : Z) :
  probe_buffer m cfg buf len = (PROBE_AGAIN, None)
  \/ exists j,
       probe_buffer m cfg buf len = (PROBE_MATCH, Some j)
       /\ (protocols cfg <> [] -> exists e, item_at cfg j = Some e).
Proof. apply probe_buffer_shape. Qed.

(** X9.  Whatever [read] returned, [probe_client_protocol] returns
    PROBE_AGAIN with [cnx->proto] NULL, or PROBE_MATCH with [cnx->proto]
    pointing to an entry, inside [cfg.protocols] as soon as the list is
    not empty; it returns AGAIN only after a read of at least one
    byte. *)
Theorem probe_client_protocol_returns (m : memory) (cfg : sslhcfg_item)
    (cnx : connection) (n : Z) (buffer : list byte) :
  let r := probe_client_protocol m cfg cnx n buffer in
  (fst r = PROBE_AGAIN /\ proto (snd (snd r)) = None /\ 0 < n)
  \/ (fst r = PROBE_MATCH
      /\ exists j,
           proto (snd (snd r)) = Some j
           /\ (protocols cfg <> [] -> exists e, item_at cfg j = Some e)).
Proof.
  unfold probe_client_protocol.
  destruct (Z.gtb_spec n 0) as [Hn | Hn].
  - unfold defer_write.
    match goal with
    | |- context [probe_buffer ?mm cfg ?bb ?ll] =>
        destruct (probe_buffer_shape mm cfg bb ll) as [H | (j & H & Hj)];
        rewrite H
    end.
    + left. cbn. repeat split. lia.
    + right. cbn. split; [reflexivity |]. now exists j.
  - right. cbn. split; [reflexivity |].
    exists (protocols_len cfg - 1). split; [reflexivity |].
    intros Hne. destruct (protocols cfg) as [| e0 l] eqn:E; [contradiction |].
    exists (last (protocols cfg) e0). apply item_at_last.
    rewrite E. discriminate.
Qed.

(** ** The probes the arbiter calls *)

Lemma probe_loop_calls_sorted (m : memory) (buf : ptr) (len n : Z)
    (rest : list sslhcfg_protocols_item) (i again : Z) :
  StronglySorted Z.lt (snd (probe_loop m buf len n i rest again))
  /\ Forall (fun j => i <= j) (snd (probe_loop m buf len n i rest again)).
Proof.
  revert i again. induction rest as [| e rest IH]; intros i again.
  - cbn. split; constructor.
  - cbn [probe_loop].
    assert (Hnext : forall a,
      StronglySorted Z.lt (snd (probe_loop m buf len n (i + 1) rest a))
      /\ Forall (fun j => i <= j) (snd (probe_loop m buf len n (i + 1) rest a))
      /\ Forall (fun j => i < j) (snd (probe_loop m buf len n (i + 1) rest a))).
    { intros a. destruct (IH (i + 1) a) as [H1 H2].
      split; [exact H1 |].
      split; (eapply Forall_impl; [| exact H2]); cbv beta; intros; lia. }
    destruct (probe e) as [pr |]; [| destruct (Hnext again) as (? & ? & ?); now split].
    destruct ((i =? n - 1) && _); [cbn; split; constructor |].
    destruct (minlength_is_present e && _);
      [destruct (Hnext (again + 1)) as (? & ? & ?); now split |].
    cbv zeta. destruct (_ =? PROBE_MATCH).
    + cbn. split; repeat constructor. lia.
    + match goal with
      | |- context [probe_loop m buf len n (i + 1) rest ?a] =>
          destruct (Hnext a) as (H1 & H2 & H3);
          destruct (probe_loop m buf len n (i + 1) rest a) as [out called]
      end.
      cbn in *. split; constructor; auto. lia.
Qed.

Lemma in_upto_match (m : memory) (buf : ptr) (len : Z)
    (chain : list (item_ptr * sslhcfg_protocols_item))
    (x : item_ptr * sslhcfg_protocols_item) :
  In x (upto_match m buf len chain) -> In x chain.
Proof.
  induction chain as [| y chain IH]; [trivial |].
  cbn [upto_match]. destruct (_ =? PROBE_MATCH).
  - intros [H | []]. now left.
  - intros [H | H]; [now left | right; now apply IH].
Qed.

Lemma short_of_anyprot_not_final (l : list sslhcfg_protocols_item) (i : Z)
    (x : item_ptr * sslhcfg_protocols_item) :
  In x (short_of_anyprot (numbered_from i l)) ->
  ~ (fst x = i + Z.of_nat (length l) - 1 /\ named_anyprot x = true).
Proof.
  revert i. induction l as [| e l IH]; intros i; [intros [] |].
  cbn [numbered_from]. rewrite short_of_anyprot_cons.
  destruct l as [| e' l'].
  - cbn [numbered_from]. destruct (named_anyprot (i, e)) eqn:E; [intros [] |].
    intros [<- | []] [_ H]. congruence.
  - change (match numbered_from (i + 1) (e' :: l') with
            | [] => if named_anyprot (i, e) then [] else [(i, e)]
            | _ :: _ => (i, e) :: short_of_anyprot
                                    (numbered_from (i + 1) (e' :: l'))
            end)
      with ((i, e) :: short_of_anyprot (numbered_from (i + 1) (e' :: l'))).
    intros [<- | H] [H1 H2].
    + cbn [fst length] in H1. lia.
    + apply (IH (i + 1) H). split; [| exact H2].
      cbn [length] in H1 |- *. lia.
Qed.

(** X10.  The probes [probe_buffer] calls are called in configured
    order, each at most once; an entry whose probe is called has a
    probe, has no [minlength] above the length of the buffer, and is
    not a last entry named [anyprot]: the probe of a final [anyprot]
    is never called. *)
Theorem probe_buffer_calls_in_order (m : memory) (cfg : sslhcfg_item)
    (buf : ptr) (len : Z) :
  StronglySorted Z.lt (probe_buffer_calls m cfg buf len)
  /\ forall j, In j (probe_buffer_calls m cfg buf len) ->
       exists e pr,
         item_at cfg j = Some e
         /\ probe e = Some pr
         /\ (minlength_is_present e = true -> minlength e <= len)
         /\ ~ (j = protocols_len cfg - 1 /\ name e = "anyprot"%string).
Proof.
  split.
  - unfold probe_buffer_calls. apply probe_loop_calls_sorted.
  - intros j. unfold probe_buffer_calls.
    rewrite probe_loop_spec by (unfold protocols_len; lia). cbn [snd].
    unfold calls_of. rewrite in_map_iff.
    intros [[j' e] [Hj Hin]]. cbn [fst] in Hj. subst j'.
    apply filter_In in Hin as [Hin Hshort].
    apply in_upto_match in Hin.
    pose proof (scanned_item_at cfg j e Hin) as Hat.
    apply filter_In in Hin as [Hin Hp].
    unfold has_probe in Hp. cbn [snd] in Hp.
    destruct (probe e) as [pr |] eqn:Ep; [| discriminate].
    exists e, pr. split; [exact Hat |]. split; [exact Ep |]. split.
    + intros Hpres. unfold too_short in Hshort. cbn [snd] in Hshort.
      rewrite Hpres in Hshort. cbn [andb] in Hshort.
      apply negb_true_iff, Z.ltb_ge in Hshort. exact Hshort.
    + intros [Hlast Hname].
      apply (short_of_anyprot_not_final _ _ _ Hin). cbn [fst].
      split; [unfold protocols_len in Hlast; lia |].
      unfold named_anyprot. cbn [snd]. rewrite Hname. reflexivity.
Qed.

Lemma probe_loop_match_by (m : memory) (buf : ptr) (len n : Z)
    (rest : list sslhcfg_protocols_item) (k again : Z) (t : nat)
    (e : sslhcfg_protocols_item) (pr : T_PROBE) :
  k + Z.of_nat (length rest) = n ->
  nth_error rest t = Some e ->
  probe e = Some pr ->
  minlength_is_present e && (len <? minlength e) = false ->
  result m (pr buf len (data e)) = PROBE_MATCH ->
  k + Z.of_nat t <> n - 1 \/ String.eqb (name e) "anyprot" = false ->
  exists j,
    k <= j <= k + Z.of_nat t
    /\ fst (probe_loop m buf len n k rest again) = (PROBE_MATCH, Some j).
Proof.
  revert k again t.
  induction rest as [| x rest IH]; intros k again t Hn Hnth Hp Hmin Hres Hany.
  - destruct t; discriminate.
  - destruct t as [| t].
    + injection Hnth as ->. cbn [probe_loop]. rewrite Hp, Hmin.
      replace ((k =? n - 1) && String.eqb (name e) "anyprot") with false.
      * cbv zeta. rewrite Hres. cbn. exists k. split; [lia | reflexivity].
      * symmetry. apply andb_false_iff.
        destruct Hany as [H | H]; [left; apply Z.eqb_neq; lia | now right].
    + cbn [nth_error] in Hnth.
      assert (Hstep : forall a, exists j,
                k <= j <= k + Z.of_nat (S t)
                /\ fst (probe_loop m buf len n (k + 1) rest a)
                   = (PROBE_MATCH, Some j)).
      { intros a.
        destruct (IH (k + 1) a t) as (j & Hj & Hr); try assumption.
        - cbn [length] in Hn. lia.
        - destruct Hany as [H | H]; [left; lia | now right].
        - exists j. split; [lia | exact Hr]. }
      assert (Hnotlast : (k =? n - 1) = false).
      { apply Z.eqb_neq.
        assert (t < length rest)%nat
          by (apply nth_error_Some; now rewrite Hnth).
        cbn [length] in Hn. lia. }
      cbn [probe_loop].
      destruct (probe x) as [px |]; [| apply Hstep].
      rewrite Hnotlast. cbn [andb].
      destruct (minlength_is_present x && _); [apply Hstep |].
      cbv zeta. destruct (_ =? PROBE_MATCH).
      * exists k. split; [lia | reflexivity].
      * match goal with
        | |- context [probe_loop m buf len n (k + 1) rest ?a] =>
            destruct (Hstep a) as (j & Hj & Hr);
            destruct (probe_loop m buf len n (k + 1) rest a) as [out called]
        end.
        exists j. split; [exact Hj | exact Hr].
Qed.

(** X11.  An AGAIN does not keep a later MATCH from winning: when the
    probe of some entry, other than a last entry named [anyprot],
    answers MATCH on a buffer its [minlength] admits, [probe_buffer]
    returns MATCH with that entry or an earlier one, whatever the
    earlier probes answered.  In particular an always-match entry that
    is not the last one is probed like any other and hides every entry
    after it. *)
Theorem probe_buffer_match_wins (m : memory) (cfg : sslhcfg_item) (buf : ptr)
    (len : Z) (i : item_ptr) (e : sslhcfg_protocols_item) (pr : T_PROBE) :
  item_at cfg i = Some e ->
  probe e = Some pr ->
  (minlength_is_present e = true -> minlength e <= len) ->
  result m (pr buf len (data e)) = PROBE_MATCH ->
  i <> protocols_len cfg - 1 \/ name e <> "anyprot"%string ->
  exists j, 0 <= j <= i /\ probe_buffer m cfg buf len = (PROBE_MATCH, Some j).
Proof.
  intros Hat Hp Hmin Hres Hany. unfold item_at in Hat.
  destruct (Z.ltb_spec i 0) as [| Hi]; [discriminate |].
  destruct (probe_loop_match_by m buf len (protocols_len cfg) (protocols cfg)
              0 0 (Z.to_nat i) e pr) as (j & Hj & Hr); try assumption.
  - reflexivity.
  - destruct (minlength_is_present e); [| reflexivity].
    cbn [andb]. apply Z.ltb_ge. now apply Hmin.
  - destruct Hany as [H | H]; [left; lia |].
    right. now apply String.eqb_neq.
  - exists j. split; [lia | exact Hr].
Qed.

(** ** When the recognisers stop asking for more *)

Lemma ssh_spec_decided (b : list byte) :
  4 <= slice_len b -> ssh_spec b <> PROBE_AGAIN.
Proof.
  intros H. unfold ssh_spec.
  destruct (Z.ltb_spec (slice_len b) 4); [lia |].
  destruct (starts_with _ _); discriminate.
Qed.

Lemma openvpn_spec_decided (b : list byte) :
  2 <= slice_len b -> openvpn_spec b <> PROBE_AGAIN.
Proof.
  intros H. unfold openvpn_spec.
  destruct (Z.ltb_spec (slice_len b) 2); [lia |].
  cbv zeta. destruct (_ =? _); discriminate.
Qed.

Lemma tinc_spec_decided (b : list byte) :
  2 <= slice_len b -> tinc_spec b <> PROBE_AGAIN.
Proof.
  intros H. unfold tinc_spec.
  destruct (Z.ltb_spec (slice_len b) 2); [lia |].
  destruct (starts_with _ _); discriminate.
Qed.

Lemma xmpp_spec_decided (b : list byte) :
  50 <= slice_len b -> xmpp_spec b <> PROBE_AGAIN.
Proof.
  intros H. unfold xmpp_spec.
  destruct (contains _ _); [discriminate |].
  destruct (Z.ltb_spec (slice_len b) 50); [lia | discriminate].
Qed.

Lemma first_method_decided (b : list byte) (methods : list string) :
  (forall M, In M methods -> strlen (lit M) <= slice_len b) ->
  first_method b methods <> PROBE_AGAIN.
Proof.
  induction methods as [| M methods IH]; intros H; [discriminate |].
  cbn [first_method].
  destruct (Z.ltb_spec (slice_len b) (strlen (lit M))) as [Hlt |].
  - specialize (H M (or_introl eq_refl)). lia.
  - destruct (starts_with _ _); [discriminate |].
    apply IH. intros M' HM'. apply H. now right.
Qed.

Lemma http_spec_decided (b : list byte) :
  7 <= slice_len b -> http_spec b <> PROBE_AGAIN.
Proof.
  intros H. unfold http_spec.
  destruct (contains _ _); [discriminate |].
  apply first_method_decided. intros M HM.
  unfold http_methods in HM. simpl in HM. unfold slice_len in *.
  repeat (destruct HM as [<- | HM]; [cbn; lia |]). contradiction.
Qed.

Lemma adb_spec_decided (b : list byte) :
  54 <= slice_len b -> adb_spec b <> PROBE_AGAIN.
Proof.
  intros H. unfold adb_spec.
  destruct (Z.ltb_spec (slice_len b) 30); [lia |].
  destruct (cnxn_host_at 0 b); [discriminate |].
  destruct (Z.ltb_spec (slice_len b) 54); [lia |].
  destruct (negb _); [discriminate |].
  destruct (cnxn_host_at 24 b); discriminate.
Qed.

Lemma socks5_spec_decided (b : list byte) :
  12 <= slice_len b -> socks5_spec b <> PROBE_AGAIN.
Proof.
  intros H. unfold socks5_spec.
  destruct (Z.ltb_spec (slice_len b) 2); [lia |].
  destruct (negb (byte_at b 0 =? 5)); [discriminate |].
  cbv zeta.
  destruct (Z.leb_spec 1 (byte_at b 1)); cbn [andb negb]; [| discriminate].
  destruct (Z.leb_spec (byte_at b 1) 10); cbn [negb]; [| discriminate].
  destruct (Z.ltb_spec (slice_len b) (2 + byte_at b 1)); [lia |].
  destruct (existsb _ _); discriminate.
Qed.

Lemma builtin_decided (pname : string) (P : T_PROBE) (n : Z) :
  In (pname, P) builtins ->
  In (pname, n) decided_by ->
  forall (b : list byte) (p : ptr) (beyond : memory) (d : data_t),
    n <= slice_len b <= INT_MAX ->
    probe_on P b p beyond d <> PROBE_AGAIN.
Proof.
  intros Hin Hn b p beyond d Hlen.
  unfold decided_by in Hn. simpl in Hn.
  unfold builtins in Hin. simpl in Hin.
  repeat (destruct Hin as [Hin | Hin];
          [injection Hin as <- <- |]); try contradiction;
    repeat (destruct Hn as [Hn | Hn];
            [try discriminate Hn; injection Hn as <- |]);
    try contradiction.
  - rewrite (probe_on_spec _ ssh_spec) by
      (try lia; intros; apply is_ssh_protocol_result; lia).
    apply ssh_spec_decided. lia.
  - rewrite probe_on_openvpn. apply openvpn_spec_decided. lia.
  - rewrite (probe_on_spec _ tinc_spec) by
      (try lia; intros; apply is_tinc_protocol_result; lia).
    apply tinc_spec_decided. lia.
  - rewrite (probe_on_spec _ xmpp_spec) by
      (try lia; intros; now apply is_xmpp_protocol_result).
    apply xmpp_spec_decided. lia.
  - rewrite probe_on_http by lia. apply http_spec_decided. lia.
  - rewrite (probe_on_spec _ adb_spec) by
      (try lia; intros; now apply is_adb_protocol_result).
    apply adb_spec_decided. lia.
  - rewrite (probe_on_spec _ socks5_spec) by
      (try lia; intros; apply is_socks5_protocol_result).
    apply socks5_spec_decided. lia.
  - discriminate.
Qed.

(** X12.  Each recogniser of probe.c stops answering AGAIN once the
    slice is long enough: SSH from 4 bytes, OpenVPN and tinc from 2,
    XMPP from 50, HTTP from 7, ADB from 54, SOCKS5 from 12; the
    always-match probe never answers AGAIN. *)
Theorem probes_decide_by (pname : string) (P : T_PROBE) (n : Z) :
  In (pname, P) builtins ->
  In (pname, n)
    [ ("ssh", 4); ("openvpn", 2); ("tinc", 2); ("xmpp", 50); ("http", 7);
      ("adb", 54); ("socks5", 12); ("anyprot", 0) ]%string ->
  forall (b : list byte) (p : ptr) (beyond : memory) (d : data_t),
    n <= slice_len b <= INT_MAX ->
    probe_on P b p beyond d <> PROBE_AGAIN.
Proof. apply builtin_decided. Qed.

Lemma builtin_decided_by_54 (pname : string) (P : T_PROBE) :
  In (pname, P) builtins -> pname <> "tls"%string ->
  exists n, In (pname, n) decided_by /\ n <= 54.
Proof.
  intros Hin Htls. unfold builtins in Hin. simpl in Hin.
  unfold decided_by.
  repeat (destruct Hin as [Hin | Hin];
          [injection Hin as <- _;
           first [ exfalso; apply Htls; reflexivity
                 | eexists; split; [simpl; eauto 10 | lia] ] |]).
  contradiction.
Qed.

Lemma in_numbered_from_in (l : list sslhcfg_protocols_item) (i j : Z)
    (e : sslhcfg_protocols_item) :
  In (j, e) (numbered_from i l) -> In e l.
Proof.
  intros H. apply in_numbered_from in H as [_ H].
  now apply nth_error_In in H.
Qed.

(** X13.  A configuration made of built-in probes of probe.c other than
    the TLS one never waits beyond 54 bytes: on a buffer of at least 54
    bytes that no [minlength] exceeds, [probe_buffer] returns MATCH. *)
Theorem probe_buffer_never_waits (cfg : sslhcfg_item) (b : list byte)
    (buf : ptr) (beyond : memory) :
  (forall e pr, In e (protocols cfg) -> probe e = Some pr ->
                exists pname,
                  In (pname, pr) builtins /\ pname <> "tls"%string) ->
  (forall e, In e (protocols cfg) -> minlength_is_present e = true ->
             minlength e <= slice_len b) ->
  54 <= slice_len b <= INT_MAX ->
  exists j,
    probe_buffer (place b buf beyond) cfg buf (slice_len b)
    = (PROBE_MATCH, Some j).
Proof.
  intros Hprobes Hmin Hlen.
  destruct (probe_buffer_shape (place b buf beyond) cfg buf (slice_len b))
    as [H | (j & H & _)]; [| now exists j].
  exfalso. revert H. unfold probe_buffer.
  rewrite probe_loop_spec by (unfold protocols_len; lia). cbn [fst].
  unfold verdict.
  destruct (find _ _) as [[i e] |]; [discriminate |].
  cbn [negb Z.eqb orb].
  match goal with
  | |- context [existsb ?f ?l] => destruct (existsb f l) eqn:E
  end; [| discriminate].
  intros _. apply existsb_exists in E as [[i e] [Hin Hc]].
  apply Z.eqb_eq in Hc.
  apply filter_In in Hin as [Hin Hp].
  apply in_short_of_anyprot, in_numbered_from_in in Hin.
  unfold contribution, too_short in Hc. cbn [snd] in Hc.
  unfold has_probe in Hp. cbn [snd] in Hp.
  destruct (probe e) as [pr |] eqn:Ep; [| discriminate].
  destruct (minlength_is_present e) eqn:Epres; cbn [andb] in Hc.
  - specialize (Hmin e Hin Epres).
    destruct (Z.ltb_spec (slice_len b) (minlength e)); [lia |].
    destruct (Hprobes e pr Hin Ep) as (pname & Hb & Htls).
    destruct (builtin_decided_by_54 pname pr Hb Htls) as (n & Hn & Hn54).
    apply (builtin_decided pname pr n Hb Hn b buf beyond (data e));
      [lia | exact Hc].
  - destruct (Hprobes e pr Hin Ep) as (pname & Hb & Htls).
    destruct (builtin_decided_by_54 pname pr Hb Htls) as (n & Hn & Hn54).
    apply (builtin_decided pname pr n Hb Hn b buf beyond (data e));
      [lia | exact Hc].
Qed.

(** ** Verdicts that more bytes cannot change *)

Lemma ssh_spec_final (b ext : list byte) :
  ssh_spec b <> PROBE_AGAIN -> ssh_spec (b ++ ext) = ssh_spec b.
Proof.
  unfold ssh_spec. rewrite slice_len_app.
  pose proof (slice_len_nonneg ext).
  destruct (Z.ltb_spec (slice_len b) 4) as [| H4]; [congruence |].
  destruct (Z.ltb_spec (slice_len b + slice_len ext) 4); [lia |].
  intros _. rewrite starts_with_app_long; [reflexivity |].
  unfold slice_len in H4. simpl. lia.
Qed.

Lemma tinc_spec_final (b ext : list byte) :
  tinc_spec b <> PROBE_AGAIN -> tinc_spec (b ++ ext) = tinc_spec b.
Proof.
  unfold tinc_spec. rewrite slice_len_app.
  pose proof (slice_len_nonneg ext).
  destruct (Z.ltb_spec (slice_len b) 2) as [| H2]; [congruence |].
  destruct (Z.ltb_spec (slice_len b + slice_len ext) 2); [lia |].
  intros _. rewrite starts_with_app_long; [reflexivity |].
  unfold slice_len in H2. simpl. lia.
Qed.

Lemma adb_spec_final (b ext : list byte) :
  adb_spec b <> PROBE_AGAIN -> adb_spec (b ++ ext) = adb_spec b.
Proof.
  unfold adb_spec. rewrite slice_len_app.
  pose proof (slice_len_nonneg ext).
  destruct (Z.ltb_spec (slice_len b) 30) as [| H30]; [congruence |].
  destruct (Z.ltb_spec (slice_len b + slice_len ext) 30); [lia |].
  unfold slice_len in H30.
  rewrite cnxn_host_at_app by lia.
  destruct (cnxn_host_at 0 b); [reflexivity |].
  destruct (Z.ltb_spec (slice_len b) 54) as [| H54]; [congruence |].
  destruct (Z.ltb_spec (slice_len b + slice_len ext) 54); [lia |].
  unfold slice_len in H54. intros _.
  rewrite cnxn_host_at_app by lia.
  rewrite starts_with_app_long by (simpl; lia).
  reflexivity.
Qed.

Lemma socks5_spec_final (b ext : list byte) :
  socks5_spec b <> PROBE_AGAIN -> socks5_spec (b ++ ext) = socks5_spec b.
Proof.
  unfold socks5_spec. rewrite slice_len_app.
  pose proof (slice_len_nonneg ext).
  destruct (Z.ltb_spec (slice_len b) 2) as [| H2]; [congruence |].
  destruct (Z.ltb_spec (slice_len b + slice_len ext) 2); [lia |].
  unfold slice_len in H2.
  rewrite !byte_at_app by lia.
  destruct (negb (byte_at b 0 =? 5)); [reflexivity |].
  cbv zeta.
  destruct (negb ((1 <=? byte_at b 1) && (byte_at b 1 <=? 10)));
    [reflexivity |].
  destruct (Z.ltb_spec (slice_len b) (2 + byte_at b 1)) as [| Hm];
    [congruence |].
  destruct (Z.ltb_spec (slice_len b + slice_len ext) (2 + byte_at b 1));
    [lia |].
  unfold slice_len in Hm. intros _.
  rewrite skipn_app_long, firstn_app by lia.
  rewrite length_skipn.
  replace (Z.to_nat (byte_at b 1) - (length b - 2))%nat with 0%nat by lia.
  now rewrite app_nil_r.
Qed.

Lemma final_of_spec (P : T_PROBE) (spec : list byte -> Z) :
  (forall d m p len, 0 <= len <= INT_MAX ->
                     result m (P p len d) = spec (bytes m p len)) ->
  (forall b ext, spec b <> PROBE_AGAIN -> spec (b ++ ext) = spec b) ->
  final_verdict P.
Proof.
  intros HP Hfin b ext p p' beyond beyond' d Hlen.
  assert (Hlen' : slice_len b <= INT_MAX).
  { rewrite slice_len_app in Hlen. pose proof (slice_len_nonneg ext). lia. }
  rewrite !(probe_on_spec P spec d (HP d)) by assumption.
  apply Hfin.
Qed.

(** X14.  Among the recognisers of probe.c, those of SSH, tinc, ADB
    and SOCKS5 and the always-match probe, and only those, give final
    verdicts: once such a probe has answered MATCH or NEXT on a slice
    it gives the same answer on every longer slice that begins with
    it.  The OpenVPN, XMPP and HTTP probes can change their answer when
    more bytes arrive. *)
Theorem final_verdicts (d0 : data_t) (pname : string) (P : T_PROBE) :
  In (pname, P) builtins -> pname <> "tls"%string ->
  (final_verdict P
   <-> In pname [ "ssh"; "tinc"; "adb"; "socks5"; "anyprot" ]%string).
Proof.
  intros Hin Htls. unfold builtins in Hin. simpl in Hin.
  repeat (destruct Hin as [Hin | Hin];
          [injection Hin as <- <- |]); try contradiction.
  - split; [intros _; simpl; auto 10 | intros _].
    apply (final_of_spec _ ssh_spec); [| apply ssh_spec_final].
    intros. apply is_ssh_protocol_result. lia.
  - split; [| simpl; intros H; repeat (destruct H as [H | H]; try discriminate H);
               contradiction].
    intros Hfin. exfalso.
    specialize (Hfin [x00; x00] [x00] 0 0 zeroes zeroes d0).
    rewrite !probe_on_openvpn in Hfin.
    assert (E := Hfin ltac:(vm_compute; discriminate)
                      ltac:(vm_compute; discriminate)).
    vm_compute in E. discriminate E.
  - split; [intros _; simpl; auto 10 | intros _].
    apply (final_of_spec _ tinc_spec); [| apply tinc_spec_final].
    intros. apply is_tinc_protocol_result. lia.
  - split; [| simpl; intros H; repeat (destruct H as [H | H]; try discriminate H);
               contradiction].
    intros Hfin. exfalso.
    specialize (Hfin (repeat x00 50) (lit "jabber") 0 0 zeroes zeroes d0).
    rewrite !(probe_on_spec _ xmpp_spec d0
                (fun m p len H => is_xmpp_protocol_result m p len d0 H))
      in Hfin by (vm_compute; discriminate).
    assert (E := Hfin ltac:(vm_compute; discriminate)
                      ltac:(vm_compute; discriminate)).
    vm_compute in E. discriminate E.
  - split; [| simpl; intros H; repeat (destruct H as [H | H]; try discriminate H);
               contradiction].
    intros Hfin. exfalso.
    specialize (Hfin (repeat x00 7) (lit "HTTP") 0 0 zeroes zeroes d0).
    rewrite !probe_on_http in Hfin by (vm_compute; discriminate).
    assert (E := Hfin ltac:(vm_compute; discriminate)
                      ltac:(vm_compute; discriminate)).
    vm_compute in E. discriminate E.
  - split; [intros _; simpl; auto 10 | intros _].
    apply (final_of_spec _ adb_spec); [| apply adb_spec_final].
    intros. now apply is_adb_protocol_result.
  - split; [intros _; simpl; auto 10 | intros _].
    apply (final_of_spec _ socks5_spec); [| apply socks5_spec_final].
    intros. apply is_socks5_protocol_result.
  - split; [intros _; simpl; auto 10 | intros _].
    intros b ext p p' beyond beyond' d _ _. reflexivity.
Qed.

(** ** hexdump *)

Lemma land_255_to_char (z : Z) :
  0 <= z <= 255 -> Z.land 255 (to_char char_is_signed z) = z.
Proof.
  intros Hz. rewrite Z.land_comm. change 255 with (Z.ones 8).
  rewrite Z.land_ones by lia. change (2 ^ 8) with 256.
  unfold to_char. destruct char_is_signed.
  - destruct (Z.ltb_spec z 128).
    + apply Z.mod_small. lia.
    + replace (z - 256) with (z + (-1) * 256) by lia.
      rewrite Z.mod_add by lia. apply Z.mod_small. lia.
  - apply Z.mod_small. lia.
Qed.

Lemma byte_of_uchar (c : byte) : byte_of (uchar c) = c.
Proof.
  unfold byte_of, uchar. now rewrite N2Z.id, Byte.of_to_N.
Qed.

Lemma hexdump_char_result (isprint : Z -> bool) (m : memory) (mem : ptr)
    (len j : Z) :
  result m (hexdump_char isprint mem len j) = text_cell isprint m mem len j.
Proof.
  unfold hexdump_char, text_cell. rewrite Z.geb_leb.
  destruct (Z.leb_spec len j); destruct (Z.ltb_spec j len); try lia;
    [reflexivity |].
  rewrite result_bind, result_load.
  destruct (isprint _); [| reflexivity].
  rewrite result_bind, result_load, result_ret.
  rewrite land_255_to_char by apply uchar_range.
  now rewrite byte_of_uchar.
Qed.

Lemma hexdump_char_reads (isprint : Z -> bool) (m : memory) (mem : ptr)
    (len j : Z) :
  0 <= j ->
  Forall (in_slice mem len) (reads m (hexdump_char isprint mem len j)).
Proof.
  intros Hj. unfold hexdump_char. rewrite Z.geb_leb.
  destruct (Z.leb_spec len j); [constructor |].
  rewrite reads_bind, reads_load, result_load.
  constructor; [unfold in_slice; lia |].
  destruct (isprint _); [| constructor].
  rewrite reads_bind, reads_load, reads_ret.
  repeat constructor; unfold in_slice; lia.
Qed.

Lemma hexdump_text_result (isprint : Z -> bool) (m : memory) (mem : ptr)
    (len : Z) (n : nat) (j : Z) :
  result m (hexdump_text isprint mem len j n)
  = concat (map (text_cell isprint m mem len) (count_from j n)).
Proof.
  revert j. induction n as [| n IH]; intros j; [reflexivity |].
  cbn [hexdump_text count_from map concat].
  rewrite !result_bind, result_ret, hexdump_char_result, IH. reflexivity.
Qed.

Lemma hexdump_text_reads (isprint : Z -> bool) (m : memory) (mem : ptr)
    (len : Z) (n : nat) (j : Z) :
  0 <= j ->
  Forall (in_slice mem len) (reads m (hexdump_text isprint mem len j n)).
Proof.
  revert j. induction n as [| n IH]; intros j Hj; [constructor |].
  cbn [hexdump_text]. rewrite !reads_bind, reads_ret, app_nil_r.
  apply Forall_app. split; [now apply hexdump_char_reads | apply IH; lia].
Qed.

Lemma hexdump_loop_reads (isprint : Z -> bool) (m : memory) (mem : ptr)
    (len : Z) (todo : nat) (i : Z) :
  0 <= i ->
  Forall (in_slice mem len) (reads m (hexdump_loop isprint mem len i todo)).
Proof.
  revert i. induction todo as [| k IH]; intros i Hi; [constructor |].
  cbn [hexdump_loop]. cbv zeta.
  rewrite !reads_bind, reads_ret, app_nil_r.
  repeat (apply Forall_app; split).
  - destruct (Z.ltb_spec i len); [| constructor].
    rewrite reads_bind, reads_load, reads_ret.
    repeat constructor; unfold in_slice; lia.
  - unfold HEXDUMP_COLS.
    destruct (Z.eqb_spec (i mod 16) (16 - 1)) as [E |]; [| constructor].
    rewrite reads_bind, reads_ret, app_nil_r.
    apply hexdump_text_reads.
    pose proof (Z.div_mod i 16 ltac:(lia)).
    assert (0 <= i / 16) by (apply Z.div_pos; lia). lia.
  - apply IH. lia.
Qed.

(** Every position below [len] the loop passes is read. *)
Lemma hexdump_loop_covers (isprint : Z -> bool) (m : memory) (mem : ptr)
    (len : Z) (todo : nat) (i k : Z) :
  i <= k < i + Z.of_nat todo -> k < len ->
  In (mem + k) (reads m (hexdump_loop isprint mem len i todo)).
Proof.
  revert i. induction todo as [| n IH]; intros i Hk Hlen; [simpl in Hk; lia |].
  cbn [hexdump_loop]. cbv zeta. rewrite reads_bind.
  destruct (Z.eq_dec i k) as [-> | Hne].
  - apply in_or_app. left.
    destruct (Z.ltb_spec k len); [| lia].
    rewrite reads_bind, reads_load. now left.
  - apply in_or_app. right. rewrite reads_bind.
    apply in_or_app. right. rewrite reads_bind.
    apply in_or_app. left. apply IH; lia.
Qed.

Lemma hexdump_bound (len : Z) :
  0 <= len <= INT_MAX ->
  to_unsigned_int
    (len + (if negb (len mod HEXDUMP_COLS =? 0)
            then HEXDUMP_COLS - len mod HEXDUMP_COLS else 0))
  = 16 * ((len + 15) / 16)
  /\ len <= 16 * ((len + 15) / 16).
Proof.
  unfold INT_MAX, HEXDUMP_COLS, to_unsigned_int. intros Hlen.
  pose proof (Z.div_mod len 16 ltac:(lia)) as Hdm.
  pose proof (Z.mod_pos_bound len 16 ltac:(lia)) as Hm.
  assert (Hq : 0 <= len / 16) by (apply Z.div_pos; lia).
  destruct (Z.eqb_spec (len mod 16) 0) as [E | E]; cbn [negb].
  - assert (Hr : (len + 15) / 16 = len / 16).
    { symmetry. apply (Z.div_unique (len + 15) 16 (len / 16) 15); lia. }
    rewrite Hr. split; [| lia]. rewrite Z.mod_small; lia.
  - assert (Hr : (len + 15) / 16 = len / 16 + 1).
    { symmetry.
      apply (Z.div_unique (len + 15) 16 (len / 16 + 1) (len mod 16 - 1)); lia. }
    rewrite Hr. split; [| lia]. rewrite Z.mod_small; lia.
Qed.

(** X15.  [hexdump] reads the [len] bytes it is given, each of them,
    and no byte outside of them; given no byte it reads nothing and
    writes nothing. *)
Theorem hexdump_reads_the_slice (isprint : Z -> bool) (m : memory)
    (mem : ptr) (len : Z) :
  0 <= len <= INT_MAX ->
  (forall a, In a (reads m (hexdump isprint mem len)) <-> in_slice mem len a)
  /\ (len = 0 -> run m (hexdump isprint mem len) = ([], [])).
Proof.
  intros Hlen. destruct (hexdump_bound len Hlen) as [Hb Hle].
  unfold hexdump. rewrite Hb. split.
  - intros a. split.
    + intros Ha.
      pose proof (hexdump_loop_reads isprint m mem len
                    (Z.to_nat (16 * ((len + 15) / 16))) 0 ltac:(lia)) as H.
      rewrite Forall_forall in H. now apply H.
    + unfold in_slice. intros Ha.
      replace a with (mem + (a - mem)) by lia.
      apply hexdump_loop_covers; lia.
  - intros ->. reflexivity.
Qed.

Lemma mod_16_row (r c : Z) : 0 <= c < 16 -> (16 * r + c) mod 16 = c.
Proof.
  intros Hc. rewrite Z.add_comm, Z.mul_comm, Z.mod_add by lia.
  apply Z.mod_small. lia.
Qed.

(** The turns of the outer loop that finish a row, from the [cols]-th
    cell from its end on. *)
Lemma hexdump_loop_cells (isprint : Z -> bool) (m : memory) (mem : ptr)
    (len : Z) (cols : nat) (r : Z) (k : nat) :
  (1 <= cols <= 16)%nat ->
  result m (hexdump_loop isprint mem len (16 * r + (16 - Z.of_nat cols))
              (cols + k))
  = (if (cols =? 16)%nat
     then lit "0x" ++ printf_0x 6 (16 * r) ++ lit ": " else [])
    ++ concat (map (hex_cell m mem len)
                 (count_from (16 * r + (16 - Z.of_nat cols)) cols))
    ++ concat (map (text_cell isprint m mem len) (count_from (16 * r) 16))
    ++ [x0a]
    ++ result m (hexdump_loop isprint mem len (16 * (r + 1)) k).
Proof.
  induction cols as [| c IH]; intros Hc; [lia |].
  set (i := 16 * r + (16 - Z.of_nat (S c))).
  assert (Hmod : i mod 16 = 16 - Z.of_nat (S c))
    by (unfold i; apply mod_16_row; lia).
  assert (Hcell :
    result m (if i <? len
              then c0 <- load (mem + i) ;;
                   Ret (printf_0x 2
                          (Z.land 255 (to_char char_is_signed (uchar c0)))
                        ++ lit " ")
              else Ret (lit "   "))
    = hex_cell m mem len i).
  { unfold hex_cell. destruct (i <? len); [| reflexivity].
    rewrite result_bind, result_load, result_ret.
    now rewrite land_255_to_char by apply uchar_range. }
  set (text := concat (map (text_cell isprint m mem len)
                         (count_from (16 * r) 16))) in *.
  change (S c + k)%nat with (S (c + k)).
  cbn [hexdump_loop count_from map concat]. cbv zeta.
  rewrite !result_bind, result_ret, Hcell. unfold HEXDUMP_COLS. rewrite Hmod.
  destruct c as [| c].
  - (* the last cell of the row *)
    change (16 - Z.of_nat 1 =? 0) with false.
    change (16 - Z.of_nat 1 =? 16 - 1) with true. cbv iota.
    rewrite result_bind, result_ret, hexdump_text_result.
    replace (i - (16 - 1)) with (16 * r) by (unfold i; lia).
    replace (i + 1) with (16 * (r + 1)) by (unfold i; lia).
    change (Z.to_nat 16) with 16%nat. fold text.
    cbn [Nat.eqb count_from map concat app Nat.add].
    rewrite app_nil_r, <- !app_assoc. reflexivity.
  - (* a cell before the last *)
    destruct (Z.eqb_spec (16 - Z.of_nat (S (S c))) (16 - 1)); [lia |].
    rewrite result_ret. cbn [app].
    replace (i + 1) with (16 * r + (16 - Z.of_nat (S c))) by (unfold i; lia).
    rewrite IH by lia.
    replace (S c =? 16)%nat with false by (symmetry; apply Nat.eqb_neq; lia).
    cbn [app].
    destruct (Nat.eqb_spec (S (S c)) 16) as [E | E].
    + destruct (Z.eqb_spec (16 - Z.of_nat (S (S c))) 0); [| lia].
      replace i with (16 * r) by (unfold i; lia).
      rewrite <- !app_assoc. reflexivity.
    + destruct (Z.eqb_spec (16 - Z.of_nat (S (S c))) 0); [lia |].
      rewrite <- !app_assoc. reflexivity.
Qed.

Lemma hexdump_loop_rows (isprint : Z -> bool) (m : memory) (mem : ptr)
    (len : Z) (n : nat) (r : Z) :
  result m (hexdump_loop isprint mem len (16 * r) (16 * n))
  = concat (map (dump_row isprint m mem len) (count_from r n)).
Proof.
  revert r. induction n as [| n IH]; intros r; [reflexivity |].
  replace (16 * S n)%nat with (16 + 16 * n)%nat by lia.
  pose proof (hexdump_loop_cells isprint m mem len 16 r (16 * n)
                ltac:(lia)) as H.
  replace (16 * r + (16 - Z.of_nat 16)) with (16 * r) in H by lia.
  rewrite H, IH. change (16 =? 16)%nat with true. cbv iota.
  assert (E : concat (map (dump_row isprint m mem len) (count_from r (S n)))
              = dump_row isprint m mem len r
                ++ concat (map (dump_row isprint m mem len)
                             (count_from (r + 1) n))) by reflexivity.
  rewrite E. unfold dump_row at 2. rewrite <- !app_assoc. reflexivity.
Qed.

Lemma hex_digits_length (k fuel : nat) (v : Z) :
  (1 <= k)%nat -> 0 <= v < 16 ^ Z.of_nat k ->
  (length (hex_digits fuel v) <= k)%nat.
Proof.
  revert k v. induction fuel as [| f IH]; intros k v Hk Hv; [simpl; lia |].
  cbn [hex_digits]. rewrite length_app. cbn [length].
  destruct (Z.ltb_spec v 16) as [| H16]; [simpl; lia |].
  destruct k as [| [| k]]; [lia | simpl in Hv; lia |].
  assert (Hdiv : 0 <= v / 16 < 16 ^ Z.of_nat (S k)).
  { split; [apply Z.div_pos; lia |].
    apply Z.div_lt_upper_bound; [lia |].
    replace (Z.of_nat (S (S k))) with (Z.succ (Z.of_nat (S k))) in Hv by lia.
    rewrite Z.pow_succ_r in Hv by lia. lia. }
  specialize (IH (S k) (v / 16) ltac:(lia) Hdiv). lia.
Qed.

Lemma printf_0x_length (w : nat) (v : Z) :
  (1 <= w)%nat -> 0 <= v < 16 ^ Z.of_nat w ->
  length (printf_0x w v) = w.
Proof.
  intros Hw Hv. unfold printf_0x. cbv zeta.
  rewrite length_app, repeat_length.
  pose proof (hex_digits_length w 8 v Hw Hv). lia.
Qed.

Lemma concat_map_length {A : Type} (f : A -> list byte) (c : nat) (l : list A) :
  (forall x, length (f x) = c) ->
  length (concat (map f l)) = (c * length l)%nat.
Proof.
  intros Hf. induction l as [| x l IH]; [simpl; lia |].
  cbn [map concat length]. rewrite length_app, Hf, IH. lia.
Qed.

Lemma count_from_length (n : nat) (j : Z) : length (count_from j n) = n.
Proof. revert j. induction n; intros; simpl; [| rewrite IHn]; reflexivity. Qed.

(** X16.  What [hexdump] writes is made of one row for every sixteen
    bytes begun: the offset of the row in hexadecimal, the sixteen bytes
    as two hexadecimal digits of their unsigned value and a space each,
    the same bytes as text, a dot standing for a byte [isprint] rejects,
    and a newline, blanks filling the cells past the end of the data.
    Each row of a dump of at most 2^24 bytes is 75 characters long. *)
Theorem hexdump_layout (isprint : Z -> bool) (m : memory) (mem : ptr)
    (len : Z) :
  0 <= len <= INT_MAX ->
  result m (hexdump isprint mem len)
  = concat (map (dump_row isprint m mem len)
              (count_from 0 (Z.to_nat ((len + 15) / 16))))
  /\ forall r, 0 <= r < 2 ^ 20 ->
       length (dump_row isprint m mem len r) = 75%nat.
Proof.
  intros Hlen. split.
  - destruct (hexdump_bound len Hlen) as [Hb _].
    unfold hexdump. rewrite Hb.
    assert (0 <= (len + 15) / 16) by (apply Z.div_pos; lia).
    rewrite Z2Nat.inj_mul by lia. change (Z.to_nat 16) with 16%nat.
    change 0 with (16 * 0) at 1. apply hexdump_loop_rows.
  - intros r Hr. unfold dump_row.
    rewrite !length_app.
    rewrite (concat_map_length (hex_cell m mem len) 3).
    + rewrite (concat_map_length (text_cell isprint m mem len) 1).
      * rewrite !count_from_length, printf_0x_length; [reflexivity | lia |].
        change (16 ^ Z.of_nat 6) with (16 * 2 ^ 20). lia.
      * intros j. unfold text_cell.
        destruct (j <? len); [destruct (isprint _) |]; reflexivity.
    + intros i. unfold hex_cell. destruct (i <? len); [| reflexivity].
      rewrite length_app, printf_0x_length; [reflexivity | lia |].
      pose proof (uchar_range (m (mem + i))).
      change (16 ^ Z.of_nat 2) with 256. lia.
Qed.

(** ** The arbiter and the bytes around the buffer *)

Lemma probe_loop_local (m m' : memory) (buf : ptr) (len n : Z)
    (rest : list sslhcfg_protocols_item) (i again : Z) :
  (forall e pr, In e rest -> probe e = Some pr ->
                result m (pr buf len (data e))
                = result m' (pr buf len (data e))) ->
  probe_loop m buf len n i rest again = probe_loop m' buf len n i rest again.
Proof.
  revert i again. induction rest as [| e rest IH]; intros i again H;
    [reflexivity |].
  cbn [probe_loop].
  assert (Hrest : forall a,
            probe_loop m buf len n (i + 1) rest a
            = probe_loop m' buf len n (i + 1) rest a).
  { intros a. apply IH. intros e' pr' He'. apply H. now right. }
  destruct (probe e) as [pr |] eqn:Ep; [| apply Hrest].
  rewrite (H e pr (or_introl eq_refl) Ep), !Hrest. reflexivity.
Qed.

(** X17.  When every configured probe gives an outcome that does not
    depend on what lies around the slice, as the probes of probe.c do,
    so does [probe_buffer]: its result and the probes it calls are the
    same whatever the memory holds outside the buffer. *)
Theorem probe_buffer_local (cfg : sslhcfg_item) (b : list byte) (buf : ptr)
    (beyond beyond' : memory) :
  (forall e pr, In e (protocols cfg) -> probe e = Some pr ->
                outcome_local pr) ->
  slice_len b <= INT_MAX ->
  probe_buffer (place b buf beyond) cfg buf (slice_len b)
  = probe_buffer (place b buf beyond') cfg buf (slice_len b)
  /\ probe_buffer_calls (place b buf beyond) cfg buf (slice_len b)
     = probe_buffer_calls (place b buf beyond') cfg buf (slice_len b).
Proof.
  intros Hloc Hlen. unfold probe_buffer, probe_buffer_calls.
  rewrite (probe_loop_local (place b buf beyond) (place b buf beyond'));
    [now split |].
  intros e pr He Hp. apply (Hloc e pr He Hp b buf beyond beyond' (data e) Hlen).
Qed.

(** ** Always-match entries *)

(** X18.  An entry whose probe is what [get_probe] gives for [timeout]
    or for [anyprot], and that has no [minlength], makes [probe_buffer]
    return MATCH with that entry or an earlier one on every buffer,
    unless it is the last entry and is named [anyprot]: no entry after
    it is ever selected and AGAIN is never returned. *)
Theorem always_match_entry_hides_the_rest (m : memory) (cfg : sslhcfg_item)
    (buf : ptr) (len : Z) (i : item_ptr) (e : sslhcfg_protocols_item)
    (description : string) :
  item_at cfg i = Some e ->
  description = "timeout"%string \/ description = "anyprot"%string ->
  probe e = get_probe description ->
  minlength_is_present e = false ->
  i <> protocols_len cfg - 1 \/ name e <> "anyprot"%string ->
  exists j, 0 <= j <= i /\ probe_buffer m cfg buf len = (PROBE_MATCH, Some j).
Proof.
  intros Hat Hd Hp Hmin Hany. unfold item_at in Hat.
  destruct (Z.ltb_spec i 0) as [| Hi]; [discriminate |].
  assert (Hp' : probe e = Some is_true)
    by (destruct Hd as [-> | ->]; exact Hp).
  destruct (probe_loop_match_by m buf len (protocols_len cfg) (protocols cfg)
              0 0 (Z.to_nat i) e is_true) as (j & Hj & Hr); try assumption.
  - reflexivity.
  - now rewrite Hmin.
  - reflexivity.
  - destruct Hany as [H | H]; [left; lia |].
    right. now apply String.eqb_neq.
  - exists j. split; [lia | exact Hr].
Qed.

(** ** Asking for more bytes *)

Lemma place_prefix (b ext : list byte) (p : ptr) (beyond beyond' : memory)
    (a : ptr) :
  in_slice p (slice_len b) a ->
  place b p beyond' a = place (b ++ ext) p beyond a.
Proof.
  unfold in_slice, place, slice_len. intros [H1 H2].
  rewrite length_app, Nat2Z.inj_add.
  destruct (Z.leb_spec p a); [| lia].
  destruct (Z.ltb_spec a (p + Z.of_nat (length b))); [| lia].
  destruct (Z.ltb_spec a (p + (Z.of_nat (length b) + Z.of_nat (length ext))));
    [| lia].
  cbn [andb]. symmetry. apply app_nth1. lia.
Qed.

(** A probe that reads inside its slice and that, once it has decided,
    reads the same bytes of every longer slice, asks for more bytes
    whenever its decision needs them. *)
Lemma waits_for_bytes_of (P : T_PROBE) :
  (forall d m p len, 0 <= len <= INT_MAX ->
                     Forall (in_slice p len) (reads m (P p len d))) ->
  (forall d m p len len',
      0 <= len <= len' -> len' <= INT_MAX ->
      result m (P p len d) <> PROBE_AGAIN ->
      reads m (P p len' d) = reads m (P p len d)) ->
  waits_for_bytes P.
Proof.
  intros Hin Hsame b ext p beyond beyond' d a Hlen Ha Hge.
  pose proof (slice_len_nonneg b) as Hb.
  pose proof (slice_len_nonneg ext) as He.
  rewrite slice_len_app in Hlen.
  set (m := place (b ++ ext) p beyond).
  assert (E : probe_on P b p beyond' d = result m (P p (slice_len b) d)).
  { unfold probe_on, result. f_equal. apply run_agree. intros x Hx.
    apply place_prefix.
    assert (H : Forall (in_slice p (slice_len b))
                  (reads (place b p beyond') (P p (slice_len b) d)))
      by (apply Hin; lia).
    rewrite Forall_forall in H. now apply H. }
  rewrite E.
  destruct (Z.eq_dec (result m (P p (slice_len b) d)) PROBE_AGAIN) as [| Hne];
    [assumption | exfalso].
  unfold reads_on in Ha. fold m in Ha. rewrite slice_len_app in Ha.
  rewrite (Hsame d m p (slice_len b)) in Ha by (assumption || lia).
  assert (H : Forall (in_slice p (slice_len b)) (reads m (P p (slice_len b) d)))
    by (apply Hin; lia).
  rewrite Forall_forall in H. apply H in Ha. unfold in_slice in Ha. lia.
Qed.

Lemma is_ssh_protocol_longer (m : memory) (p : ptr) (len len' : Z) (d : data_t) :
  len <= len' ->
  result m (is_ssh_protocol p len d) <> PROBE_AGAIN ->
  reads m (is_ssh_protocol p len' d) = reads m (is_ssh_protocol p len d).
Proof.
  unfold is_ssh_protocol. intros Hle.
  destruct (Z.ltb_spec len 4); [intros E; now contradiction E |].
  destruct (Z.ltb_spec len' 4); [lia | reflexivity].
Qed.

Lemma is_openvpn_protocol_longer (m : memory) (p : ptr) (len len' : Z)
    (d : data_t) :
  len <= len' ->
  result m (is_openvpn_protocol p len d) <> PROBE_AGAIN ->
  reads m (is_openvpn_protocol p len' d) = reads m (is_openvpn_protocol p len d).
Proof.
  unfold is_openvpn_protocol. intros Hle.
  destruct (Z.ltb_spec len 2); [intros E; now contradiction E |].
  destruct (Z.ltb_spec len' 2); [lia |].
  now rewrite !reads_bind, !reads_ret.
Qed.

Lemma is_tinc_protocol_longer (m : memory) (p : ptr) (len len' : Z) (d : data_t) :
  len <= len' ->
  result m (is_tinc_protocol p len d) <> PROBE_AGAIN ->
  reads m (is_tinc_protocol p len' d) = reads m (is_tinc_protocol p len d).
Proof.
  unfold is_tinc_protocol. intros Hle.
  destruct (Z.ltb_spec len 2); [intros E; now contradiction E |].
  destruct (Z.ltb_spec len' 2); [lia | reflexivity].
Qed.

Lemma is_adb_protocol_longer (m : memory) (p : ptr) (len len' : Z) (d : data_t) :
  0 <= len <= len' -> len' <= INT_MAX ->
  result m (is_adb_protocol p len d) <> PROBE_AGAIN ->
  reads m (is_adb_protocol p len' d) = reads m (is_adb_protocol p len d).
Proof.
  unfold is_adb_protocol. intros Hle Hmax.
  rewrite (to_unsigned_int_int len), (to_unsigned_int_int len') by lia.
  rewrite (to_size_t_int len), (to_size_t_int len') by lia.
  change (to_size_t min_data_packet_size + strlen empty_message) with 54.
  change min_data_packet_size with 30.
  destruct (Z.ltb_spec len 30); [intros E; now contradiction E |].
  destruct (Z.ltb_spec len' 30); [lia |].
  rewrite result_bind, !reads_bind.
  destruct (result m (probe_adb_cnxn_message (p + 0)) =? PROBE_MATCH);
    [reflexivity |].
  destruct (Z.ltb_spec len 54); [intros E; now contradiction E |].
  destruct (Z.ltb_spec len' 54); [lia | reflexivity].
Qed.

Lemma is_socks5_protocol_longer (m : memory) (p : ptr) (len len' : Z)
    (d : data_t) :
  len <= len' ->
  result m (is_socks5_protocol p len d) <> PROBE_AGAIN ->
  reads m (is_socks5_protocol p len' d) = reads m (is_socks5_protocol p len d).
Proof.
  unfold is_socks5_protocol. intros Hle.
  destruct (Z.ltb_spec len 2); [intros E; now contradiction E |].
  destruct (Z.ltb_spec len' 2); [lia |].
  rewrite result_bind, !reads_bind, result_load.
  destruct (negb (uchar (m (p + 0)) =? 5)); [reflexivity |].
  rewrite result_bind, !reads_bind, result_load.
  destruct ((to_char char_is_signed (uchar (m (p + 1))) <? 1)
            || (to_char char_is_signed (uchar (m (p + 1))) >? 10));
    [reflexivity |].
  destruct (Z.ltb_spec len (2 + to_char char_is_signed (uchar (m (p + 1)))));
    [intros E; now contradiction E |].
  destruct (Z.ltb_spec len' (2 + to_char char_is_signed (uchar (m (p + 1)))));
    [lia | reflexivity].
Qed.

(** ** The slices a recogniser answers AGAIN on *)

Lemma ssh_spec_again (b : list byte) :
  ssh_spec b = PROBE_AGAIN <-> awaits "ssh" b = true.
Proof.
  change (awaits "ssh" b) with (slice_len b <? 4). unfold ssh_spec.
  destruct (slice_len b <? 4); [easy |].
  destruct (starts_with (lit "SSH-") b); easy.
Qed.

Lemma openvpn_spec_again (b : list byte) :
  openvpn_spec b = PROBE_AGAIN <-> awaits "openvpn" b = true.
Proof.
  change (awaits "openvpn" b) with (slice_len b <? 2). unfold openvpn_spec.
  destruct (slice_len b <? 2); [easy |].
  destruct (_ =? _); easy.
Qed.

Lemma tinc_spec_again (b : list byte) :
  tinc_spec b = PROBE_AGAIN <-> awaits "tinc" b = true.
Proof.
  change (awaits "tinc" b) with (slice_len b <? 2). unfold tinc_spec.
  destruct (slice_len b <? 2); [easy |].
  destruct (starts_with (lit "0 ") b); easy.
Qed.

Lemma xmpp_spec_again (b : list byte) :
  xmpp_spec b = PROBE_AGAIN <-> awaits "xmpp" b = true.
Proof.
  change (awaits "xmpp" b)
    with (negb (contains (lit "jabber") b) && (slice_len b <? 50)).
  unfold xmpp_spec.
  destruct (contains (lit "jabber") b); [easy |].
  destruct (slice_len b <? 50); easy.
Qed.

Lemma first_method_again (b : list byte) (methods : list string) :
  first_method b methods = PROBE_AGAIN <-> method_awaited b methods = true.
Proof.
  induction methods as [| M methods IH]; cbn [first_method method_awaited];
    [easy |].
  destruct (slice_len b <? strlen (lit M)); [easy |].
  destruct (starts_with (lit M) b); [easy | exact IH].
Qed.

Lemma http_spec_again (b : list byte) :
  http_spec b = PROBE_AGAIN <-> awaits "http" b = true.
Proof.
  change (awaits "http" b)
    with (negb (contains (lit "HTTP") b) && method_awaited b http_methods).
  unfold http_spec.
  destruct (contains (lit "HTTP") b); [easy |].
  apply first_method_again.
Qed.

Lemma adb_spec_again (b : list byte) :
  adb_spec b = PROBE_AGAIN <-> awaits "adb" b = true.
Proof.
  change (awaits "adb" b)
    with ((slice_len b <? 30)
          || (negb (cnxn_host_at 0 b) && (slice_len b <? 54))).
  unfold adb_spec.
  destruct (slice_len b <? 30); [easy |].
  destruct (cnxn_host_at 0 b); [easy |].
  destruct (slice_len b <? 54); [easy |].
  destruct (negb (starts_with empty_message_prefix b)); [easy |].
  destruct (cnxn_host_at 24 b); easy.
Qed.

Lemma socks5_spec_again (b : list byte) :
  socks5_spec b = PROBE_AGAIN <-> awaits "socks5" b = true.
Proof.
  change (awaits "socks5" b)
    with ((slice_len b <? 2)
          || ((byte_at b 0 =? 5)
              && (1 <=? byte_at b 1) && (byte_at b 1 <=? 10)
              && (slice_len b <? 2 + byte_at b 1))).
  unfold socks5_spec.
  destruct (slice_len b <? 2); [easy |].
  destruct (byte_at b 0 =? 5); [| easy].
  destruct (1 <=? byte_at b 1); [| easy].
  destruct (byte_at b 1 <=? 10); [| easy].
  destruct (slice_len b <? 2 + byte_at b 1); [easy |].
  destruct (existsb _ _); easy.
Qed.

(** What a probe answers on a slice, by what it answers on the bytes of
    a memory. *)
Lemma probe_on_again (P : T_PROBE) (spec : list byte -> Z) (pname : string) :
  (forall d m p len, 0 <= len <= INT_MAX ->
                     result m (P p len d) = spec (bytes m p len)) ->
  (forall b, spec b = PROBE_AGAIN <-> awaits pname b = true) ->
  forall (b : list byte) (p : ptr) (beyond : memory) (d : data_t),
    slice_len b <= INT_MAX ->
    (probe_on P b p beyond d = PROBE_AGAIN <-> awaits pname b = true).
Proof.
  intros HP Hs b p beyond d Hlen.
  rewrite (probe_on_spec P spec d (HP d)) by assumption. apply Hs.
Qed.

End Probe.

(** * The TLS header parser *)

Lemma get_u8_result (m : memory) (p : ptr) (pos : Z) :
  result m (get_u8 p pos) = uchar (m (p + pos)).
Proof. reflexivity. Qed.

Lemma get_u16_result (m : memory) (p : ptr) (pos : Z) :
  result m (get_u16 p pos) = uchar (m (p + pos)) * 256 + uchar (m (p + (pos + 1))).
Proof. reflexivity. Qed.

Lemma get_u8_range (m : memory) (p : ptr) (pos : Z) :
  0 <= result m (get_u8 p pos) <= 255.
Proof. rewrite get_u8_result. apply uchar_range. Qed.

Lemma get_u16_range (m : memory) (p : ptr) (pos : Z) :
  0 <= result m (get_u16 p pos) <= 65535.
Proof.
  rewrite get_u16_result.
  pose proof (uchar_range (m (p + pos))).
  pose proof (uchar_range (m (p + (pos + 1)))). lia.
Qed.

Lemma get_u24_range (m : memory) (p : ptr) (pos : Z) :
  0 <= result m (get_u24 p pos) <= 16777215.
Proof.
  unfold get_u24. rewrite !result_bind, result_ret.
  pose proof (get_u8_range m p pos).
  pose proof (get_u16_range m p (pos + 1)). lia.
Qed.

Lemma get_u8_reads (m : memory) (p : ptr) (pos lim : Z) :
  0 <= pos -> pos + 1 <= lim -> Forall (in_slice p lim) (reads m (get_u8 p pos)).
Proof.
  intros H1 H2. unfold get_u8. rewrite reads_bind, reads_load, reads_ret.
  repeat constructor; unfold in_slice; lia.
Qed.

Lemma get_u16_reads (m : memory) (p : ptr) (pos lim : Z) :
  0 <= pos -> pos + 2 <= lim -> Forall (in_slice p lim) (reads m (get_u16 p pos)).
Proof.
  intros H1 H2. unfold get_u16. rewrite !reads_bind, reads_ret, app_nil_r.
  apply Forall_app. split; apply get_u8_reads; lia.
Qed.

Lemma get_u24_reads (m : memory) (p : ptr) (pos lim : Z) :
  0 <= pos -> pos + 3 <= lim -> Forall (in_slice p lim) (reads m (get_u24 p pos)).
Proof.
  intros H1 H2. unfold get_u24. rewrite !reads_bind, reads_ret, app_nil_r.
  apply Forall_app. split; [apply get_u8_reads | apply get_u16_reads]; lia.
Qed.

Lemma get_bytes_reads (m : memory) (p : ptr) (lim : Z) (n : nat) (pos : Z) :
  0 <= pos -> pos + Z.of_nat n <= lim ->
  Forall (in_slice p lim) (reads m (get_bytes p pos n)).
Proof.
  revert pos. induction n as [| n IH]; intros pos H1 H2; [constructor |].
  cbn [get_bytes]. rewrite !reads_bind, reads_load, reads_ret, app_nil_r.
  constructor; [unfold in_slice; lia | apply IH; lia].
Qed.

(** The numbers the parser has read, with their ranges, for [lia]. *)
Ltac tls_ranges :=
  repeat match goal with
    | |- context [result ?m (get_u8 ?p ?x)] =>
        lazymatch goal with
        | _ : 0 <= result m (get_u8 p x) <= 255 |- _ => fail
        | _ => pose proof (get_u8_range m p x)
        end
    | |- context [result ?m (get_u16 ?p ?x)] =>
        lazymatch goal with
        | _ : 0 <= result m (get_u16 p x) <= 65535 |- _ => fail
        | _ => pose proof (get_u16_range m p x)
        end
    | |- context [result ?m (get_u24 ?p ?x)] =>
        lazymatch goal with
        | _ : 0 <= result m (get_u24 p x) <= 16777215 |- _ => fail
        | _ => pose proof (get_u24_range m p x)
        end
    end.

(** One step through a parser whose reads are to be inside the slice. *)
Ltac tls_inside :=
  repeat (tls_ranges;
    match goal with
    | |- Forall _ (reads _ (Ret _)) => constructor
    | |- Forall _ (reads _ (get_u8 _ _)) => apply get_u8_reads; lia
    | |- Forall _ (reads _ (get_u16 _ _)) => apply get_u16_reads; lia
    | |- Forall _ (reads _ (get_u24 _ _)) => apply get_u24_reads; lia
    | |- Forall _ (reads _ (get_bytes _ _ _)) => apply get_bytes_reads; lia
    | |- Forall _ (reads _ (bind _ _)) =>
        rewrite reads_bind; apply Forall_app; split
    | |- Forall _ (reads _ (if ?a <? ?b then _ else _)) =>
        destruct (Z.ltb_spec a b)
    | |- Forall _ (reads _ (if ?a <=? ?b then _ else _)) =>
        destruct (Z.leb_spec a b)
    | |- Forall _ (reads _ (if ?c then _ else _)) => destruct c
    | |- Forall _ (reads _ (match ?r with inl _ => _ | inr _ => _ end)) =>
        destruct r
    | |- Forall _ (reads _ (let (_, _) := ?r in _)) => destruct r
    end).

Lemma sni_entries_reads (m : memory) (p : ptr) (lim lend : Z) (fuel : nat)
    (pos : Z) :
  0 <= pos -> lend <= lim ->
  Forall (in_slice p lim) (reads m (sni_entries fuel p pos lend)).
Proof.
  intros Hpos Hlim. revert pos Hpos.
  induction fuel as [| fuel IH]; intros pos Hpos; cbn [sni_entries];
    [constructor |].
  tls_inside. apply IH. lia.
Qed.

Lemma sni_extension_reads (m : memory) (p : ptr) (lim pos eend : Z) :
  0 <= pos -> eend <= lim ->
  Forall (in_slice p lim) (reads m (sni_extension p pos eend)).
Proof.
  intros Hpos Hlim. unfold sni_extension. tls_inside.
  apply sni_entries_reads; lia.
Qed.

Lemma alpn_entries_reads (m : memory) (p : ptr) (lim lend : Z) (fuel : nat)
    (pos : Z) (acc : list (list byte)) :
  0 <= pos -> lend <= lim ->
  Forall (in_slice p lim) (reads m (alpn_entries fuel p pos lend acc)).
Proof.
  intros Hpos Hlim. revert pos acc Hpos.
  induction fuel as [| fuel IH]; intros pos acc Hpos; cbn [alpn_entries];
    [constructor |].
  tls_inside. apply IH. lia.
Qed.

Lemma alpn_extension_reads (m : memory) (p : ptr) (lim pos eend : Z)
    (acc : list (list byte)) :
  0 <= pos -> eend <= lim ->
  Forall (in_slice p lim) (reads m (alpn_extension p pos eend acc)).
Proof.
  intros Hpos Hlim. unfold alpn_extension. tls_inside.
  apply alpn_entries_reads; lia.
Qed.

Lemma extensions_reads (m : memory) (p : ptr) (lim xend : Z) (fuel : nat)
    (pos : Z) (sni : option (list byte)) (alpn : list (list byte)) :
  0 <= pos -> xend <= lim ->
  Forall (in_slice p lim) (reads m (extensions fuel p pos xend sni alpn)).
Proof.
  intros Hpos Hlim. revert pos sni alpn Hpos.
  induction fuel as [| fuel IH]; intros pos sni alpn Hpos; cbn [extensions];
    [constructor |].
  cbv zeta.
  tls_inside;
    try (apply IH; lia);
    try (apply sni_extension_reads; lia);
    try (apply alpn_extension_reads; lia).
Qed.

Lemma client_hello_reads (policy : tls_policy) (m : memory) (p : ptr)
    (lim pos rend : Z) :
  0 <= pos -> rend <= lim ->
  Forall (in_slice p lim) (reads m (client_hello policy p pos rend)).
Proof.
  intros Hpos Hlim. unfold client_hello. cbv zeta.
  tls_inside. apply extensions_reads; lia.
Qed.

(** The parser reads no byte outside the [len] bytes it is given. *)
Lemma parse_tls_header_spec_reads (record_cap : Z) (policy : tls_policy)
    (m : memory) (p : ptr) (len : Z) :
  Forall (in_slice p len) (reads m (parse_tls_header_spec record_cap policy p len)).
Proof.
  unfold parse_tls_header_spec. tls_inside. apply client_hello_reads; lia.
Qed.

Lemma run_bind_ext {A B : Type} (m : memory) (t : Rd A) (f g : A -> Rd B) :
  run m (f (result m t)) = run m (g (result m t)) ->
  run m (bind t f) = run m (bind t g).
Proof.
  intros H. rewrite !run_bind.
  f_equal; [| f_equal]; unfold result, reads in *; now rewrite H.
Qed.

(** Once the parser has decided on [len] bytes, it does on more bytes
    exactly what it has done on these. *)
Lemma parse_tls_header_spec_longer (record_cap : Z) (policy : tls_policy)
    (m : memory) (p : ptr) (len len' : Z) :
  len <= len' ->
  result m (parse_tls_header_spec record_cap policy p len) <> Tls_elength ->
  run m (parse_tls_header_spec record_cap policy p len')
  = run m (parse_tls_header_spec record_cap policy p len).
Proof.
  intros Hle. unfold parse_tls_header_spec.
  destruct (Z.ltb_spec len 5); [intros E; now contradiction E |].
  destruct (Z.ltb_spec len' 5); [lia |].
  rewrite result_bind. intros Hd. apply run_bind_ext.
  destruct (negb (result m (get_u8 p 0) =? 22)); [reflexivity |].
  rewrite result_bind in Hd. apply run_bind_ext.
  destruct (negb (result m (get_u8 p 2) <=? 4)); [reflexivity |].
  rewrite result_bind in Hd. apply run_bind_ext.
  destruct (record_cap <? result m (get_u16 p 3)); [reflexivity |].
  destruct (Z.ltb_spec len (5 + result m (get_u16 p 3)));
    [now contradiction Hd |].
  destruct (Z.ltb_spec len' (5 + result m (get_u16 p 3))); [lia | reflexivity].
Qed.

(** The two guards of the parser that look at [len]: fewer than five
    bytes, and an admissible record header whose record is not whole. *)
Lemma parse_tls_header_spec_short (record_cap : Z) (policy : tls_policy)
    (m : memory) (p : ptr) (len : Z) :
  len < 5 ->
  result m (parse_tls_header_spec record_cap policy p len) = Tls_elength.
Proof.
  intros H. unfold parse_tls_header_spec.
  now destruct (Z.ltb_spec len 5); [| lia].
Qed.

Lemma parse_tls_header_spec_record (record_cap : Z) (policy : tls_policy)
    (m : memory) (p : ptr) (len : Z) :
  5 <= len ->
  uchar (m (p + 0)) = 22 ->
  uchar (m (p + 2)) <= 4 ->
  uchar (m (p + 3)) * 256 + uchar (m (p + 4)) <= record_cap ->
  len < 5 + (uchar (m (p + 3)) * 256 + uchar (m (p + 4))) ->
  result m (parse_tls_header_spec record_cap policy p len) = Tls_elength.
Proof.
  intros H5 Ht Hv Hcap Hlen. unfold parse_tls_header_spec.
  destruct (Z.ltb_spec len 5); [lia |].
  rewrite result_bind, get_u8_result, Ht. cbn [Z.eqb Pos.eqb negb].
  rewrite result_bind, get_u8_result.
  destruct (Z.leb_spec (uchar (m (p + 2))) 4); [| lia]. cbn [negb].
  rewrite result_bind, get_u16_result.
  change (p + (3 + 1)) with (p + 4).
  destruct (Z.ltb_spec record_cap (uchar (m (p + 3)) * 256 + uchar (m (p + 4))));
    [lia |].
  now destruct (Z.ltb_spec len (5 + (uchar (m (p + 3)) * 256 + uchar (m (p + 4)))));
    [| lia].
Qed.

(** The loops of the parser end with the block they go through: fuel
    beyond the length of the block changes nothing. *)
Lemma sni_entries_fuel (m : memory) (p : ptr) (lend : Z) (fuel fuel' : nat)
    (pos : Z) :
  lend - pos <= Z.of_nat fuel -> lend - pos <= Z.of_nat fuel' ->
  run m (sni_entries fuel p pos lend) = run m (sni_entries fuel' p pos lend).
Proof.
  revert fuel' pos. induction fuel as [| fuel IH]; intros fuel' pos H H'.
  - destruct fuel' as [| fuel']; [reflexivity |]. cbn [sni_entries].
    now destruct (Z.leb_spec lend pos); [| lia].
  - destruct fuel' as [| fuel']; cbn [sni_entries].
    + now destruct (Z.leb_spec lend pos); [| lia].
    + destruct (Z.leb_spec lend pos); [reflexivity |].
      destruct (Z.ltb_spec lend (pos + 3)); [reflexivity |].
      apply run_bind_ext, run_bind_ext.
      pose proof (get_u16_range m p (pos + 1)).
      destruct (Z.ltb_spec lend (pos + 3 + result m (get_u16 p (pos + 1))));
        [reflexivity |].
      destruct (result m (get_u8 p pos) =? 0); [reflexivity |].
      apply IH; lia.
Qed.

Lemma alpn_entries_fuel (m : memory) (p : ptr) (lend : Z) (fuel fuel' : nat)
    (pos : Z) (acc : list (list byte)) :
  lend - pos <= Z.of_nat fuel -> lend - pos <= Z.of_nat fuel' ->
  run m (alpn_entries fuel p pos lend acc)
  = run m (alpn_entries fuel' p pos lend acc).
Proof.
  revert fuel' pos acc. induction fuel as [| fuel IH]; intros fuel' pos acc H H'.
  - destruct fuel' as [| fuel']; [reflexivity |]. cbn [alpn_entries].
    now destruct (Z.leb_spec lend pos); [| lia].
  - destruct fuel' as [| fuel']; cbn [alpn_entries].
    + now destruct (Z.leb_spec lend pos); [| lia].
    + destruct (Z.leb_spec lend pos); [reflexivity |].
      apply run_bind_ext.
      pose proof (get_u8_range m p pos).
      destruct (Z.ltb_spec lend (pos + 1 + result m (get_u8 p pos)));
        [reflexivity |].
      apply run_bind_ext. apply IH; lia.
Qed.

Lemma extensions_fuel (m : memory) (p : ptr) (xend : Z) (fuel fuel' : nat)
    (pos : Z) (sni : option (list byte)) (alpn : list (list byte)) :
  xend - pos <= Z.of_nat fuel -> xend - pos <= Z.of_nat fuel' ->
  run m (extensions fuel p pos xend sni alpn)
  = run m (extensions fuel' p pos xend sni alpn).
Proof.
  revert fuel' pos sni alpn.
  induction fuel as [| fuel IH]; intros fuel' pos sni alpn H H'.
  - destruct fuel' as [| fuel']; [reflexivity |]. cbn [extensions].
    now destruct (Z.leb_spec xend pos); [| lia].
  - destruct fuel' as [| fuel']; cbn [extensions].
    + now destruct (Z.leb_spec xend pos); [| lia].
    + destruct (Z.leb_spec xend pos); [reflexivity |].
      destruct (Z.ltb_spec xend (pos + 4)); [reflexivity |].
      apply run_bind_ext, run_bind_ext. cbv zeta.
      pose proof (get_u16_range m p (pos + 2)).
      destruct (Z.ltb_spec xend (pos + 4 + result m (get_u16 p (pos + 2))));
        [reflexivity |].
      destruct (result m (get_u16 p pos) =? 0).
      { apply run_bind_ext.
        destruct (result m (sni_extension _ _ _)); [reflexivity |].
        apply IH; lia. }
      destruct (result m (get_u16 p pos) =? 16).
      { apply run_bind_ext.
        destruct (result m (alpn_extension _ _ _ _)); [reflexivity |].
        apply IH; lia. }
      apply IH; lia.
Qed.

(** ** The parser computes what the specification words *)

Lemma bytes_slice_len (m : memory) (q : ptr) (k : Z) :
  slice_len (bytes m q k) = Z.max 0 k.
Proof. unfold slice_len, bytes. rewrite bytes_n_length. lia. Qed.

Lemma take_bytes (m : memory) (p : ptr) (pos lim n : Z) :
  0 <= n -> pos <= lim ->
  take n (bytes m (p + pos) (lim - pos))
  = if lim <? pos + n then None
    else Some (bytes m (p + pos) n, bytes m (p + (pos + n)) (lim - (pos + n))).
Proof.
  intros Hn Hpos. unfold take. rewrite bytes_slice_len.
  destruct (Z.ltb_spec (Z.max 0 (lim - pos)) n);
    destruct (Z.ltb_spec lim (pos + n)); try lia; [reflexivity |].
  unfold bytes. rewrite firstn_bytes_n, skipn_bytes_n by lia.
  do 2 f_equal. f_equal; lia.
Qed.

Lemma skipn_bytes (m : memory) (p : ptr) (pos n : Z) (k : nat) :
  Z.of_nat k <= n ->
  skipn k (bytes m (p + pos) n) = bytes m (p + (pos + Z.of_nat k)) (n - Z.of_nat k).
Proof.
  intros H. unfold bytes. rewrite skipn_bytes_n. f_equal; lia.
Qed.

Lemma firstn_bytes (m : memory) (q : ptr) (n : Z) (k : nat) :
  Z.of_nat k <= n -> firstn k (bytes m q n) = bytes m q (Z.of_nat k).
Proof.
  intros H. unfold bytes. rewrite firstn_bytes_n by lia. now rewrite Nat2Z.id.
Qed.

Lemma big_endian_u8 (m : memory) (p : ptr) (pos : Z) :
  big_endian (bytes m (p + pos) 1) = result m (get_u8 p pos).
Proof. reflexivity. Qed.

Lemma big_endian_u16 (m : memory) (p : ptr) (pos : Z) :
  big_endian (bytes m (p + pos) 2) = result m (get_u16 p pos).
Proof.
  rewrite get_u16_result.
  change (bytes m (p + pos) 2) with [m (p + pos); m (p + pos + 1)].
  unfold big_endian. cbn [fold_left].
  replace (p + pos + 1) with (p + (pos + 1)) by lia. lia.
Qed.

Lemma big_endian_u24 (m : memory) (p : ptr) (pos : Z) :
  big_endian (bytes m (p + pos) 3) = result m (get_u24 p pos).
Proof.
  unfold get_u24. rewrite !result_bind, result_ret, get_u8_result, get_u16_result.
  change (bytes m (p + pos) 3)
    with [m (p + pos); m (p + pos + 1); m (p + pos + 1 + 1)].
  unfold big_endian. cbn [fold_left].
  replace (p + pos + 1) with (p + (pos + 1)) by lia.
  replace (p + (pos + 1) + 1) with (p + (pos + 1 + 1)) by lia. lia.
Qed.

Lemma byte_at_bytes (m : memory) (p : ptr) (pos n : Z) (i : nat) :
  Z.of_nat i < n ->
  byte_at (bytes m (p + pos) n) i = result m (get_u8 p (pos + Z.of_nat i)).
Proof.
  intros H. unfold byte_at, bytes. rewrite nth_bytes_n by lia.
  rewrite get_u8_result. do 2 f_equal. lia.
Qed.

Lemma get_bytes_result (m : memory) (p : ptr) (n : nat) (pos : Z) :
  result m (get_bytes p pos n) = bytes_n m (p + pos) n.
Proof.
  revert pos. induction n as [| n IH]; intros pos; [reflexivity |].
  cbn [get_bytes bytes_n]. rewrite !result_bind, result_load, result_ret, IH.
  do 2 f_equal. lia.
Qed.

Lemma bytes_n_length_max (m : memory) (q : ptr) (k : Z) :
  length (bytes m q k) = Z.to_nat k.
Proof. unfold bytes. apply bytes_n_length. Qed.

Lemma sni_entries_result (m : memory) (p : ptr) (lend : Z) (fuel : nat)
    (pos k : Z) :
  k = lend - pos ->
  result m (sni_entries fuel p pos lend) = sni_names fuel (bytes m (p + pos) k).
Proof.
  intros ->. revert pos.
  induction fuel as [| fuel IH]; intros pos; cbn [sni_entries sni_names];
    [reflexivity |].
  rewrite bytes_slice_len.
  destruct (Z.leb_spec lend pos);
    destruct (Z.leb_spec (Z.max 0 (lend - pos)) 0); try lia; [reflexivity |].
  rewrite take_bytes by lia.
  destruct (Z.ltb_spec lend (pos + 3)); [reflexivity |].
  rewrite !result_bind.
  rewrite (skipn_bytes m p pos 3 1), (byte_at_bytes m p pos 3 0) by lia.
  change (3 - Z.of_nat 1) with 2. change (pos + Z.of_nat 1) with (pos + 1).
  change (pos + Z.of_nat 0) with (pos + 0). rewrite Z.add_0_r.
  rewrite big_endian_u16.
  pose proof (get_u16_range m p (pos + 1)).
  rewrite take_bytes by lia.
  destruct (Z.ltb_spec lend (pos + 3 + result m (get_u16 p (pos + 1))));
    [reflexivity |].
  destruct (result m (get_u8 p pos) =? 0).
  - rewrite result_bind, result_ret, get_bytes_result. reflexivity.
  - apply IH.
Qed.

Lemma sni_extension_result (m : memory) (p : ptr) (pos eend k : Z) :
  pos <= eend -> k = eend - pos ->
  result m (sni_extension p pos eend) = sni_payload (bytes m (p + pos) k).
Proof.
  intros Hpos ->. unfold sni_extension, sni_payload.
  rewrite take_bytes by lia.
  destruct (Z.ltb_spec eend (pos + 2)); [reflexivity |].
  rewrite result_bind, big_endian_u16.
  pose proof (get_u16_range m p pos).
  rewrite take_bytes by lia.
  destruct (Z.ltb_spec eend (pos + 2 + result m (get_u16 p pos)));
    [reflexivity |].
  rewrite bytes_n_length_max. apply sni_entries_result. lia.
Qed.

Lemma alpn_entries_result (m : memory) (p : ptr) (lend : Z) (fuel : nat)
    (pos k : Z) (acc : list (list byte)) :
  k = lend - pos ->
  result m (alpn_entries fuel p pos lend acc)
  = alpn_names fuel (bytes m (p + pos) k) acc.
Proof.
  intros ->. revert pos acc.
  induction fuel as [| fuel IH]; intros pos acc; cbn [alpn_entries alpn_names];
    [reflexivity |].
  rewrite bytes_slice_len.
  destruct (Z.leb_spec lend pos);
    destruct (Z.leb_spec (Z.max 0 (lend - pos)) 0); try lia; [reflexivity |].
  rewrite take_bytes by lia.
  destruct (Z.ltb_spec lend (pos + 1)); [lia |].
  rewrite result_bind, big_endian_u8.
  pose proof (get_u8_range m p pos).
  rewrite take_bytes by lia.
  destruct (Z.ltb_spec lend (pos + 1 + result m (get_u8 p pos)));
    [reflexivity |].
  rewrite result_bind, get_bytes_result. apply IH.
Qed.

Lemma alpn_extension_result (m : memory) (p : ptr) (pos eend k : Z)
    (acc : list (list byte)) :
  pos <= eend -> k = eend - pos ->
  result m (alpn_extension p pos eend acc)
  = alpn_payload (bytes m (p + pos) k) acc.
Proof.
  intros Hpos ->. unfold alpn_extension, alpn_payload.
  rewrite take_bytes by lia.
  destruct (Z.ltb_spec eend (pos + 2)); [reflexivity |].
  rewrite result_bind, big_endian_u16.
  pose proof (get_u16_range m p pos).
  rewrite take_bytes by lia.
  destruct (Z.ltb_spec eend (pos + 2 + result m (get_u16 p pos)));
    [reflexivity |].
  rewrite bytes_n_length_max. apply alpn_entries_result. lia.
Qed.

Lemma extensions_result (m : memory) (p : ptr) (xend : Z) (fuel : nat)
    (pos k : Z) (sni : option (list byte)) (alpn : list (list byte)) :
  k = xend - pos ->
  result m (extensions fuel p pos xend sni alpn)
  = extension_block fuel (bytes m (p + pos) k) sni alpn.
Proof.
  intros ->. revert pos sni alpn.
  induction fuel as [| fuel IH]; intros pos sni alpn;
    cbn [extensions extension_block]; [reflexivity |].
  rewrite bytes_slice_len.
  destruct (Z.leb_spec xend pos);
    destruct (Z.leb_spec (Z.max 0 (xend - pos)) 0); try lia; [reflexivity |].
  rewrite take_bytes by lia.
  destruct (Z.ltb_spec xend (pos + 4)); [reflexivity |].
  rewrite !result_bind. cbv zeta.
  rewrite (skipn_bytes m p pos 4 2), (firstn_bytes m (p + pos) 4 2) by lia.
  change (4 - Z.of_nat 2) with 2. change (pos + Z.of_nat 2) with (pos + 2).
  change (Z.of_nat 2) with 2.
  rewrite !big_endian_u16.
  pose proof (get_u16_range m p (pos + 2)).
  rewrite take_bytes by lia.
  destruct (Z.ltb_spec xend (pos + 4 + result m (get_u16 p (pos + 2))));
    [reflexivity |].
  destruct (result m (get_u16 p pos) =? 0).
  { rewrite result_bind.
    rewrite (sni_extension_result m p (pos + 4) _
               (result m (get_u16 p (pos + 2)))) by lia.
    destruct (sni_payload _); [reflexivity | apply IH]. }
  destruct (result m (get_u16 p pos) =? 16).
  { rewrite result_bind.
    rewrite (alpn_extension_result m p (pos + 4) _
               (result m (get_u16 p (pos + 2)))) by lia.
    destruct (alpn_payload _ _); [reflexivity | apply IH]. }
  apply IH.
Qed.

(** One field of the ClientHello: the bytes are taken where the parser
    checks that they are there. *)
Ltac tls_field :=
  tls_ranges;
  rewrite take_bytes by lia;
  match goal with
  | |- context [if ?a <? ?b then None else _] =>
      destruct (Z.ltb_spec a b); [reflexivity |]
  end.

Lemma client_hello_result (policy : tls_policy) (m : memory) (p : ptr)
    (pos rend k : Z) :
  pos <= rend -> k = rend - pos ->
  result m (client_hello policy p pos rend)
  = client_hello_spec policy (bytes m (p + pos) k).
Proof.
  intros Hpos ->. unfold client_hello, client_hello_spec. cbv zeta.
  tls_field.
  rewrite result_bind, (byte_at_bytes m p pos 4 0) by lia.
  change (pos + Z.of_nat 0) with (pos + 0). rewrite Z.add_0_r.
  destruct (negb (result m (get_u8 p pos) =? 1)); [reflexivity |].
  rewrite result_bind, (skipn_bytes m p pos 4 1) by lia.
  change (4 - Z.of_nat 1) with 3. change (pos + Z.of_nat 1) with (pos + 1).
  rewrite big_endian_u24.
  tls_field. tls_field. tls_field.
  rewrite result_bind, big_endian_u8.
  tls_field. tls_field.
  rewrite result_bind, big_endian_u16.
  tls_field. tls_field.
  rewrite result_bind, big_endian_u8.
  tls_field. tls_field.
  rewrite result_bind, big_endian_u16.
  tls_field.
  rewrite result_bind, bytes_n_length_max.
  match goal with
  | |- context [extensions (Z.to_nat ?n) p ?x (?x + ?n) None []] =>
      rewrite (extensions_result m p (x + n) (Z.to_nat n) x n) by lia
  end.
  destruct (extension_block _ _ _ _) as [v | [sni alpn]]; reflexivity.
Qed.

(** The parser answers on the [len] bytes at [p] what the specification
    says of them. *)
Lemma parse_tls_header_spec_result (record_cap : Z) (policy : tls_policy)
    (m : memory) (p : ptr) (len : Z) :
  0 <= len ->
  result m (parse_tls_header_spec record_cap policy p len)
  = tls_spec record_cap policy (bytes m p len).
Proof.
  intros Hlen. unfold parse_tls_header_spec, tls_spec. cbv zeta.
  replace (bytes m p len) with (bytes m (p + 0) (len - 0))
    by (f_equal; lia).
  rewrite take_bytes by lia. change (0 + 5) with 5.
  destruct (Z.ltb_spec len 5); [reflexivity |].
  rewrite (byte_at_bytes m p 0 5 0), (byte_at_bytes m p 0 5 2),
    (skipn_bytes m p 0 5 3) by lia.
  change (0 + Z.of_nat 0) with 0. change (0 + Z.of_nat 2) with 2.
  change (0 + Z.of_nat 3) with 3. change (5 - Z.of_nat 3) with 2.
  rewrite big_endian_u16, result_bind.
  destruct (negb (result m (get_u8 p 0) =? 22)); [reflexivity |].
  rewrite result_bind.
  destruct (negb (result m (get_u8 p 2) <=? 4)); [reflexivity |].
  rewrite result_bind.
  destruct (record_cap <? result m (get_u16 p 3)); [reflexivity |].
  tls_field.
  apply client_hello_result; lia.
Qed.

(** * The probes read inside their slice *)

Section BuiltinProbes.

Variables host_big_endian char_is_signed : bool.
Variables data_t regex_t : Type.

(** The integers of tls.h, the sanity cap of the parser on the record
    length, and how [proto->data] is read by the TLS probe and by the
    regex probe. *)
Variables TLS_MATCH TLS_NOMATCH TLS_ELENGTH : Z.
Variable record_cap : Z.
Variable policy_of : data_t -> tls_policy.
Variable regex_list : data_t -> list regex_t.
Variable regexec : regex_t -> ptr -> Z -> Z -> Rd Z.

(** The labels of the [switch] of [is_tls_protocol] are distinct. *)
Hypothesis TLS_ELENGTH_distinct :
  TLS_ELENGTH <> TLS_MATCH /\ TLS_ELENGTH <> TLS_NOMATCH.

(** [regexec] of the C library, under REG_STARTEND, reads no byte
    outside the region from [so] to [eo] it is told. *)
Hypothesis regexec_reads :
  forall (m : memory) (re : regex_t) (p : ptr) (so eo : Z),
    Forall (in_slice (p + so) (eo - so)) (reads m (regexec re p so eo)).

Lemma is_tls_protocol_spec_result (m : memory) (p : ptr) (len : Z) (d : data_t) :
  result m (is_tls_protocol data_t TLS_MATCH TLS_NOMATCH TLS_ELENGTH
              (parse_tls_header_of TLS_MATCH TLS_NOMATCH TLS_ELENGTH
                 record_cap policy_of) p len d) = PROBE_AGAIN
  <-> result m (parse_tls_header_spec record_cap (policy_of d) p len)
      = Tls_elength.
Proof.
  unfold is_tls_protocol, parse_tls_header_of.
  rewrite !result_bind, !result_ret.
  destruct TLS_ELENGTH_distinct as [H1 H2].
  destruct (result m (parse_tls_header_spec record_cap (policy_of d) p len));
    cbn [tls_code].
  - rewrite Z.eqb_refl. now split.
  - destruct (Z.eqb_spec TLS_NOMATCH TLS_MATCH); [now split |].
    rewrite Z.eqb_refl. now split.
  - destruct (Z.eqb_spec TLS_ELENGTH TLS_MATCH); [contradiction |].
    destruct (Z.eqb_spec TLS_ELENGTH TLS_NOMATCH); [contradiction |].
    rewrite Z.eqb_refl. now split.
Qed.

Lemma is_tls_protocol_spec_reads (m : memory) (p : ptr) (len : Z) (d : data_t) :
  reads m (is_tls_protocol data_t TLS_MATCH TLS_NOMATCH TLS_ELENGTH
             (parse_tls_header_of TLS_MATCH TLS_NOMATCH TLS_ELENGTH
                record_cap policy_of) p len d)
  = reads m (parse_tls_header_spec record_cap (policy_of d) p len).
Proof.
  unfold is_tls_protocol, parse_tls_header_of.
  now rewrite !reads_bind, !reads_ret, !app_nil_r.
Qed.

Lemma place_at (b : list byte) (p : ptr) (beyond : memory) (i : nat) :
  (i < length b)%nat -> uchar (place b p beyond (p + Z.of_nat i)) = byte_at b i.
Proof.
  intros H. unfold place, byte_at.
  destruct (Z.leb_spec p (p + Z.of_nat i)); [| lia].
  destruct (Z.ltb_spec (p + Z.of_nat i) (p + Z.of_nat (length b))); [| lia].
  cbn [andb]. do 2 f_equal. lia.
Qed.

(** C8.  On the byte slices whose length fits an [int], every built-in
    probe (the TLS probe with the parser of the specification) and the
    regex probe ([regexec] keeping to the region it is told) reads no
    byte at an address outside the slice it is given; so its outcome is
    the same whatever lies around the slice.  Every probe but the three
    that search the slice (XMPP, HTTP, regex) answers AGAIN on a slice
    whenever, given that slice followed by more bytes, it would read a
    byte that comes after the slice.  Every probe of probe.c answers
    AGAIN exactly on the slices its length guards name, each guard behind
    the checks that lead to it: SSH under 4 bytes; OpenVPN and tinc under
    2; XMPP under 50 without [jabber]; HTTP without [HTTP] when the
    method it has come to is longer than the slice; ADB under 30, and
    under 54 without a CNXN message at the start; SOCKS5 under 2, and
    under 2 + m with version 5 and a method count m in 1..10; the
    always-match probe and the regex probe never.  The TLS probe answers
    AGAIN exactly where the parser of the specification finds the bytes
    cut short: in particular under 5 bytes, and whenever an admissible
    record header (type 0x16, minor version at most 4, record length R
    within the cap) comes with fewer than 5 + R bytes. *)
Theorem probes_read_inside_slice (pname : string) (P : T_PROBE data_t) :
  In (pname, P)
     (builtins host_big_endian char_is_signed data_t
        TLS_MATCH TLS_NOMATCH TLS_ELENGTH
        (parse_tls_header_of TLS_MATCH TLS_NOMATCH TLS_ELENGTH
           record_cap policy_of))
  \/ (pname, P)
     = ("regex"%string, regex_probe data_t regex_t regex_list regexec) ->
  reads_inside data_t P
  /\ outcome_local data_t P
  /\ (pname <> "xmpp"%string -> pname <> "http"%string ->
      pname <> "regex"%string ->
      waits_for_bytes data_t P)
  /\ (pname <> "tls"%string ->
      forall (b : list byte) (p : ptr) (beyond : memory) (d : data_t),
        slice_len b <= INT_MAX ->
        (probe_on data_t P b p beyond d = PROBE_AGAIN
         <-> awaits pname b = true))
  /\ (pname = "tls"%string ->
      forall (b : list byte) (p : ptr) (beyond : memory) (d : data_t),
        (probe_on data_t P b p beyond d = PROBE_AGAIN
         <-> tls_spec record_cap (policy_of d) b = Tls_elength)
        /\ (slice_len b < 5 -> probe_on data_t P b p beyond d = PROBE_AGAIN)
        /\ (5 <= slice_len b ->
            byte_at b 0 = 22 ->
            byte_at b 2 <= 4 ->
            byte_at b 3 * 256 + byte_at b 4 <= record_cap ->
            slice_len b < 5 + (byte_at b 3 * 256 + byte_at b 4) ->
            probe_on data_t P b p beyond d = PROBE_AGAIN)).
Proof.
  intros Hin.
  assert (Hreads : reads_inside data_t P).
  { destruct Hin as [Hin | Hin].
    - unfold builtins in Hin. simpl in Hin.
      repeat (destruct Hin as [Hin | Hin];
              [injection Hin as <- <- |]); try contradiction;
        apply reads_inside_of; intros d m p len Hlen.
      + apply is_ssh_protocol_reads.
      + apply is_openvpn_protocol_reads.
      + apply is_tinc_protocol_reads.
      + now apply is_xmpp_protocol_reads.
      + now apply is_http_protocol_reads.
      + rewrite is_tls_protocol_spec_reads. apply parse_tls_header_spec_reads.
      + now apply is_adb_protocol_reads.
      + apply is_socks5_protocol_reads.
      + constructor.
    - injection Hin as -> ->. apply reads_inside_of. intros d m p len Hlen.
      apply regex_loop_reads. exact regexec_reads. }
  split; [exact Hreads |]. split; [now apply reads_inside_local |].
  destruct Hin as [Hin | Hin].
  - unfold builtins in Hin. simpl in Hin.
    repeat (destruct Hin as [Hin | Hin];
            [injection Hin as <- <- |]); try contradiction.
    + (* ssh *)
      split; [| split; [| discriminate]].
      * intros _ _ _. apply waits_for_bytes_of.
        -- intros. apply is_ssh_protocol_reads.
        -- intros. apply is_ssh_protocol_longer; [lia | assumption].
      * intros _. apply (probe_on_again data_t _ ssh_spec).
        -- intros. apply is_ssh_protocol_result. lia.
        -- apply ssh_spec_again.
    + (* openvpn *)
      split; [| split; [| discriminate]].
      * intros _ _ _. apply waits_for_bytes_of.
        -- intros. apply is_openvpn_protocol_reads.
        -- intros. apply is_openvpn_protocol_longer; [lia | assumption].
      * intros _. apply (probe_on_again data_t _ openvpn_spec).
        -- intros. apply is_openvpn_protocol_result.
        -- apply openvpn_spec_again.
    + (* tinc *)
      split; [| split; [| discriminate]].
      * intros _ _ _. apply waits_for_bytes_of.
        -- intros. apply is_tinc_protocol_reads.
        -- intros. apply is_tinc_protocol_longer; [lia | assumption].
      * intros _. apply (probe_on_again data_t _ tinc_spec).
        -- intros. apply is_tinc_protocol_result. lia.
        -- apply tinc_spec_again.
    + (* xmpp *)
      split; [| split; [| discriminate]].
      * intros H. now contradiction H.
      * intros _. apply (probe_on_again data_t _ xmpp_spec).
        -- intros. now apply is_xmpp_protocol_result.
        -- apply xmpp_spec_again.
    + (* http *)
      split; [| split; [| discriminate]].
      * intros _ H. now contradiction H.
      * intros _. apply (probe_on_again data_t _ http_spec).
        -- intros. now apply is_http_protocol_result.
        -- apply http_spec_again.
    + (* tls *)
      split; [| split].
      * intros _ _ _. apply waits_for_bytes_of.
        -- intros. rewrite is_tls_protocol_spec_reads.
           apply parse_tls_header_spec_reads.
        -- intros d m p len len' Hle Hmax Hd.
           rewrite !is_tls_protocol_spec_reads. unfold reads. f_equal.
           apply parse_tls_header_spec_longer; [lia |].
           intros E. apply Hd. now apply is_tls_protocol_spec_result.
      * intros H. now contradiction H.
      * intros _ b p beyond d. unfold probe_on.
        rewrite is_tls_protocol_spec_result. split; [| split].
        -- rewrite parse_tls_header_spec_result by apply slice_len_nonneg.
           now rewrite bytes_place.
        -- apply parse_tls_header_spec_short.
        -- intros H5 Ht Hv Hcap Hlen.
           unfold slice_len in H5.
           apply parse_tls_header_spec_record; [exact H5 | ..].
           ++ rewrite <- Ht. apply (place_at b p beyond 0). lia.
           ++ rewrite <- (place_at b p beyond 2) in Hv by lia. exact Hv.
           ++ rewrite <- (place_at b p beyond 3), <- (place_at b p beyond 4)
                in Hcap by lia. exact Hcap.
           ++ rewrite <- (place_at b p beyond 3), <- (place_at b p beyond 4)
                in Hlen by lia. exact Hlen.
    + (* adb *)
      split; [| split; [| discriminate]].
      * intros _ _ _. apply waits_for_bytes_of.
        -- intros. now apply is_adb_protocol_reads.
        -- intros. now apply is_adb_protocol_longer.
      * intros _. apply (probe_on_again data_t _ adb_spec).
        -- intros. now apply is_adb_protocol_result.
        -- apply adb_spec_again.
    + (* socks5 *)
      split; [| split; [| discriminate]].
      * intros _ _ _. apply waits_for_bytes_of.
        -- intros. apply is_socks5_protocol_reads.
        -- intros. apply is_socks5_protocol_longer; [lia | assumption].
      * intros _. apply (probe_on_again data_t _ socks5_spec).
        -- intros. apply is_socks5_protocol_result.
        -- apply socks5_spec_again.
    + (* anyprot *)
      split; [| split; [| discriminate]].
      * intros _ _ _ b ext p beyond beyond' d a _ Ha. destruct Ha.
      * intros _ b p beyond d _. now split.
  - injection Hin as -> ->.
    split; [| split; [| discriminate]].
    + intros _ _ H. now contradiction H.
    + intros _ b p beyond d _. unfold probe_on, regex_probe.
      destruct (regex_loop_run regex_t regexec (place b p beyond) p
                  (slice_len b) (regex_list d)) as [-> _].
      change (awaits "regex" b) with false.
      destruct (existsb _ _); now split.
Qed.

End BuiltinProbes.


(** * The theorems at concrete inputs *)

Lemma probe_buffer_arbitration_witness :
  let ssh := {| name := "ssh"; probe := Some (is_ssh_protocol unit);
                minlength_is_present := false; minlength := 0; data := tt |} in
  let http := {| name := "http"; probe := Some (is_http_protocol unit);
                 minlength_is_present := true; minlength := 4; data := tt |} in
  let any := {| name := "anyprot"; probe := Some (is_true unit);
                minlength_is_present := false; minlength := 0; data := tt |} in
  let cfg := {| protocols := [ssh; http; any]; on_timeout := "ssh";
                verbose := 0 |} in
  let m := place (lit "GET / HTTP/1.1") 0 zeroes in
  probe_buffer unit m cfg 0 14 = (PROBE_MATCH, Some 1)
  /\ probe_buffer_calls unit m cfg 0 14 = [0; 1].
Proof.
  intros ssh http any cfg m.
  destruct (probe_buffer_arbitration unit m cfg 0 14) as (H1 & H2 & _).
  - discriminate.
  - rewrite H1, H2. split; vm_compute; reflexivity.
Defined.

Lemma builtin_probes_monotone_witness :
  monotone unit (is_ssh_protocol unit).
Proof.
  apply (builtin_probes_monotone false true unit 1 0 (-1)
           (fun _ => tls_record_check []) "ssh" (is_ssh_protocol unit)).
  - now left.
  - discriminate.
  - discriminate.
Defined.

(** C2 as stated fails: the OpenVPN probe answers MATCH on the two bytes
    00 00 and NEXT on the three bytes 00 00 00. *)
Lemma openvpn_not_monotone :
  In ("openvpn"%string, is_openvpn_protocol false unit)
    (builtins false true unit 1 0 (-1) (fun _ => tls_record_check []))
  /\ probe_on unit (is_openvpn_protocol false unit) [x00; x00] 0 zeroes tt
     = PROBE_MATCH
  /\ probe_on unit (is_openvpn_protocol false unit) ([x00; x00] ++ [x00]) 0
       zeroes tt
     = PROBE_NEXT
  /\ ~ monotone unit (is_openvpn_protocol false unit).
Proof.
  split; [right; now left |].
  split; [reflexivity |]. split; [reflexivity |].
  intros H.
  assert (E := H [x00; x00] [x00] 0 0 zeroes zeroes tt
                 ltac:(vm_compute; discriminate) eq_refl).
  vm_compute in E. discriminate E.
Qed.

Lemma http_wrong_case_outcome_witness :
  probe_on unit (is_http_protocol unit) (lit "oPtIoNs") 0 zeroes tt
  = PROBE_NEXT.
Proof.
  apply (http_wrong_case_outcome unit "OPTIONS" (lit "oPtIoNs") 0 zeroes tt).
  - now left.
  - split; [reflexivity | discriminate].
Defined.

(** C3 as stated fails: [get] has the length of GET, differs from it in
    letter case only and does not contain [HTTP], and the HTTP probe
    answers AGAIN on it, not NEXT. *)
Lemma http_get_wrong_case_again :
  In "GET"%string http_methods
  /\ slice_len (lit "get") = strlen (lit "GET")
  /\ differs_only_in_case (lit "GET") (lit "get")
  /\ contains (lit "HTTP") (lit "get") = false
  /\ probe_on unit (is_http_protocol unit) (lit "get") 0 zeroes tt
     = PROBE_AGAIN
  /\ probe_on unit (is_http_protocol unit) (lit "get") 0 zeroes tt
     <> PROBE_NEXT.
Proof.
  split; [right; now left |].
  split; [reflexivity |].
  split; [split; [reflexivity | discriminate] |].
  split; [reflexivity |].
  split; [reflexivity | discriminate].
Qed.

Lemma adb_probe_outcome_witness :
  probe_on unit (is_adb_protocol unit)
    (lit "CNXN" ++ repeat x01 20 ++ lit "host::") 0 zeroes tt
  = PROBE_MATCH.
Proof.
  rewrite (adb_probe_outcome unit) by (vm_compute; discriminate).
  reflexivity.
Defined.

Lemma http_probe_outcome_witness :
  probe_on unit (is_http_protocol unit) (lit "DELETE /x") 0 zeroes tt
  = PROBE_MATCH.
Proof.
  rewrite (http_probe_outcome unit) by (vm_compute; discriminate).
  reflexivity.
Defined.

Lemma probes_read_inside_slice_witness :
  let data_t := (tls_policy * list byte)%type in
  let tls := is_tls_protocol data_t 1 0 (-1)
               (parse_tls_header_of 1 0 (-1) 16384 fst) in
  let d : data_t := ({| sni_allow := None; alpn_allow := None |}, []) in
  probe_on data_t tls [x16; x03; x01; x00; x2e; x01; x00] 0 zeroes d
  = PROBE_AGAIN
  /\ probe_on data_t (is_socks5_protocol true data_t) [x05; x02; x00] 0 zeroes d
     = PROBE_AGAIN
  /\ probe_on data_t (is_adb_protocol data_t) (repeat x41 40) 0 zeroes d
     = PROBE_AGAIN
  /\ probe_on data_t (is_ssh_protocol data_t) (lit "SSH") 0 zeroes d
     = PROBE_AGAIN
  /\ reads_inside data_t (regex_probe data_t byte snd regexec_first_byte).
Proof.
  intros data_t tls d.
  assert (Hcodes : -1 <> 1 /\ -1 <> 0) by (split; discriminate).
  pose proof (probes_read_inside_slice false true data_t byte 1 0 (-1) 16384
                fst snd regexec_first_byte Hcodes regexec_first_byte_reads)
    as H.
  split; [| split; [| split; [| split]]].
  - destruct (H "tls"%string tls) as (_ & _ & _ & _ & Htls).
    + left. do 5 right. now left.
    + apply (Htls eq_refl); [vm_compute; discriminate | reflexivity
                            | vm_compute; discriminate
                            | vm_compute; discriminate | reflexivity].
  - destruct (H "socks5"%string (is_socks5_protocol true data_t))
      as (_ & _ & _ & Hagain & _).
    + left. do 7 right. now left.
    + apply Hagain; [discriminate | vm_compute; discriminate | reflexivity].
  - destruct (H "adb"%string (is_adb_protocol data_t))
      as (_ & _ & _ & Hagain & _).
    + left. do 6 right. now left.
    + apply Hagain; [discriminate | vm_compute; discriminate | reflexivity].
  - destruct (H "ssh"%string (is_ssh_protocol data_t))
      as (_ & _ & Hwaits & _).
    + left. now left.
    + apply (Hwaits ltac:(discriminate) ltac:(discriminate)
               ltac:(discriminate) (lit "SSH") (lit "-") 0 zeroes zeroes d 3).
      * vm_compute. discriminate.
      * vm_compute. auto.
      * vm_compute. discriminate.
  - destruct (H "regex"%string
                (regex_probe data_t byte snd regexec_first_byte))
      as (Hreads & _).
    + now right.
    + exact Hreads.
Defined.

Lemma probe_client_protocol_read_failure_witness :
  let ssh := {| name := "ssh"; probe := Some (is_ssh_protocol unit);
                minlength_is_present := false; minlength := 0; data := tt |} in
  let any := {| name := "anyprot"; probe := Some (is_true unit);
                minlength_is_present := false; minlength := 0; data := tt |} in
  let cfg := {| protocols := [ssh; any]; on_timeout := "ssh"; verbose := 0 |} in
  let cnx := {| q1 := {| begin_deferred_data := 0; deferred_data_size := 0 |};
                proto := None |} in
  fst (probe_client_protocol unit zeroes cfg cnx (-1) []) = PROBE_MATCH
  /\ proto (snd (snd (probe_client_protocol unit zeroes cfg cnx (-1) [])))
     = Some 1
  /\ item_at unit cfg 1 = Some any.
Proof.
  intros ssh any cfg cnx.
  destruct (probe_client_protocol_read_failure unit zeroes cfg cnx (-1) [])
    as [H1 H2].
  - lia.
  - rewrite H1. split; [reflexivity |]. split; [reflexivity |].
    apply (H2 ltac:(discriminate) ssh).
Defined.

Lemma fallbacks_need_an_entry_witness :
  let ssh := {| name := "ssh"; probe := Some (is_ssh_protocol unit);
                minlength_is_present := false; minlength := 0; data := tt |} in
  let cfg := {| protocols := [ssh]; on_timeout := "tls"; verbose := 0 |} in
  item_at unit cfg (timeout_protocol unit cfg) <> None.
Proof.
  intros ssh cfg.
  apply (proj2 (fallbacks_need_an_entry unit) zeroes cfg 0 0).
  discriminate.
Defined.

(** ** The end-to-end scenarios of the specification *)

Example scenario_ssh :
  let b := lit "SSH-2.0-OpenSSH_8.9" ++ [x0d; x0a] in
  let cfg :=
    {| protocols :=
         [ plain_entry (list byte) "ssh" (Some (is_ssh_protocol (list byte))) [];
           plain_entry (list byte) "tls"
             (Some (is_tls_protocol (list byte) 1 0 (-1) tls_record_check)) [];
           plain_entry (list byte) "anyprot" (Some (is_true (list byte))) [] ];
       on_timeout := "ssh"; verbose := 0 |} in
  probe_buffer (list byte) (place b 0 zeroes) cfg 0 (slice_len b)
  = (PROBE_MATCH, Some 0).
Proof. reflexivity. Qed.

Example scenario_http :
  let b := lit "GET / HTTP/1.1" ++ [x0d; x0a] in
  let cfg :=
    {| protocols :=
         [ plain_entry unit "ssh" (Some (is_ssh_protocol unit)) tt;
           plain_entry unit "http" (Some (is_http_protocol unit)) tt;
           plain_entry unit "anyprot" (Some (is_true unit)) tt ];
       on_timeout := "ssh"; verbose := 0 |} in
  probe_buffer unit (place b 0 zeroes) cfg 0 (slice_len b)
  = (PROBE_MATCH, Some 1).
Proof. reflexivity. Qed.

Example scenario_socks5 :
  let cfg :=
    {| protocols :=
         [ plain_entry unit "ssh" (Some (is_ssh_protocol unit)) tt;
           plain_entry unit "socks5" (Some (is_socks5_protocol true unit)) tt;
           plain_entry unit "anyprot" (Some (is_true unit)) tt ];
       on_timeout := "ssh"; verbose := 0 |} in
  probe_buffer unit (place [x05; x02; x00; x01] 0 zeroes) cfg 0 4
  = (PROBE_MATCH, Some 1)
  /\ probe_buffer unit (place [x05; x02; x00] 0 zeroes) cfg 0 3
     = (PROBE_AGAIN, None).
Proof. split; reflexivity. Qed.

Example scenario_short_ssh :
  let cfg :=
    {| protocols :=
         [ plain_entry unit "ssh" (Some (is_ssh_protocol unit)) tt;
           plain_entry unit "anyprot" (Some (is_true unit)) tt ];
       on_timeout := "ssh"; verbose := 0 |} in
  probe_buffer unit (place (lit "SSH") 0 zeroes) cfg 0 3 = (PROBE_AGAIN, None).
Proof. reflexivity. Qed.

Example scenario_read_error :
  let cfg :=
    {| protocols :=
         [ plain_entry unit "ssh" (Some (is_ssh_protocol unit)) tt;
           plain_entry unit "http" (Some (is_http_protocol unit)) tt;
           plain_entry unit "anyprot" (Some (is_true unit)) tt ];
       on_timeout := "ssh"; verbose := 0 |} in
  let cnx := {| q1 := {| begin_deferred_data := 0; deferred_data_size := 0 |};
                proto := None |} in
  fst (probe_client_protocol unit zeroes cfg cnx 0 []) = PROBE_MATCH
  /\ proto (snd (snd (probe_client_protocol unit zeroes cfg cnx 0 [])))
     = Some 2.
Proof. split; reflexivity. Qed.

(** A first read of four bytes, then three more: the deferred data grow
    and the arbiter sees all seven. *)
Example scenario_two_reads :
  let cfg :=
    {| protocols :=
         [ plain_entry unit "http" (Some (is_http_protocol unit)) tt;
           plain_entry unit "anyprot" (Some (is_true unit)) tt ];
       on_timeout := "http"; verbose := 0 |} in
  let cnx := {| q1 := {| begin_deferred_data := 0; deferred_data_size := 0 |};
                proto := None |} in
  let r1 := probe_client_protocol unit zeroes cfg cnx 4 (lit "GET ") in
  let r2 := probe_client_protocol unit (fst (snd r1)) cfg (snd (snd r1)) 3
              (lit "/ x") in
  fst r1 = PROBE_AGAIN /\ proto (snd (snd r1)) = None
  /\ fst r2 = PROBE_MATCH /\ proto (snd (snd r2)) = Some 0.
Proof. repeat split. Qed.

(** Scenarios 5 and 6, with the TLS parser of the specification: a
    ClientHello that names [example.com] is for the TLS entry that
    allows this name, one that names [other.com] falls to the last
    entry; and as long as the record is not whole the arbiter waits.
    Each ClientHello is the record header, the handshake header, the
    version and the random, an empty session id, one cipher suite, one
    compression method, and the extension block with SNI and ALPN. *)
Example scenario_tls_sni :
  let hello_example :=
    [x16; x03; x01; x00; x4c] ++ [x01; x00; x00; x48]
    ++ [x03; x03] ++ repeat x00 32
    ++ [x00] ++ [x00; x02; x13; x01] ++ [x01; x00] ++ [x00; x1d]
    ++ [x00; x00; x00; x10; x00; x0e; x00; x00; x0b] ++ lit "example.com"
    ++ [x00; x10; x00; x05; x00; x03; x02; x68; x32] in
  let hello_other :=
    [x16; x03; x01; x00; x4a] ++ [x01; x00; x00; x46]
    ++ [x03; x03] ++ repeat x00 32
    ++ [x00] ++ [x00; x02; x13; x01] ++ [x01; x00] ++ [x00; x1b]
    ++ [x00; x00; x00; x0e; x00; x0c; x00; x00; x09] ++ lit "other.com"
    ++ [x00; x10; x00; x05; x00; x03; x02; x68; x32] in
  let tls :=
    is_tls_protocol tls_policy 1 0 (-1)
      (parse_tls_header_of 1 0 (-1) 16384 (fun policy => policy)) in
  let unused := {| sni_allow := None; alpn_allow := None |} in
  let cfg :=
    {| protocols :=
         [ plain_entry tls_policy "tls" (Some tls)
             {| sni_allow := Some [lit "example.com"]; alpn_allow := None |};
           plain_entry tls_policy "anyprot" (Some (is_true tls_policy)) unused ];
       on_timeout := "tls"; verbose := 0 |} in
  probe_buffer tls_policy (place hello_example 0 zeroes) cfg 0
    (slice_len hello_example)
  = (PROBE_MATCH, Some 0)
  /\ probe_buffer tls_policy (place hello_other 0 zeroes) cfg 0
       (slice_len hello_other)
     = (PROBE_MATCH, Some 1)
  /\ probe_buffer tls_policy (place (firstn 60 hello_example) 0 zeroes) cfg 0 60
     = (PROBE_AGAIN, None).
Proof. repeat split; vm_compute; reflexivity. Qed.

(** ** The further properties at concrete inputs *)

Lemma xmpp_probe_outcome_witness :
  probe_on unit (is_xmpp_protocol unit)
    (lit "<stream:stream to='example.com' xmlns='jabber:client'>") 0 zeroes tt
  = PROBE_MATCH.
Proof.
  rewrite (xmpp_probe_outcome unit) by (vm_compute; discriminate).
  reflexivity.
Defined.

Lemma probe_results_in_range_witness :
  0 <= result zeroes
         (is_tls_protocol (list byte) 1 0 (-1) tls_record_check 0 8 []) <= 2.
Proof.
  apply (probe_results_in_range false true (list byte) byte 1 0 (-1)
           tls_record_check (fun d => d) regexec_first_byte "tls").
  left. do 5 right. now left.
Defined.

Lemma timeout_protocol_first_named_witness :
  let cfg :=
    {| protocols :=
         [ plain_entry unit "ssh" (Some (is_ssh_protocol unit)) tt;
           plain_entry unit "http" (Some (is_http_protocol unit)) tt;
           plain_entry unit "anyprot" (Some (is_true unit)) tt ];
       on_timeout := "http"; verbose := 0 |} in
  timeout_protocol unit cfg = 1
  /\ exists e, item_at unit cfg (timeout_protocol unit cfg) = Some e
               /\ name unit e = "http"%string.
Proof.
  intros cfg. split; [reflexivity |].
  destruct (proj1 (timeout_protocol_first_named unit cfg)) as (e & H1 & H2 & _).
  - exists (plain_entry unit "http" (Some (is_http_protocol unit)) tt).
    split; [right; now left | reflexivity].
  - now exists e.
Defined.

Lemma probe_buffer_match_wins_witness :
  let any := plain_entry unit "anyprot" (Some (is_true unit)) tt in
  let cfg :=
    {| protocols :=
         [ plain_entry unit "ssh" (Some (is_ssh_protocol unit)) tt;
           any;
           plain_entry unit "http" (Some (is_http_protocol unit)) tt ];
       on_timeout := "ssh"; verbose := 0 |} in
  exists j,
    0 <= j <= 1
    /\ probe_buffer unit (place (lit "SS") 0 zeroes) cfg 0 2
       = (PROBE_MATCH, Some j).
Proof.
  intros any cfg.
  apply (probe_buffer_match_wins unit (place (lit "SS") 0 zeroes) cfg 0 2 1
           any (is_true unit)).
  - reflexivity.
  - reflexivity.
  - intros H. discriminate H.
  - reflexivity.
  - left. vm_compute. discriminate.
Defined.

Lemma probes_decide_by_witness :
  probe_on unit (is_socks5_protocol true unit) (repeat x05 12) 0 zeroes tt
  <> PROBE_AGAIN.
Proof.
  apply (probes_decide_by false true unit 1 0 (-1)
           (fun _ => tls_record_check []) "socks5"
           (is_socks5_protocol true unit) 12).
  - do 7 right. now left.
  - do 6 right. now left.
  - split; vm_compute; discriminate.
Defined.

Lemma probe_buffer_never_waits_witness :
  let cfg :=
    {| protocols :=
         [ plain_entry unit "ssh" (Some (is_ssh_protocol unit)) tt;
           plain_entry unit "http" (Some (is_http_protocol unit)) tt ];
       on_timeout := "ssh"; verbose := 0 |} in
  exists j,
    probe_buffer unit (place (repeat x41 54) 0 zeroes) cfg 0
      (slice_len (repeat x41 54))
    = (PROBE_MATCH, Some j).
Proof.
  intros cfg.
  apply (probe_buffer_never_waits false true unit 1 0 (-1)
           (fun _ => tls_record_check []) cfg (repeat x41 54) 0 zeroes).
  - intros e pr [<- | [<- | []]] H; injection H as <-.
    + exists "ssh"%string. split; [now left | discriminate].
    + exists "http"%string. split; [do 4 right; now left | discriminate].
  - intros e [<- | [<- | []]] H; discriminate H.
  - split; vm_compute; discriminate.
Defined.

Lemma final_verdicts_witness :
  final_verdict unit (is_socks5_protocol true unit).
Proof.
  apply (final_verdicts false true unit 1 0 (-1)
           (fun _ => tls_record_check []) tt "socks5"
           (is_socks5_protocol true unit)).
  - do 7 right. now left.
  - discriminate.
  - do 3 right. now left.
Defined.

Lemma hexdump_reads_the_slice_witness :
  run zeroes (hexdump true (fun z => (32 <=? z) && (z <=? 126)) 0 0)
  = ([], []).
Proof.
  apply (hexdump_reads_the_slice true (fun z => (32 <=? z) && (z <=? 126))
           zeroes 0 0).
  - split; vm_compute; discriminate.
  - reflexivity.
Defined.

Lemma hexdump_layout_witness :
  let m := place (lit "GET / HTTP/1.1 hello") 0 zeroes in
  let isprint := fun z => (32 <=? z) && (z <=? 126) in
  result m (hexdump true isprint 0 20)
  = dump_row true isprint m 0 20 0 ++ dump_row true isprint m 0 20 1.
Proof.
  intros m isprint.
  rewrite (proj1 (hexdump_layout true isprint m 0 20
                    ltac:(split; vm_compute; discriminate))).
  reflexivity.
Defined.

Lemma probe_buffer_local_witness :
  let cfg :=
    {| protocols :=
         [ plain_entry unit "ssh" (Some (is_ssh_protocol unit)) tt;
           plain_entry unit "anyprot" (Some (is_true unit)) tt ];
       on_timeout := "ssh"; verbose := 0 |} in
  probe_buffer unit (place (lit "SSH-2") 7 zeroes) cfg 7 5
  = probe_buffer unit (place (lit "SSH-2") 7 (fun _ => xff)) cfg 7 5.
Proof.
  intros cfg.
  apply (probe_buffer_local unit cfg (lit "SSH-2") 7 zeroes (fun _ => xff)).
  - intros e pr [<- | [<- | []]] H; injection H as <-.
    + apply reads_inside_local, reads_inside_of.
      intros d m p len _. apply is_ssh_protocol_reads.
    + intros b p beyond beyond' d _. reflexivity.
  - vm_compute. discriminate.
Defined.

Lemma always_match_entry_hides_the_rest_witness :
  let timeout := plain_entry unit "timeout" (Some (is_true unit)) tt in
  let cfg :=
    {| protocols :=
         [ plain_entry unit "ssh" (Some (is_ssh_protocol unit)) tt;
           timeout;
           plain_entry unit "http" (Some (is_http_protocol unit)) tt ];
       on_timeout := "ssh"; verbose := 0 |} in
  exists j,
    0 <= j <= 1
    /\ probe_buffer unit (place (lit "SS") 0 zeroes) cfg 0 2
       = (PROBE_MATCH, Some j).
Proof.
  intros timeout cfg.
  apply (always_match_entry_hides_the_rest false true unit byte 1 0 (-1)
           (fun _ => tls_record_check []) (fun _ => [])
           regexec_first_byte (place (lit "SS") 0 zeroes) cfg 0 2 1 timeout
           "timeout").
  - reflexivity.
  - now left.
  - reflexivity.
  - reflexivity.
  - left. vm_compute. discriminate.
Defined.
